(** * RankFit: segment binning and monotonicity scoring

    A shallow embedding of [rankfit/metrics.py], [rankfit/analyzer.py] and
    the trend description of [rankfit/visualization.py].

    Number model.  The scores, the outcomes and the per-bin event rates are
    binary64 floats in the program.  The segmentation is embedded over
    canonical rationals [Qc] (Leibniz equality is numeric equality): what is
    stated about it rests on comparisons of scores and of rates, on bin
    labels and on counts; the rounding of the quantile edges and of the group
    means is not represented, and nothing is stated about the last bits of a
    mean.  The values that [rankfit/metrics.py] computes are embedded in
    binary64, bit for bit, with Rocq's primitive floats: Kendall's tau, which
    scipy computes from integer pair counts (with the NaN that [kendalltau]
    returns for a constant input), and, in module [Binary64], the violation
    scan and [calculate_rankfit_v] with numpy's blocked pairwise [np.sum].

    Library model.  [pd.DataFrame], [pd.qcut], [pd.cut], [groupby().agg()],
    [np.linspace], [np.max], [np.min], [np.sum] and [scipy.stats.kendalltau]
    are not part of the repository; each is modelled from the behaviour of
    the library versions admitted by [setup.py] (pandas >= 1.3, numpy >= 1.19,
    scipy >= 1.7), on the arguments the analyzer passes. *)

From Stdlib Require Import ZArith QArith Qcanon Qround List Bool Lia Lqa.
From Stdlib Require Import Floats Uint63.
From Stdlib Require String.
Import String.StringSyntax.
Delimit Scope string_scope with string.
From Stdlib Require Import Sorting.Mergesort Sorting.Sorted Sorting.Permutation.
From Stdlib Require Import Orders.
Import ListNotations.

Local Open Scope Qc_scope.

(** ** Python exceptions *)

Inductive exn : Set :=
| ValueError
| IndexError.

Inductive py (A : Type) : Type :=
| Return (a : A)
| Raise (e : exn).

Arguments Return {A} a.
Arguments Raise {A} e.

Definition bind {A B : Type} (c : py A) (k : A -> py B) : py B :=
  match c with
  | Return a => k a
  | Raise e => Raise e
  end.

Notation "x <- c ;; k" := (bind c (fun x => k))
  (at level 61, c at next level, right associativity).

(** [try: c  except ValueError: h] *)
Definition try_except_ValueError {A : Type} (c : py A) (h : py A) : py A :=
  match c with
  | Raise ValueError => h
  | r => r
  end.

Definition returns {A : Type} (c : py A) : bool :=
  match c with
  | Return _ => true
  | Raise _ => false
  end.

(** ** Numbers *)

Definition Z2Qc (z : Z) : Qc := Q2Qc (inject_Z z).
Definition nat2Qc (n : nat) : Qc := Z2Qc (Z.of_nat n).

Definition Qcleb (a b : Qc) : bool := Qle_bool a b.
Definition Qcltb (a b : Qc) : bool := negb (Qle_bool b a).
Definition Qceqb (a b : Qc) : bool := Qeq_bool a b.

Definition Qcfloor (a : Qc) : Z := Qfloor a.
Definition Qcabs (a : Qc) : Qc := if Qcltb a 0 then - a else a.

(** Conversion of a Python int to binary64, as numpy does before [sqrt]
    and [/] (exact below 2^53). *)
Definition float_of_Z (z : Z) : float :=
  if (z <? 0)%Z then PrimFloat.opp (PrimFloat.of_uint63 (Uint63.of_Z (- z)))
  else PrimFloat.of_uint63 (Uint63.of_Z z).

(** ** numpy *)

(** [np.sum] of a list of floats over the rationals; [0.0] on the empty
    list.  The rounded sum is [Binary64.np_sum]. *)
Definition np_sum (l : list Qc) : Qc := fold_left Qcplus l 0.

(** [np.max] and [np.min].  They raise on an empty array; the program calls
    them only behind the guard [len(event_rates) < 2], so the value chosen
    here for [[]] is never observed. *)
Definition np_max (l : list Qc) : Qc :=
  match l with
  | [] => 0
  | h :: t => fold_left (fun m v => if Qcltb m v then v else m) t h
  end.

Definition np_min (l : list Qc) : Qc :=
  match l with
  | [] => 0
  | h :: t => fold_left (fun m v => if Qcltb v m then v else m) t h
  end.

(** [range(n)] for a Python int. *)
Definition range (n : Z) : list Z := map Z.of_nat (seq 0 (Z.to_nat n)).

(** [np.linspace(start, stop, num)]: raises [ValueError] for a negative
    [num]; [num] evenly spaced samples with both end points otherwise
    (a single sample is [start]). *)
Definition linspace (start stop : Qc) (num : Z) : py (list Qc) :=
  if (num <? 0)%Z then Raise ValueError
  else
    let div := (num - 1)%Z in
    if (div <=? 0)%Z then Return (map (fun _ => start) (range num))
    else
      let step := (stop - start) / Z2Qc div in
      Return (map (fun i => Z2Qc i * step + start) (range num)).

(** ** rankfit/metrics.py *)

(** A violation tuple [(i, i + 1, event_rates[i], event_rates[i + 1],
    severity)]. *)
Definition violation : Type := (nat * nat * Qc * Qc * Qc)%type.

(** [v[4]] *)
Definition v4 (v : violation) : Qc := snd v.
(** [v[0]] *)
Definition v0 (v : violation) : nat := fst (fst (fst (fst v))).

(** Python's builtin [max(0, x)]: the second argument wins only when it is
    strictly greater. *)
Definition py_max0 (x : Qc) : Qc := if Qcltb 0 x then x else 0.

(** [calculate_rankfit_v] over the rationals, as [calculate_metrics] below
    uses it; the function on binary64 values is
    [Binary64.calculate_rankfit_v]. *)
Definition calculate_rankfit_v (event_rates : list Qc)
    (violations : list violation) : Qc :=
  if (length event_rates <? 2)%nat then 1
  else
    let violation_magnitudes := map v4 violations in
    let total_range := np_max event_rates - np_min event_rates in
    if Qceqb total_range 0 then 1
    else py_max0 (1 - np_sum violation_magnitudes / total_range).

(** *** scipy.stats.kendalltau

    scipy ranks both inputs and counts, over the pairs [i < j]: the
    discordant pairs [dis], the pairs tied in [x] ([xtie]), tied in [y]
    ([ytie]) and tied in both ([ntie]).  The counts are taken here directly
    over the pairs.  From them scipy returns NaN when either input is
    constant ([xtie == tot] or [ytie == tot]) and otherwise tau-b,
    [con_minus_dis / sqrt(tot - xtie) / sqrt(tot - ytie)], limited to
    [-1, 1]; the result is always a float, never [None].  The analyzer
    passes two sequences of the same length. *)

(** [min(1., max(-1., tau))] with Python's [min] and [max], which keep their
    first argument unless the second is strictly beyond it. *)
Definition limit_range (tau : float) : float :=
  let m := if PrimFloat.ltb (-1)%float tau then tau else (-1)%float in
  if PrimFloat.ltb m 1%float then m else 1%float.

Fixpoint count_pairs {A : Type} (p : A -> A -> bool) (l : list A) : Z :=
  match l with
  | [] => 0
  | a :: t => Z.of_nat (length (filter (p a) t)) + count_pairs p t
  end%Z.

Definition tied_x (a b : Z * Qc) : bool := (fst a =? fst b)%Z.
Definition tied_y (a b : Z * Qc) : bool := Qceqb (snd a) (snd b).
Definition tied_xy (a b : Z * Qc) : bool := tied_x a b && tied_y a b.
Definition discordant (a b : Z * Qc) : bool :=
  ((fst a <? fst b)%Z && Qcltb (snd b) (snd a))
  || ((fst b <? fst a)%Z && Qcltb (snd a) (snd b)).

Definition kendalltau (x : list Z) (y : list Qc) : float :=
  let xy := combine x y in
  let size := Z.of_nat (length xy) in
  if (size =? 0)%Z then nan
  else
    let dis := count_pairs discordant xy in
    let ntie := count_pairs tied_xy xy in
    let xtie := count_pairs tied_x xy in
    let ytie := count_pairs tied_y xy in
    let tot := (size * (size - 1) / 2)%Z in
    if (xtie =? tot)%Z || (ytie =? tot)%Z then nan
    else
      let con_minus_dis := (tot - xtie - ytie + ntie - 2 * dis)%Z in
      let tau :=
        (float_of_Z con_minus_dis / PrimFloat.sqrt (float_of_Z (tot - xtie))
         / PrimFloat.sqrt (float_of_Z (tot - ytie)))%float in
      limit_range tau.

(** [tau is not None]: [tau] is a binary64 value, NaN included, and no
    float is [None]. *)
Definition is_not_None (tau : float) : bool := true.

Definition calculate_rankfit_t (event_rates : list Qc) : float :=
  if (length event_rates <? 2)%nat then 1%float
  else
    let bin_indices :=
      map (fun i => (- i)%Z) (range (Z.of_nat (length event_rates))) in
    let tau := kendalltau bin_indices event_rates in
    let rankfit_t := ((tau + 1) / 2)%float in
    if is_not_None tau then rankfit_t else 0.5%float.

(** ** pandas *)

(** [pd.DataFrame({'score': y_scores, 'actual': y_true})]: one row per
    example; columns of different lengths raise [ValueError]. *)
Definition DataFrame (y_scores y_true : list Qc) : py (list (Qc * Qc)) :=
  if (length y_scores =? length y_true)%nat
  then Return (combine y_scores y_true)
  else Raise ValueError.

(** [np.sort]: the ascending order on the scores, for the library's merge
    sort. *)
Module QcOrder <: TotalLeBool.
Definition t := Qc.
Definition leb := Qcleb.
Theorem leb_total : forall a1 a2, leb a1 a2 = true \/ leb a2 a1 = true.
Proof.
  intros a1 a2. unfold leb, Qcleb.
  destruct (Qlt_le_dec a1 a2) as [H | H].
  - left. apply Qle_bool_iff. apply Qlt_le_weak. exact H.
  - right. apply Qle_bool_iff. exact H.
Qed.
End QcOrder.

Module QcSort := Sort QcOrder.

(** The quantile of the sorted sample [values] at fraction [at_], by linear
    interpolation between the two neighbouring order statistics (the exact
    value; numpy rounds the interpolation). *)
Definition interpolate (a b fraction : Qc) : Qc := a + (b - a) * fraction.

Definition get_score (values : list Qc) (at_ : Qc) : Qc :=
  let idx := at_ * Z2Qc (Z.of_nat (length values) - 1) in
  let lo := Qcfloor idx in
  let fraction := idx - Z2Qc lo in
  if Qceqb fraction 0 then nth (Z.to_nat lo) values 0
  else interpolate (nth (Z.to_nat lo) values 0)
                   (nth (Z.to_nat lo + 1) values 0) fraction.

Definition quantile (x quantiles : list Qc) : list Qc :=
  let values := QcSort.sort x in
  map (get_score values) quantiles.

(** [algos.unique]: the distinct values in order of first appearance. *)
Fixpoint unique (l : list Qc) : list Qc :=
  match l with
  | [] => []
  | a :: t => a :: filter (fun b => negb (Qceqb b a)) (unique t)
  end.

(** [bins.searchsorted(v, side='left')] on ascending [bins]: the number of
    edges strictly below [v]. *)
Definition searchsorted_left (bins : list Qc) (v : Qc) : nat :=
  length (filter (fun b => Qcltb b v) bins).

Inductive duplicates_policy : Set :=
| dup_raise
| dup_drop.

(** [_bins_to_cuts(x, bins, right=True, labels=False, include_lowest,
    duplicates)]: the bin number of every value, [None] standing for the NaN
    of a value that falls in no bin. *)
Definition bins_to_cuts (x bins : list Qc) (include_lowest : bool)
    (duplicates : duplicates_policy) : py (list (option nat)) :=
  let unique_bins := unique bins in
  bins <- (if (length unique_bins <? length bins)%nat
              && negb (length bins =? 2)%nat
           then match duplicates with
                | dup_raise => Raise ValueError
                | dup_drop => Return unique_bins
                end
           else Return bins) ;;
  let ids := map (searchsorted_left bins) x in
  ids <- (if include_lowest
          then match bins with
               | [] => Raise IndexError
               | b0 :: _ =>
                   Return (map (fun vi => if Qceqb (fst vi) b0 then 1%nat
                                          else snd vi) (combine x ids))
               end
          else Return ids) ;;
  let na_mask id := (id =? length bins)%nat || (id =? 0)%nat in
  Return (map (fun id => if na_mask id then None else Some (id - 1)%nat) ids).

(** [pd.qcut(x, q, labels=False, duplicates='drop')].  An empty [x] has NaN
    for every quantile and no row to label.  For [q <= 0] the definition
    follows pandas 1.3 to 2.x; pandas 3 rejects such a [q] with
    [ValueError]. *)
Definition qcut (x : list Qc) (q : Z) : py (list (option nat)) :=
  quantiles <- linspace 0 1 (q + 1) ;;
  match x with
  | [] => match quantiles with
          | [] => Raise IndexError
          | _ => Return []
          end
  | _ => bins_to_cuts x (quantile x quantiles) true dup_drop
  end.

(** [pd.cut(x, bins, labels=False, include_lowest=True)] for an integer
    [bins]: equal-width edges over [[min, max]], the lowest edge moved down
    by 0.1% of the range. *)
Definition cut (x : list Qc) (bins : Z) : py (list (option nat)) :=
  if (bins <? 1)%Z then Raise ValueError
  else match x with
  | [] => Raise ValueError
  | _ =>
    let mn := np_min x in
    let mx := np_max x in
    if Qceqb mn mx then
      let mn := mn - (if negb (Qceqb mn 0) then Q2Qc 0.001 * Qcabs mn
                      else Q2Qc 0.001) in
      let mx := mx + (if negb (Qceqb mx 0) then Q2Qc 0.001 * Qcabs mx
                      else Q2Qc 0.001) in
      edges <- linspace mn mx (bins + 1) ;;
      bins_to_cuts x edges true dup_raise
    else
      edges <- linspace mn mx (bins + 1) ;;
      let adj := (mx - mn) * Q2Qc 0.001 in
      let edges := match edges with
                   | [] => []
                   | e0 :: rest => (e0 - adj) :: rest
                   end in
      bins_to_cuts x edges true dup_raise
  end.

(** ** rankfit/analyzer.py *)

(** A row of [df]: the columns ['score'], ['actual'] and ['bin'] (NaN is
    [None]). *)
Record row : Type := mk_row {
  score : Qc;
  actual : Qc;
  bin : option nat
}.

(** [df['bin'].max()], which skips NaN and is NaN when nothing is left. *)
Definition max_step (m b : option nat) : option nat :=
  match m, b with
  | Some m', Some b' => Some (Nat.max m' b')
  | None, _ => b
  | _, None => m
  end.

Definition series_max (col : list (option nat)) : option nat :=
  fold_left max_step col None.

(** [top - b] on a column entry; NaN on either side gives NaN. *)
Definition reverse_bin (top b : option nat) : option nat :=
  match top, b with
  | Some t, Some b' => Some (t - b')%nat
  | _, _ => None
  end.

(** Lines 66-78 of [calculate_metrics]: the frame with its reversed ['bin']
    column. *)
Definition binned_frame (n_bins : Z) (y_scores y_true : list Qc)
    : py (list row) :=
  df <- DataFrame y_scores y_true ;;
  let score_col := map fst df in
  bins <- try_except_ValueError (qcut score_col n_bins)
                                (cut score_col n_bins) ;;
  let top := series_max bins in
  let bins := map (reverse_bin top) bins in
  Return (map (fun rb => mk_row (fst (fst rb)) (snd (fst rb)) (snd rb))
              (combine df bins)).

(** One row of [bin_stats]. *)
Record bin_stat : Type := mk_bin_stat {
  bs_bin : nat;
  actual_mean : Qc;
  actual_count : nat;
  score_mean : Qc
}.

(** The group keys of [df.groupby('bin')]: the distinct non-NaN values of
    the column in ascending order. *)
Fixpoint insert_key (k : nat) (keys : list nat) : list nat :=
  match keys with
  | [] => [k]
  | h :: t =>
      if (k <? h)%nat then k :: keys
      else if (k =? h)%nat then keys
      else h :: insert_key k t
  end.

Definition group_keys (df : list row) : list nat :=
  fold_right (fun r keys =>
                match bin r with
                | Some k => insert_key k keys
                | None => keys
                end) [] df.

Definition in_bin (k : nat) (r : row) : bool :=
  match bin r with
  | Some b => (b =? k)%nat
  | None => false
  end.

(** The rows of one group. *)
Definition group (df : list row) (k : nat) : list row := filter (in_bin k) df.

(** The ['mean'] aggregation, as the exact quotient; pandas rounds the sum
    and the quotient. *)
Definition mean (l : list Qc) : Qc := np_sum l / nat2Qc (length l).

(** [df.groupby('bin').agg(actual_mean, actual_count, score_mean)
    .reset_index()] *)
Definition groupby_agg (df : list row) : list bin_stat :=
  map (fun k =>
         let g := group df k in
         mk_bin_stat k (mean (map actual g)) (length g) (mean (map score g)))
      (group_keys df).

(** The loop of lines 90-95. *)
Definition find_violations (event_rates : list Qc) : list violation :=
  fold_left
    (fun violations i =>
       if Qcltb (nth i event_rates 0) (nth (i + 1) event_rates 0)
       then
         let severity := nth (i + 1) event_rates 0 - nth i event_rates 0 in
         violations ++ [(i, (i + 1)%nat, nth i event_rates 0,
                         nth (i + 1) event_rates 0, severity)]
       else violations)
    (seq 0 (length event_rates - 1)) [].

(** The dictionary returned by [calculate_metrics]. *)
Record results : Type := mk_results {
  bin_stats : list bin_stat;
  rankfit_v : Qc;
  rankfit_t : float;
  violations : list violation
}.

Definition calculate_metrics (n_bins : Z) (y_scores y_true : list Qc)
    : py results :=
  df <- binned_frame n_bins y_scores y_true ;;
  let bin_stats := groupby_agg df in
  let event_rates := map actual_mean bin_stats in
  let violations := find_violations event_rates in
  let rankfit_v := calculate_rankfit_v event_rates violations in
  let rankfit_t := calculate_rankfit_t event_rates in
  Return (mk_results bin_stats rankfit_v rankfit_t violations).

(** ** rankfit/metrics.py in binary64

    The violation scan of [calculate_metrics] and [calculate_rankfit_v] once
    more, on binary64 values with numpy's arithmetic. *)

Module Binary64.

(** A violation tuple [(i, i + 1, event_rates[i], event_rates[i + 1],
    severity)]. *)
Definition violation : Type := (nat * nat * float * float * float)%type.

(** [v[4]] *)
Definition v4 (v : violation) : float := snd v.

(** numpy's [pairwise_sum]: fewer than 8 terms are added from left to right;
    up to 128 terms go into 8 accumulators, block after block of 8, the
    accumulators are added as a tree and the terms left over are added from
    left to right; a longer array is split at a multiple of 8 near its
    middle.  [fuel] bounds the splits, and the length is enough. *)
Definition add_block (r blk : list float) : list float :=
  map (fun p => (fst p + snd p)%float) (combine r blk).

Fixpoint blocks (fuel : nat) (r a : list float) : list float * list float :=
  match fuel with
  | O => (r, a)
  | S fuel' =>
      if (8 <=? length a)%nat
      then blocks fuel' (add_block r (firstn 8 a)) (skipn 8 a)
      else (r, a)
  end.

Definition reduce8 (r : list float) : float :=
  match r with
  | [r0; r1; r2; r3; r4; r5; r6; r7] =>
      (((r0 + r1) + (r2 + r3)) + ((r4 + r5) + (r6 + r7)))%float
  | _ => nan
  end.

Fixpoint pairwise_sum (fuel : nat) (a : list float) : float :=
  let n := length a in
  if (n <? 8)%nat then fold_left PrimFloat.add a 0%float
  else if (n <=? 128)%nat then
    let '(r, rest) := blocks n (firstn 8 a) (skipn 8 a) in
    fold_left PrimFloat.add rest (reduce8 r)
  else
    match fuel with
    | O => nan
    | S fuel' =>
        let n2 := (n / 2)%nat in
        let n2 := (n2 - n2 mod 8)%nat in
        (pairwise_sum fuel' (firstn n2 a)
         + pairwise_sum fuel' (skipn n2 a))%float
    end.

(** [np.sum]: the reduction starts from the identity [0.0]. *)
Definition np_sum (a : list float) : float :=
  (0 + pairwise_sum (length a) a)%float.

(** [np.max] and [np.min]: [maximum.reduce] keeps the accumulator when it
    is NaN or not below the next element.  On [[]] they raise; the program
    calls them behind the guard [len(event_rates) < 2]. *)
Definition np_max (l : list float) : float :=
  match l with
  | [] => nan
  | h :: t =>
      fold_left (fun m v => if PrimFloat.leb v m || PrimFloat.is_nan m
                            then m else v) t h
  end.

Definition np_min (l : list float) : float :=
  match l with
  | [] => nan
  | h :: t =>
      fold_left (fun m v => if PrimFloat.leb m v || PrimFloat.is_nan m
                            then m else v) t h
  end.

(** Python's builtin [max(0, x)]. *)
Definition py_max0 (x : float) : float :=
  if PrimFloat.ltb 0 x then x else 0%float.

(** The loop of lines 90-95 of [calculate_metrics]. *)
Definition find_violations (event_rates : list float) : list violation :=
  fold_left
    (fun violations i =>
       if PrimFloat.ltb (nth i event_rates 0%float)
                        (nth (i + 1) event_rates 0%float)
       then
         let severity :=
           (nth (i + 1) event_rates 0 - nth i event_rates 0)%float in
         violations ++ [(i, (i + 1)%nat, nth i event_rates 0%float,
                         nth (i + 1) event_rates 0%float, severity)]
       else violations)
    (seq 0 (length event_rates - 1)) [].

Definition calculate_rankfit_v (event_rates : list float)
    (violations : list violation) : float :=
  if (length event_rates <? 2)%nat then 1%float
  else
    let violation_magnitudes := map v4 violations in
    let total_range := (np_max event_rates - np_min event_rates)%float in
    if PrimFloat.eqb total_range 0 then 1%float
    else py_max0 (1 - np_sum violation_magnitudes / total_range)%float.

End Binary64.

(** ** rankfit/visualization.py *)

(** The binary64 values of the literals [0.95] and [0.7]. *)
Definition float_0_95 : float := 0x1.e666666666666p-1%float.
Definition float_0_7 : float := 0x1.6666666666666p-1%float.

(** The trend description of [plot_ranking_analysis] (lines 34-45): four
    labels by thresholds on [rankfit_t], and a suffix when there is a
    violation. *)
Definition trend_desc (rankfit_t : float) (violations : list violation)
    : String.string :=
  let trend_desc :=
    if PrimFloat.ltb float_0_95 rankfit_t then "Perfectly Decreasing"%string
    else if PrimFloat.ltb float_0_7 rankfit_t then "Strongly Decreasing"%string
    else if PrimFloat.ltb 0.5%float rankfit_t then "Weakly Decreasing"%string
    else "Non-Decreasing"%string in
  if (0 <? length violations)%nat
  then String.append trend_desc " (non-monotonic)"%string
  else trend_desc.

(** The description shown for a result of [calculate_metrics]. *)
Definition results_trend_desc (r : results) : String.string :=
  trend_desc (rankfit_t r) (violations r).

(** ** Vocabulary of the statements *)

(** Literal data: a list of rationals as a list of floats. *)
Definition qs (l : list Q) : list Qc := map Q2Qc l.

(** [hi] is the greatest element of [l]. *)
Definition is_max (hi : Qc) (l : list Qc) : Prop :=
  In hi l /\ forall x, In x l -> x <= hi.

(** [lo] is the least element of [l]. *)
Definition is_min (lo : Qc) (l : list Qc) : Prop :=
  In lo l /\ forall x, In x l -> lo <= x.

(** The tuple the scan records for position [i]. *)
Definition violation_at (event_rates : list Qc) (i : nat) : violation :=
  (i, (i + 1)%nat, nth i event_rates 0, nth (i + 1) event_rates 0,
   nth (i + 1) event_rates 0 - nth i event_rates 0).

(** [event_rates[i + 1] > event_rates[i]] *)
Definition rises_at (event_rates : list Qc) (i : nat) : bool :=
  Qcltb (nth i event_rates 0) (nth (i + 1) event_rates 0).


Fixpoint list_eqb {A : Type} (eqb : A -> A -> bool) (l1 l2 : list A) : bool :=
  match l1, l2 with
  | [], [] => true
  | a :: t1, b :: t2 => eqb a b && list_eqb eqb t1 t2
  | _, _ => false
  end.

(** The edges [_bins_to_cuts] keeps under [duplicates='drop']. *)
Definition kept_edges (bins : list Qc) : list Qc :=
  if (length (unique bins) <? length bins)%nat && negb (length bins =? 2)%nat
  then unique bins else bins.

(** The bin number [_bins_to_cuts] gives to one value, lowest edge
    included. *)
Definition bin_label (bins : list Qc) (v : Qc) : option nat :=
  let id := if Qceqb v (hd 0 bins) then 1%nat else searchsorted_left bins v in
  if (id =? length bins)%nat || (id =? 0)%nat then None
  else Some (id - 1)%nat.

(** The edges [qcut] bins with. *)
Definition quantile_edges (x : list Qc) (q : Z) : list Qc :=
  match linspace 0 1 (q + 1) with
  | Return quantiles => kept_edges (quantile x quantiles)
  | Raise _ => []
  end.

(** The row built from one example, given the edges and the column
    maximum. *)
Definition binned_row (edges : list Qc) (top : option nat) (sa : Qc * Qc)
    : row :=
  mk_row (fst sa) (snd sa) (reverse_bin top (bin_label edges (fst sa))).

(** The scores of the [i]-th row of [bin_stats], segment [i]. *)
Definition segment_scores (df : list row) (i : nat) : list Qc :=
  map score (group df (nth i (group_keys df) 0%nat)).

(** The sum of the per-segment counts. *)
Definition sum_counts (stats : list bin_stat) : nat :=
  fold_right Nat.add 0%nat (map actual_count stats).

(** The preconditions of the entry point: equal lengths, at least one bin,
    outcomes in {0, 1}, a non-empty input. *)
Definition binary (a : Qc) : bool := Qceqb a 0 || Qceqb a 1.

Definition valid_input (n_bins : Z) (y_scores y_true : list Qc) : bool :=
  (length y_scores =? length y_true)%nat
  && (1 <=? n_bins)%Z
  && forallb binary y_true
  && negb (length y_scores =? 0)%nat.

(** [0 <= x <= 1] on binary64; false for NaN. *)
Definition in_unit_interval (x : float) : bool :=
  PrimFloat.leb 0%float x && PrimFloat.leb x 1%float.

(** Adjacent rates never rise, never fall. *)
Definition non_increasing (l : list Qc) : Prop :=
  forall i, (i + 1 < length l)%nat -> nth (i + 1) l 0 <= nth i l 0.

Definition non_decreasing (l : list Qc) : Prop :=
  forall i, (i + 1 < length l)%nat -> nth i l 0 <= nth (i + 1) l 0.

(** Every rate is below, above, all the rates before it. *)
Definition strictly_decreasing (l : list Qc) : Prop :=
  StronglySorted (fun a b => b < a) l.

Definition strictly_increasing (l : list Qc) : Prop :=
  StronglySorted (fun a b => a < b) l.

(** [kendalltau] of [n] untied observations whose pairs are all concordant,
    all discordant: [tot / sqrt(tot) / sqrt(tot)] and its opposite in
    binary64, limited to [-1, 1]. *)
Definition tau_concordant (n : nat) : float :=
  let tot := (Z.of_nat n * (Z.of_nat n - 1) / 2)%Z in
  limit_range (float_of_Z tot / PrimFloat.sqrt (float_of_Z tot)
               / PrimFloat.sqrt (float_of_Z tot))%float.

Definition tau_discordant (n : nat) : float :=
  let tot := (Z.of_nat n * (Z.of_nat n - 1) / 2)%Z in
  limit_range (float_of_Z (- tot) / PrimFloat.sqrt (float_of_Z tot)
               / PrimFloat.sqrt (float_of_Z tot))%float.

(** [lo <= x <= hi] on binary64. *)
Definition float_between (lo hi x : float) : bool :=
  PrimFloat.leb lo x && PrimFloat.leb x hi.

(** The description shown for segments of event rates [event_rates]: the
    trend score and the violations are those [calculate_metrics] derives
    from the rates. *)
Definition rates_trend_desc (event_rates : list Qc) : String.string :=
  trend_desc (calculate_rankfit_t event_rates) (find_violations event_rates).

(** Two of the rates differ. *)
Definition varied (l : list Qc) : Prop :=
  exists x y, In x l /\ In y l /\ x <> y.

(** [kendalltau] of untied [x] from the pair counts: [tot] pairs, [ytie]
    of them tied in [y], and [con_minus_dis]. *)
Definition tau_b (tot ytie con_minus_dis : Z) : float :=
  limit_range (float_of_Z con_minus_dis / PrimFloat.sqrt (float_of_Z tot)
               / PrimFloat.sqrt (float_of_Z (tot - ytie)))%float.

(** The integers [lo, lo + 1, ..., lo + n - 1]. *)
Fixpoint zrange_from (lo : Z) (n : nat) : list Z :=
  match n with
  | O => []
  | S n' => lo :: zrange_from (lo + 1) n'
  end.

Definition zrange (lo n : Z) : list Z := zrange_from lo (Z.to_nat n).

(** Every trend score that [n] segments with untied positions can get is
    within [0, 1]: all counts [ytie < tot] and
    [|con_minus_dis| <= tot - ytie] are tried. *)
Definition trend_scores_in_range (n : nat) : bool :=
  let tot := (Z.of_nat n * (Z.of_nat n - 1) / 2)%Z in
  forallb (fun ytie =>
             forallb (fun cmd =>
                        in_unit_interval ((tau_b tot ytie cmd + 1) / 2)%float)
                     (zrange (- (tot - ytie)) (2 * (tot - ytie) + 1)))
          (zrange 0 tot).

(** The trend scores [n] segments get when no pair of rates is out of
    order, every untied pair concordant or every untied pair discordant: the
    first is above one half, the second below, for every count [ytie] of
    tied pairs. *)
Definition monotone_scores_apart (n : nat) : bool :=
  let tot := (Z.of_nat n * (Z.of_nat n - 1) / 2)%Z in
  forallb (fun ytie =>
             let up := ((tau_b tot ytie (tot - ytie) + 1) / 2)%float in
             let down := ((tau_b tot ytie (- (tot - ytie)) + 1) / 2)%float in
             PrimFloat.ltb 0.5 up && PrimFloat.leb up 1
             && PrimFloat.leb 0 down && PrimFloat.ltb down 0.5)
          (zrange 0 tot).

(** The binary64 values of the literals [0.1], [0.2] and [0.3]. *)
Definition float_0_1 : float := 0x1.999999999999ap-4%float.
Definition float_0_2 : float := 0x1.999999999999ap-3%float.
Definition float_0_3 : float := 0x1.3333333333333p-2%float.

(** [hi] is a greatest and [lo] a least element of [l] in the order of
    binary64. *)
Definition greatest (hi : float) (l : list float) : Prop :=
  In hi l /\ forall x, In x l -> PrimFloat.leb x hi = true.

Definition least (lo : float) (l : list float) : Prop :=
  In lo l /\ forall x, In x l -> PrimFloat.leb lo x = true.

(** No element is NaN. *)
Definition no_nan (l : list float) : Prop :=
  forall x, In x l -> PrimFloat.is_nan x = false.


(** ** Comparisons and arithmetic on [Qc] *)

Lemma Qcleb_le (a b : Qc) : Qcleb a b = true <-> a <= b.
Proof. unfold Qcleb, Qcle. apply Qle_bool_iff. Qed.

Lemma Qcltb_lt (a b : Qc) : Qcltb a b = true <-> a < b.
Proof.
  unfold Qcltb, Qclt. rewrite negb_true_iff.
  destruct (Qle_bool b a) eqn:E.
  - apply Qle_bool_iff in E. split; [discriminate | intro H].
    exfalso. exact (Qlt_not_le _ _ H E).
  - split; [intros _ | reflexivity].
    apply Qnot_le_lt. intro H. apply Qle_bool_iff in H. congruence.
Qed.

Lemma Qcltb_ge (a b : Qc) : Qcltb a b = false <-> b <= a.
Proof.
  split; intro H.
  - apply Qcnot_lt_le. intro L. apply Qcltb_lt in L. congruence.
  - destruct (Qcltb a b) eqn:E; [| reflexivity].
    apply Qcltb_lt in E. exfalso. exact (Qclt_not_le _ _ E H).
Qed.

Lemma Qceqb_eq (a b : Qc) : Qceqb a b = true <-> a = b.
Proof.
  unfold Qceqb. rewrite Qeq_bool_iff. split.
  - apply Qc_is_canon.
  - intros ->. reflexivity.
Qed.

Lemma Qceqb_neq (a b : Qc) : Qceqb a b = false <-> a <> b.
Proof.
  split; intro H.
  - intro E. apply Qceqb_eq in E. congruence.
  - destruct (Qceqb a b) eqn:E; [| reflexivity].
    apply Qceqb_eq in E. contradiction.
Qed.

Lemma Qceqb_refl (a : Qc) : Qceqb a a = true.
Proof. apply Qceqb_eq. reflexivity. Qed.

Lemma Qc_eq_Qeq (a b : Qc) : a = b -> (this a == this b)%Q.
Proof. intros ->. reflexivity. Qed.

Lemma Qc_neq_Qeq (a b : Qc) : a <> b -> ~ (this a == this b)%Q.
Proof. intros H E. apply H. apply Qc_is_canon. exact E. Qed.

Lemma Qc_neq_Qeq_conv (a b : Qc) : ~ (this a == this b)%Q -> a <> b.
Proof. intros H E. apply H. rewrite E. reflexivity. Qed.

Lemma this_plus (a b : Qc) : (this (a + b) == this a + this b)%Q.
Proof. apply Qred_correct. Qed.

Lemma this_opp (a : Qc) : (this (- a) == - this a)%Q.
Proof. apply Qred_correct. Qed.

Lemma this_minus (a b : Qc) : (this (a - b) == this a - this b)%Q.
Proof. unfold Qcminus. rewrite this_plus, this_opp. reflexivity. Qed.

Lemma this_mult (a b : Qc) : (this (a * b) == this a * this b)%Q.
Proof. apply Qred_correct. Qed.

Lemma this_inv (a : Qc) : (this (/ a) == / this a)%Q.
Proof. apply Qred_correct. Qed.

Lemma this_div (a b : Qc) : (this (a / b) == this a / this b)%Q.
Proof. unfold Qcdiv. rewrite this_mult, this_inv. reflexivity. Qed.

Lemma this_Q2Qc (q : Q) : (this (Q2Qc q) == q)%Q.
Proof. apply Qred_correct. Qed.

Create Rewrite HintDb qc_this.
#[local] Hint Rewrite this_plus this_opp this_minus this_mult this_div
  this_inv this_Q2Qc : qc_this.

(** Linear goals over [Qc] are sent to [Q], where [lra] decides them. *)
Ltac qc_to_Q :=
  repeat match goal with
         | H : @eq Qc _ _ |- _ => apply Qc_eq_Qeq in H
         | H : ~ @eq Qc _ _ |- _ => apply Qc_neq_Qeq in H
         | |- @eq Qc _ _ => apply Qc_is_canon
         | |- ~ @eq Qc _ _ => apply Qc_neq_Qeq_conv
         end;
  unfold Qcle, Qclt in *;
  autorewrite with qc_this in *.

Ltac qc_lra := qc_to_Q; lra.

(** ** Sums, maxima and minima *)

Lemma np_sum_acc (l : list Qc) (a : Qc) :
  fold_left Qcplus l a = a + np_sum l.
Proof.
  unfold np_sum. revert a. induction l as [| x l IH]; intro a; simpl.
  - ring.
  - rewrite IH. rewrite (IH (0 + x)). ring.
Qed.

Lemma np_sum_cons (x : Qc) (l : list Qc) : np_sum (x :: l) = x + np_sum l.
Proof. unfold np_sum at 1. simpl. rewrite np_sum_acc. ring. Qed.

Lemma np_sum_nonneg (l : list Qc) :
  Forall (fun x => 0 <= x) l -> 0 <= np_sum l.
Proof.
  induction 1 as [| x l Hx _ IH].
  - unfold np_sum. simpl. apply Qcle_refl.
  - rewrite np_sum_cons. qc_lra.
Qed.

Lemma fold_max_spec (t : list Qc) (h : Qc) :
  is_max (fold_left (fun m v => if Qcltb m v then v else m) t h) (h :: t).
Proof.
  revert h. induction t as [| x t IH]; intro h; simpl fold_left.
  - split; [left; reflexivity |].
    intros y [<- | []]. apply Qcle_refl.
  - destruct (IH (if Qcltb h x then x else h)) as [Hin Hub].
    destruct (Qcltb h x) eqn:E.
    + apply Qcltb_lt in E. split.
      * right. exact Hin.
      * intros y [<- | Hy]; [| apply Hub; exact Hy].
        apply Qcle_trans with x; [apply Qclt_le_weak; exact E |].
        apply Hub. left. reflexivity.
    + apply Qcltb_ge in E. split.
      * destruct Hin as [<- | Hin]; [left; reflexivity | right; right; exact Hin].
      * intros y [<- | [<- | Hy]].
        -- apply Hub. left. reflexivity.
        -- apply Qcle_trans with h; [exact E | apply Hub; left; reflexivity].
        -- apply Hub. right. exact Hy.
Qed.

Lemma fold_min_spec (t : list Qc) (h : Qc) :
  is_min (fold_left (fun m v => if Qcltb v m then v else m) t h) (h :: t).
Proof.
  revert h. induction t as [| x t IH]; intro h; simpl fold_left.
  - split; [left; reflexivity |].
    intros y [<- | []]. apply Qcle_refl.
  - destruct (IH (if Qcltb x h then x else h)) as [Hin Hlb].
    destruct (Qcltb x h) eqn:E.
    + apply Qcltb_lt in E. split.
      * right. exact Hin.
      * intros y [<- | Hy]; [| apply Hlb; exact Hy].
        apply Qcle_trans with x; [| apply Qclt_le_weak; exact E].
        apply Hlb. left. reflexivity.
    + apply Qcltb_ge in E. split.
      * destruct Hin as [<- | Hin]; [left; reflexivity | right; right; exact Hin].
      * intros y [<- | [<- | Hy]].
        -- apply Hlb. left. reflexivity.
        -- apply Qcle_trans with h; [apply Hlb; left; reflexivity | exact E].
        -- apply Hlb. right. exact Hy.
Qed.

Lemma np_max_spec (l : list Qc) : l <> [] -> is_max (np_max l) l.
Proof. destruct l as [| h t]; [congruence | intros _; apply fold_max_spec]. Qed.

Lemma np_min_spec (l : list Qc) : l <> [] -> is_min (np_min l) l.
Proof. destruct l as [| h t]; [congruence | intros _; apply fold_min_spec]. Qed.

Lemma np_min_le_max (l : list Qc) : l <> [] -> np_min l <= np_max l.
Proof.
  intro H. destruct (np_max_spec l H) as [_ Hub].
  destruct (np_min_spec l H) as [Hin _]. apply Hub. exact Hin.
Qed.

Lemma length_ge_2_nonempty {A : Type} (l : list A) : (2 <= length l)%nat -> l <> [].
Proof. destruct l; simpl; [lia | congruence]. Qed.

(** ** The violation scan *)

Lemma find_violations_loop (event_rates : list Qc) (idx : list nat)
    (acc : list violation) :
  fold_left
    (fun violations i =>
       if Qcltb (nth i event_rates 0) (nth (i + 1) event_rates 0)
       then
         let severity := nth (i + 1) event_rates 0 - nth i event_rates 0 in
         violations ++ [(i, (i + 1)%nat, nth i event_rates 0,
                         nth (i + 1) event_rates 0, severity)]
       else violations) idx acc
  = acc ++ map (violation_at event_rates) (filter (rises_at event_rates) idx).
Proof.
  revert acc. induction idx as [| i idx IH]; intro acc; simpl.
  - rewrite app_nil_r. reflexivity.
  - rewrite IH. unfold rises_at at 2.
    destruct (Qcltb (nth i event_rates 0) (nth (i + 1) event_rates 0)); simpl.
    + rewrite <- app_assoc. reflexivity.
    + reflexivity.
Qed.

Lemma find_violations_filter (event_rates : list Qc) :
  find_violations event_rates
  = map (violation_at event_rates)
        (filter (rises_at event_rates) (seq 0 (length event_rates - 1))).
Proof. unfold find_violations. rewrite find_violations_loop. reflexivity. Qed.

Lemma find_violations_positive (event_rates : list Qc) :
  Forall (fun v => 0 < v4 v) (find_violations event_rates).
Proof.
  rewrite find_violations_filter. apply Forall_forall. intros v Hv.
  apply in_map_iff in Hv. destruct Hv as [i [<- Hi]].
  apply filter_In in Hi. destruct Hi as [_ Hi].
  unfold rises_at in Hi. apply Qcltb_lt in Hi.
  unfold violation_at, v4. simpl. qc_lra.
Qed.


Lemma StronglySorted_lt_seq (start len : nat) : StronglySorted lt (seq start len).
Proof.
  revert start. induction len as [| len IH]; intro start; simpl; constructor.
  - apply IH.
  - apply Forall_forall. intros x Hx. apply in_seq in Hx. lia.
Qed.


(** ** Deciding equality of concrete values *)

Lemma list_eqb_eq {A : Type} (eqb : A -> A -> bool) :
  (forall a b, eqb a b = true -> a = b) ->
  forall l1 l2, list_eqb eqb l1 l2 = true -> l1 = l2.
Proof.
  intros Heq. induction l1 as [| a t1 IH]; intros [| b t2] H; simpl in H;
    try discriminate; [reflexivity |].
  apply andb_true_iff in H. destruct H as [Hab Ht].
  f_equal; [apply Heq; exact Hab | apply IH; exact Ht].
Qed.

(** ** The violation score *)

Lemma py_max0_spec (x : Qc) :
  0 <= py_max0 x /\ x <= py_max0 x /\ (py_max0 x = 0 \/ py_max0 x = x).
Proof.
  unfold py_max0. destruct (Qcltb 0 x) eqn:E.
  - apply Qcltb_lt in E. repeat split; [qc_lra | qc_lra | right; reflexivity].
  - apply Qcltb_ge in E. repeat split; [qc_lra | qc_lra | left; reflexivity].
Qed.

Lemma Qcdiv_nonneg (a b : Qc) : 0 <= a -> 0 < b -> 0 <= a / b.
Proof.
  intros Ha Hb. qc_to_Q. apply Qle_shift_div_l; [exact Hb | lra].
Qed.

Lemma range_positive (event_rates : list Qc) :
  event_rates <> [] ->
  np_max event_rates - np_min event_rates <> 0 ->
  0 < np_max event_rates - np_min event_rates.
Proof.
  intros Hne Hrange. pose proof (np_min_le_max _ Hne) as Hle. qc_lra.
Qed.

Lemma severities_nonneg (violations : list violation) :
  Forall (fun v => 0 < v4 v) violations ->
  Forall (fun x => 0 <= x) (map v4 violations).
Proof.
  intro H. apply Forall_map. eapply Forall_impl; [| exact H].
  intros v Hv. apply Qclt_le_weak. exact Hv.
Qed.

Lemma calculate_rankfit_v_bounds (event_rates : list Qc)
    (violations : list violation) :
  Forall (fun v => 0 < v4 v) violations ->
  0 <= calculate_rankfit_v event_rates violations
  /\ calculate_rankfit_v event_rates violations <= 1.
Proof.
  intro Hpos. unfold calculate_rankfit_v.
  destruct (length event_rates <? 2)%nat eqn:Elen; [split; qc_lra |].
  apply Nat.ltb_ge in Elen.
  destruct (Qceqb (np_max event_rates - np_min event_rates) 0) eqn:Er;
    [split; qc_lra |].
  apply Qceqb_neq in Er.
  pose proof (range_positive _ (length_ge_2_nonempty _ Elen) Er) as HR.
  pose proof (np_sum_nonneg _ (severities_nonneg _ Hpos)) as HS.
  pose proof (Qcdiv_nonneg _ _ HS HR) as Hq.
  set (q := np_sum (map v4 violations)
            / (np_max event_rates - np_min event_rates)) in *.
  destruct (py_max0_spec (1 - q)) as [H0 [_ [E | E]]].
  - split; [exact H0 | rewrite E; qc_lra].
  - split; [exact H0 | rewrite E; qc_lra].
Qed.

(** ** Kendall's tau on a constant sequence *)

Lemma filter_all {A : Type} (f : A -> bool) (l : list A) :
  (forall a, In a l -> f a = true) -> filter f l = l.
Proof.
  induction l as [| a l IH]; intro H; simpl; [reflexivity |].
  rewrite (H a (or_introl eq_refl)). f_equal. apply IH.
  intros b Hb. apply H. right. exact Hb.
Qed.

Lemma count_pairs_all {A : Type} (p : A -> A -> bool) (l : list A) :
  (forall a b, In a l -> In b l -> p a b = true) ->
  count_pairs p l
  = (Z.of_nat (length l) * (Z.of_nat (length l) - 1) / 2)%Z.
Proof.
  induction l as [| a l IH]; intro H; [reflexivity |].
  cbn [count_pairs]. rewrite filter_all
    by (intros b Hb; apply H; [left; reflexivity | right; exact Hb]).
  rewrite IH by (intros x y Hx Hy; apply H; right; assumption).
  cbn [length]. set (n := Z.of_nat (length l)).
  replace (Z.of_nat (S (length l)) * (Z.of_nat (S (length l)) - 1))%Z
    with (n * (n - 1) + n * 2)%Z by (subst n; lia).
  rewrite Z.div_add by lia. lia.
Qed.

Lemma kendalltau_constant (x : list Z) (y : list Qc) (c : Qc) :
  (forall r, In r y -> r = c) -> kendalltau x y = nan.
Proof.
  intro Hy. unfold kendalltau.
  destruct (Z.of_nat (length (combine x y)) =? 0)%Z; [reflexivity |].
  assert (E : count_pairs tied_y (combine x y)
              = (Z.of_nat (length (combine x y))
                 * (Z.of_nat (length (combine x y)) - 1) / 2)%Z).
  { apply count_pairs_all. intros [xa ya] [xb yb] Ha Hb.
    apply in_combine_r in Ha, Hb. unfold tied_y. simpl.
    rewrite (Hy _ Ha), (Hy _ Hb). apply Qceqb_refl. }
  rewrite E, Z.eqb_refl, orb_true_r. reflexivity.
Qed.

Lemma calculate_rankfit_t_constant (event_rates : list Qc) (c : Qc) :
  (2 <= length event_rates)%nat ->
  (forall r, In r event_rates -> r = c) ->
  calculate_rankfit_t event_rates = nan.
Proof.
  intros Hlen Hc. unfold calculate_rankfit_t.
  destruct (length event_rates <? 2)%nat eqn:E;
    [apply Nat.ltb_lt in E; lia |].
  rewrite (kendalltau_constant _ _ c Hc). reflexivity.
Qed.

Lemma calculate_rankfit_v_constant (event_rates : list Qc) (c : Qc)
    (violations : list violation) :
  (forall r, In r event_rates -> r = c) ->
  calculate_rankfit_v event_rates violations = 1.
Proof.
  intro Hc. unfold calculate_rankfit_v.
  destruct (length event_rates <? 2)%nat eqn:E; [reflexivity |].
  apply Nat.ltb_ge in E. pose proof (length_ge_2_nonempty _ E) as Hne.
  destruct (np_max_spec _ Hne) as [Hmax _].
  destruct (np_min_spec _ Hne) as [Hmin _].
  rewrite (Hc _ Hmax), (Hc _ Hmin).
  assert (Ez : c - c = 0) by ring. rewrite Ez, Qceqb_refl. reflexivity.
Qed.

Lemma nan_not_half : nan <> 0.5%float.
Proof.
  intro H. apply (f_equal PrimFloat.is_nan) in H. vm_compute in H.
  discriminate.
Qed.

(** C1.  On a constant event-rate sequence of at least two segments
    [calculate_rankfit_t] returns NaN, not 0.5: [kendalltau] yields NaN
    there, a float, so [tau is not None] holds and [(tau + 1) / 2] is
    returned.  [calculate_rankfit_v] returns 1.  The analysis of scores
    [1, 2] with outcomes [0, 0] in two bins has the event rates [0, 0],
    [rankfit_v = 1] and [rankfit_t = NaN]. *)
Theorem constant_rates_rankfit_t_nan :
  (forall (event_rates : list Qc) (c : Qc),
      (2 <= length event_rates)%nat ->
      (forall r, In r event_rates -> r = c) ->
      calculate_rankfit_t event_rates = nan
      /\ calculate_rankfit_t event_rates <> 0.5%float
      /\ calculate_rankfit_v event_rates (find_violations event_rates) = 1)
  /\ exists r,
       calculate_metrics 2 (qs [1; 2]%Q) (qs [0; 0]%Q) = Return r
       /\ map actual_mean (bin_stats r) = [0; 0]
       /\ rankfit_v r = 1
       /\ rankfit_t r = nan.
Proof.
  split.
  - intros event_rates c Hlen Hc.
    rewrite (calculate_rankfit_t_constant _ c Hlen Hc).
    split; [reflexivity | split; [apply nan_not_half |]].
    apply (calculate_rankfit_v_constant _ c). exact Hc.
  - eexists. split; [vm_compute; reflexivity |].
    split; [| split].
    + apply (list_eqb_eq _ (fun a b => proj1 (Qceqb_eq a b))).
      vm_compute. reflexivity.
    + apply Qc_is_canon. vm_compute. reflexivity.
    + vm_compute. reflexivity.
Qed.

Lemma constant_rates_rankfit_t_nan_witness :
  let event_rates := qs [0.4; 0.4; 0.4]%Q in
  ((2 <= length event_rates)%nat
   /\ forall r, In r event_rates -> r = Q2Qc 0.4)
  /\ calculate_rankfit_t event_rates = nan
  /\ calculate_rankfit_t event_rates <> 0.5%float
  /\ calculate_rankfit_v event_rates (find_violations event_rates) = 1.
Proof.
  intro event_rates.
  assert (Hlen : (2 <= length event_rates)%nat) by (simpl; lia).
  assert (Hc : forall r, In r event_rates -> r = Q2Qc 0.4).
  { intros r [<- | [<- | [<- | []]]]; reflexivity. }
  split; [exact (conj Hlen Hc) |].
  exact (proj1 constant_rates_rankfit_t_nan event_rates (Q2Qc 0.4) Hlen Hc).
Defined.

(** ** The sorted sample *)

Lemma sort_StronglySorted (x : list Qc) : StronglySorted Qcle (QcSort.sort x).
Proof.
  assert (T : Transitive (fun a b : Qc => is_true (QcOrder.leb a b))).
  { intros a b c Hab Hbc. unfold is_true, QcOrder.leb in *.
    rewrite Qcleb_le in *. eapply Qcle_trans; eassumption. }
  pose proof (QcSort.StronglySorted_sort x T) as H.
  induction H as [| a l _ IH Ha]; constructor; [exact IH |].
  eapply Forall_impl; [| exact Ha].
  intros b Hb. apply Qcleb_le. exact Hb.
Qed.

Lemma sort_In (x : list Qc) (v : Qc) : In v (QcSort.sort x) <-> In v x.
Proof.
  split; apply Permutation_in;
    [apply Permutation_sym |]; apply QcSort.Permuted_sort.
Qed.

Lemma sort_length (x : list Qc) : length (QcSort.sort x) = length x.
Proof. symmetry. apply Permutation_length, QcSort.Permuted_sort. Qed.

Lemma StronglySorted_nth (l : list Qc) (i j : nat) :
  StronglySorted Qcle l -> (i <= j < length l)%nat ->
  nth i l 0 <= nth j l 0.
Proof.
  intro H. revert i j. induction H as [| a l _ IH Ha]; intros i j Hij.
  - simpl in Hij. lia.
  - destruct i as [| i], j as [| j]; simpl in *; try lia.
    + apply Qcle_refl.
    + rewrite Forall_forall in Ha. apply Ha. apply nth_In. lia.
    + apply IH. lia.
Qed.

Lemma sort_first_le (x : list Qc) (v : Qc) :
  In v x -> nth 0 (QcSort.sort x) 0 <= v.
Proof.
  intro Hv. apply sort_In in Hv.
  destruct (In_nth _ _ 0 Hv) as [i [Hi <-]].
  apply StronglySorted_nth; [apply sort_StronglySorted | lia].
Qed.

Lemma sort_last_ge (x : list Qc) (v : Qc) :
  In v x -> v <= nth (length x - 1) (QcSort.sort x) 0.
Proof.
  intro Hv. apply sort_In in Hv.
  destruct (In_nth _ _ 0 Hv) as [i [Hi <-]].
  apply StronglySorted_nth; [apply sort_StronglySorted |].
  rewrite sort_length in *. lia.
Qed.

Lemma sort_first_In (x : list Qc) : x <> [] -> In (nth 0 (QcSort.sort x) 0) x.
Proof.
  intro H. apply sort_In. apply nth_In. rewrite sort_length.
  destruct x; [congruence | simpl; lia].
Qed.

(** ** Quantile edges *)

Lemma Qcfloor_Z2Qc (z : Z) : Qcfloor (Z2Qc z) = z.
Proof.
  unfold Qcfloor, Z2Qc. rewrite (Qfloor_comp _ _ (this_Q2Qc (inject_Z z))).
  apply Qfloor_Z.
Qed.

Lemma Z2Qc_0 : Z2Qc 0 = 0.
Proof. apply Qc_is_canon. reflexivity. Qed.

Lemma get_score_0 (values : list Qc) : get_score values 0 = nth 0 values 0.
Proof.
  unfold get_score.
  assert (E : 0 * Z2Qc (Z.of_nat (length values) - 1) = Z2Qc 0)
    by (rewrite Z2Qc_0; ring).
  rewrite E, Qcfloor_Z2Qc.
  assert (F : Z2Qc 0 - Z2Qc 0 = 0) by ring.
  rewrite F, Qceqb_refl. reflexivity.
Qed.

Lemma get_score_1 (values : list Qc) :
  values <> [] -> get_score values 1 = nth (length values - 1) values 0.
Proof.
  intro Hne. unfold get_score.
  assert (E : 1 * Z2Qc (Z.of_nat (length values) - 1)
              = Z2Qc (Z.of_nat (length values) - 1)) by ring.
  rewrite E, Qcfloor_Z2Qc.
  assert (F : Z2Qc (Z.of_nat (length values) - 1)
              - Z2Qc (Z.of_nat (length values) - 1) = 0) by ring.
  rewrite F, Qceqb_refl. f_equal.
  destruct values; [congruence | simpl length; lia].
Qed.

Lemma range_succ (n : Z) :
  (0 <= n)%Z -> range (n + 1) = 0%Z :: map Z.succ (range n).
Proof.
  intro H. unfold range.
  replace (Z.to_nat (n + 1)) with (S (Z.to_nat n)) by lia.
  cbn [seq map]. f_equal. rewrite <- seq_shift, !map_map.
  apply map_ext. intro a. lia.
Qed.

(** For [q >= 0] the quantile fractions start at 0. *)
Lemma linspace_01_head (q : Z) :
  (0 <= q)%Z -> exists rest, linspace 0 1 (q + 1) = Return (0 :: rest).
Proof.
  intro H. unfold linspace.
  destruct (q + 1 <? 0)%Z eqn:E; [apply Z.ltb_lt in E; lia |].
  rewrite (range_succ q H).
  destruct (q + 1 - 1 <=? 0)%Z.
  - eexists. cbn [map]. reflexivity.
  - cbn [map].
    assert (F : Z2Qc 0 * ((1 - 0) / Z2Qc (q + 1 - 1)) + 0 = 0)
      by (rewrite Z2Qc_0; ring).
    rewrite F. eexists. reflexivity.
Qed.

Lemma linspace_01_two : linspace 0 1 2 = Return [0; 1].
Proof.
  unfold linspace.
  change (range 2) with [0%Z; 1%Z].
  change (2 <? 0)%Z with false. change (2 - 1 <=? 0)%Z with false.
  cbn [map]. reflexivity.
Qed.

Lemma linspace_negative (start stop : Qc) (num : Z) :
  linspace start stop num = Raise ValueError -> (num < 0)%Z.
Proof.
  unfold linspace. destruct (num <? 0)%Z eqn:E; [intros _; apply Z.ltb_lt; exact E |].
  destruct (num - 1 <=? 0)%Z; discriminate.
Qed.

(** ** Bin numbers *)

Lemma combine_map_self {A B C : Type} (f : A -> B) (g : A * B -> C)
    (l : list A) :
  map g (combine l (map f l)) = map (fun a => g (a, f a)) l.
Proof. induction l as [| a l IH]; simpl; [reflexivity | rewrite IH; reflexivity]. Qed.

Lemma unique_hd (bins : list Qc) : hd 0 (unique bins) = hd 0 bins.
Proof. destruct bins; reflexivity. Qed.

Lemma kept_edges_hd (bins : list Qc) : hd 0 (kept_edges bins) = hd 0 bins.
Proof.
  unfold kept_edges.
  destruct ((length (unique bins) <? length bins)%nat
            && negb (length bins =? 2)%nat);
    [apply unique_hd | reflexivity].
Qed.

Lemma kept_edges_nonempty (bins : list Qc) : bins <> [] -> kept_edges bins <> [].
Proof.
  unfold kept_edges. intro H.
  destruct ((length (unique bins) <? length bins)%nat
            && negb (length bins =? 2)%nat); [| exact H].
  destruct bins; [congruence | simpl; discriminate].
Qed.

Lemma bins_to_cuts_drop (x bins : list Qc) :
  bins <> [] ->
  bins_to_cuts x bins true dup_drop
  = Return (map (bin_label (kept_edges bins)) x).
Proof.
  intro Hne. pose proof (kept_edges_nonempty _ Hne) as Hk.
  unfold bins_to_cuts. fold (kept_edges bins).
  assert (E : (if (length (unique bins) <? length bins)%nat
                  && negb (length bins =? 2)%nat
               then Return (unique bins) else Return bins)
              = Return (kept_edges bins)).
  { unfold kept_edges.
    destruct ((length (unique bins) <? length bins)%nat
              && negb (length bins =? 2)%nat); reflexivity. }
  rewrite E. cbn [bind].
  destruct (kept_edges bins) as [| b0 rest] eqn:Ek; [congruence |].
  cbn [bind]. rewrite combine_map_self, map_map. reflexivity.
Qed.

Lemma qcut_spec (x : list Qc) (q : Z) :
  x <> [] -> (0 <= q)%Z ->
  qcut x q = Return (map (bin_label (quantile_edges x q)) x).
Proof.
  intros Hx Hq. unfold qcut, quantile_edges.
  destruct (linspace_01_head q Hq) as [rest ->]. cbn [bind].
  destruct x as [| v x']; [congruence |].
  apply bins_to_cuts_drop. unfold quantile. simpl. discriminate.
Qed.

Lemma quantile_edges_hd (x : list Qc) (q : Z) :
  (0 <= q)%Z -> hd 0 (quantile_edges x q) = nth 0 (QcSort.sort x) 0.
Proof.
  intro Hq. unfold quantile_edges.
  destruct (linspace_01_head q Hq) as [rest ->].
  rewrite kept_edges_hd. unfold quantile. cbn [map hd].
  apply get_score_0.
Qed.

Lemma quantile_edges_nonempty (x : list Qc) (q : Z) :
  (0 <= q)%Z -> quantile_edges x q <> [].
Proof.
  intro Hq. unfold quantile_edges.
  destruct (linspace_01_head q Hq) as [rest ->].
  apply kept_edges_nonempty. unfold quantile. simpl. discriminate.
Qed.

(** With [duplicates='drop'] nothing in [_bins_to_cuts] raises
    [ValueError]; [qcut] raises it only through [np.linspace]. *)
Lemma bins_to_cuts_drop_no_ValueError (x bins : list Qc) (b : bool) :
  bins_to_cuts x bins b dup_drop <> Raise ValueError.
Proof.
  unfold bins_to_cuts.
  destruct ((length (unique bins) <? length bins)%nat
            && negb (length bins =? 2)%nat); cbn [bind].
  - destruct b; [destruct (unique bins) |]; cbn [bind]; discriminate.
  - destruct b; [destruct bins |]; cbn [bind]; discriminate.
Qed.

Lemma qcut_ValueError (x : list Qc) (q : Z) :
  qcut x q = Raise ValueError -> (q + 1 < 0)%Z.
Proof.
  unfold qcut. destruct (linspace 0 1 (q + 1)) as [quantiles | e] eqn:E.
  - cbn [bind]. destruct x as [| v x'].
    + destruct quantiles; discriminate.
    + intro H. exfalso. exact (bins_to_cuts_drop_no_ValueError _ _ _ H).
  - cbn [bind]. intro H. injection H as ->.
    apply linspace_negative in E. exact E.
Qed.

Lemma qcut_negative (x : list Qc) (q : Z) :
  (q < 0)%Z -> exists e, qcut x q = Raise e.
Proof.
  intro Hq. unfold qcut, linspace.
  destruct (q + 1 <? 0)%Z eqn:E; [exists ValueError; reflexivity |].
  apply Z.ltb_ge in E. assert (q = (-1)%Z) by lia. subst q.
  cbn. destruct x; exists IndexError; reflexivity.
Qed.

(** The equal-width branch is reached only with a bin count that [cut]
    refuses: whenever the [try] raises [ValueError], so does the handler. *)
Lemma try_qcut_except_cut (x : list Qc) (n_bins : Z) :
  try_except_ValueError (qcut x n_bins) (cut x n_bins) = qcut x n_bins.
Proof.
  destruct (qcut x n_bins) as [l | [|]] eqn:E; try reflexivity.
  apply qcut_ValueError in E. unfold try_except_ValueError, cut.
  destruct (n_bins <? 1)%Z eqn:F; [reflexivity |].
  apply Z.ltb_ge in F. lia.
Qed.

Lemma filter_length_mono {A : Type} (f g : A -> bool) (l : list A) :
  (forall a, f a = true -> g a = true) ->
  (length (filter f l) <= length (filter g l))%nat.
Proof.
  intro H. induction l as [| a l IH]; simpl; [lia |].
  destruct (f a) eqn:Ef.
  - rewrite (H a Ef). simpl. lia.
  - destruct (g a); simpl; lia.
Qed.

Lemma searchsorted_left_mono (bins : list Qc) (v w : Qc) :
  v <= w -> (searchsorted_left bins v <= searchsorted_left bins w)%nat.
Proof.
  intro H. apply filter_length_mono. intros b Hb.
  apply Qcltb_lt in Hb. apply Qcltb_lt. eapply Qclt_le_trans; eassumption.
Qed.

Lemma searchsorted_left_pos (bins : list Qc) (b w : Qc) :
  In b bins -> b < w -> (1 <= searchsorted_left bins w)%nat.
Proof.
  intros Hb Hlt. unfold searchsorted_left.
  assert (Hin : In b (filter (fun b => Qcltb b w) bins))
    by (apply filter_In; split; [exact Hb | apply Qcltb_lt; exact Hlt]).
  destruct (filter (fun b => Qcltb b w) bins); [destruct Hin | simpl; lia].
Qed.

(** Bin numbers grow with the value, for values at or above the lowest
    edge. *)
Lemma bin_label_mono (bins : list Qc) (v w : Qc) (a b : nat) :
  bins <> [] -> hd 0 bins <= v -> v <= w ->
  bin_label bins v = Some a -> bin_label bins w = Some b -> (a <= b)%nat.
Proof.
  intros Hne Hlow Hvw. unfold bin_label.
  assert (Hin : In (hd 0 bins) bins)
    by (destruct bins; [congruence | left; reflexivity]).
  set (b0 := hd 0 bins) in *.
  destruct (Qceqb v b0) eqn:Ev, (Qceqb w b0) eqn:Ew.
  - destruct ((1 =? length bins)%nat || (1 =? 0)%nat); [discriminate |].
    intros [= <-] [= <-]. lia.
  - apply Qceqb_eq in Ev. apply Qceqb_neq in Ew.
    assert (Hlt : b0 < w) by (subst v; qc_lra).
    pose proof (searchsorted_left_pos bins b0 w Hin Hlt) as Hpos.
    destruct ((1 =? length bins)%nat || (1 =? 0)%nat); [discriminate |].
    destruct ((searchsorted_left bins w =? length bins)%nat
              || (searchsorted_left bins w =? 0)%nat); [discriminate |].
    intros [= <-] [= <-]. lia.
  - apply Qceqb_neq in Ev. apply Qceqb_eq in Ew. exfalso. apply Ev. subst w.
    apply Qcle_antisym; assumption.
  - pose proof (searchsorted_left_mono bins v w Hvw) as Hm.
    destruct ((searchsorted_left bins v =? length bins)%nat
              || (searchsorted_left bins v =? 0)%nat); [discriminate |].
    destruct ((searchsorted_left bins w =? length bins)%nat
              || (searchsorted_left bins w =? 0)%nat); [discriminate |].
    intros [= <-] [= <-]. lia.
Qed.

(** ** The column maximum and the reversal *)

Lemma fold_max_step_bound (col : list (option nat)) (m : option nat) (b : nat) :
  In (Some b) col \/ (exists m', m = Some m' /\ (b <= m')%nat) ->
  exists t, fold_left max_step col m = Some t /\ (b <= t)%nat.
Proof.
  revert m. induction col as [| c col IH]; intros m H; simpl.
  - destruct H as [[] | [m' [-> Hm]]]. exists m'. split; [reflexivity | exact Hm].
  - apply IH. destruct H as [[-> | Hin] | [m' [-> Hm]]].
    + right. destruct m as [m' |]; simpl; eexists; (split; [reflexivity | lia]).
    + left. exact Hin.
    + right. destruct c as [c' |]; simpl; eexists; (split; [reflexivity | lia]).
Qed.

Lemma series_max_bound (col : list (option nat)) (b : nat) :
  In (Some b) col -> exists t, series_max col = Some t /\ (b <= t)%nat.
Proof. intro H. apply fold_max_step_bound. left. exact H. Qed.

(** ** Group keys *)

Lemma insert_key_In (k x : nat) (keys : list nat) :
  In x (insert_key k keys) <-> x = k \/ In x keys.
Proof.
  induction keys as [| h t IH]; simpl.
  - split; [intros [<- | []]; left; reflexivity | intros [-> | []]; left; reflexivity].
  - destruct (k <? h)%nat eqn:E1; [simpl; intuition congruence |].
    destruct (k =? h)%nat eqn:E2.
    + apply Nat.eqb_eq in E2. subst h. simpl. intuition congruence.
    + simpl. rewrite IH. intuition congruence.
Qed.

Lemma insert_key_sorted (k : nat) (keys : list nat) :
  StronglySorted lt keys -> StronglySorted lt (insert_key k keys).
Proof.
  induction 1 as [| h t Hs IH Hh]; simpl.
  - constructor; constructor.
  - destruct (k <? h)%nat eqn:E1.
    + apply Nat.ltb_lt in E1. constructor; [constructor; assumption |].
      constructor; [exact E1 |].
      eapply Forall_impl; [| exact Hh]. intros a Ha. simpl in Ha. lia.
    + destruct (k =? h)%nat eqn:E2; [constructor; assumption |].
      apply Nat.ltb_ge in E1. apply Nat.eqb_neq in E2.
      constructor; [exact IH |].
      apply Forall_forall. intros a Ha. apply insert_key_In in Ha.
      destruct Ha as [-> | Ha]; [lia |].
      rewrite Forall_forall in Hh. apply Hh. exact Ha.
Qed.

Lemma group_keys_In (df : list row) (k : nat) :
  In k (group_keys df) <-> exists r, In r df /\ bin r = Some k.
Proof.
  induction df as [| r df IH]; simpl.
  - split; [intros [] | intros [r [[] _]]].
  - destruct (bin r) as [b |] eqn:Eb.
    + rewrite insert_key_In, IH. split.
      * intros [-> | [r' [Hr' Hb']]];
          [exists r; auto | exists r'; auto].
      * intros [r' [[<- | Hr'] Hb']];
          [left; congruence | right; exists r'; auto].
    + rewrite IH. split.
      * intros [r' [Hr' Hb']]. exists r'. auto.
      * intros [r' [[<- | Hr'] Hb']]; [congruence | exists r'; auto].
Qed.

Lemma group_keys_sorted (df : list row) : StronglySorted lt (group_keys df).
Proof.
  induction df as [| r df IH]; simpl; [constructor |].
  destruct (bin r); [apply insert_key_sorted |]; exact IH.
Qed.

Lemma StronglySorted_lt_nth (l : list nat) (i j : nat) :
  StronglySorted lt l -> (i < j < length l)%nat ->
  (nth i l 0 < nth j l 0)%nat.
Proof.
  intro H. revert i j. induction H as [| a l _ IH Ha]; intros i j Hij.
  - simpl in Hij. lia.
  - destruct i as [| i], j as [| j]; simpl in *; try lia.
    + rewrite Forall_forall in Ha. apply Ha. apply nth_In. lia.
    + apply IH. lia.
Qed.

Lemma groupby_agg_length (df : list row) :
  length (groupby_agg df) = length (group_keys df).
Proof. unfold groupby_agg. apply length_map. Qed.

Lemma group_In (df : list row) (k : nat) (r : row) :
  In r (group df k) <-> In r df /\ bin r = Some k.
Proof.
  unfold group. rewrite filter_In. unfold in_bin.
  destruct (bin r) as [b |].
  - rewrite Nat.eqb_eq. intuition congruence.
  - intuition congruence.
Qed.

(** ** The binned frame *)

Lemma map_fst_combine_eq {A B : Type} (l : list A) (l' : list B) :
  length l = length l' -> map fst (combine l l') = l.
Proof.
  revert l'. induction l as [| a l IH]; intros [| b l'] H; simpl in *;
    try discriminate; [reflexivity |].
  f_equal. apply IH. lia.
Qed.

Lemma frame_rows (edges : list Qc) (top : option nat) (s a : list Qc) :
  map (fun rb => mk_row (fst (fst rb)) (snd (fst rb)) (snd rb))
      (combine (combine s a)
               (map (reverse_bin top) (map (bin_label edges) s)))
  = map (binned_row edges top) (combine s a).
Proof.
  revert a. induction s as [| v s IH]; intros [| w a]; simpl;
    try reflexivity.
  f_equal. apply IH.
Qed.

Lemma binned_frame_inv (n_bins : Z) (y_scores y_true : list Qc)
    (df : list row) :
  binned_frame n_bins y_scores y_true = Return df ->
  length y_scores = length y_true
  /\ (y_scores <> [] -> (0 <= n_bins)%Z)
  /\ df = map (binned_row (quantile_edges y_scores n_bins)
                 (series_max (map (bin_label (quantile_edges y_scores n_bins))
                                  y_scores)))
              (combine y_scores y_true).
Proof.
  unfold binned_frame, DataFrame.
  destruct (length y_scores =? length y_true)%nat eqn:El; [| discriminate].
  apply Nat.eqb_eq in El. cbn [bind].
  rewrite try_qcut_except_cut, (map_fst_combine_eq _ _ El).
  assert (Hx : y_scores = [] \/ y_scores <> [])
    by (destruct y_scores; [left; reflexivity | right; discriminate]).
  destruct Hx as [-> | Hx].
  - destruct y_true; [| discriminate]. intros H.
    split; [reflexivity | split; [congruence |]].
    destruct (qcut [] n_bins) as [labels | e]; cbn [bind] in H;
      [| discriminate].
    cbn in H. injection H as <-. reflexivity.
  - destruct (Z_lt_le_dec n_bins 0) as [Hn | Hn].
    + destruct (qcut_negative y_scores n_bins Hn) as [e ->]. discriminate.
    + rewrite (qcut_spec y_scores n_bins Hx Hn).
      cbn [bind]. rewrite frame_rows. intros [= <-].
      split; [exact El | split; [intros _; exact Hn | reflexivity]].
Qed.

Lemma binned_frame_row (n_bins : Z) (y_scores y_true : list Qc)
    (df : list row) (r : row) :
  binned_frame n_bins y_scores y_true = Return df -> In r df ->
  In (score r) y_scores
  /\ bin r = reverse_bin
               (series_max (map (bin_label (quantile_edges y_scores n_bins))
                                y_scores))
               (bin_label (quantile_edges y_scores n_bins) (score r)).
Proof.
  intros H Hr. destruct (binned_frame_inv _ _ _ _ H) as [_ [_ ->]].
  apply in_map_iff in Hr. destruct Hr as [[s a] [<- Hsa]].
  split; [apply in_combine_l in Hsa; exact Hsa | reflexivity].
Qed.

Lemma segment_pick (df : list row) (i : nat) (v : Qc) :
  In v (segment_scores df i) ->
  exists r, In r df /\ bin r = Some (nth i (group_keys df) 0%nat)
            /\ score r = v.
Proof.
  unfold segment_scores. intro H. apply in_map_iff in H.
  destruct H as [r [Hs Hr]]. apply group_In in Hr. exists r. tauto.
Qed.

Lemma segment_nonempty (df : list row) (i : nat) :
  (i < length (group_keys df))%nat -> segment_scores df i <> [].
Proof.
  intro Hi. pose proof (nth_In (group_keys df) 0%nat Hi) as Hk.
  apply group_keys_In in Hk. destruct Hk as [r [Hr Hb]].
  assert (Hin : In (score r) (segment_scores df i))
    by (apply in_map, group_In; split; assumption).
  intro E. rewrite E in Hin. destruct Hin.
Qed.

Lemma reverse_bin_Some (top b : option nat) (k : nat) :
  reverse_bin top b = Some k ->
  exists t l, top = Some t /\ b = Some l /\ k = (t - l)%nat.
Proof.
  destruct top as [t |], b as [l |]; simpl; try discriminate.
  intros [= <-]. exists t, l. auto.
Qed.

(** A row in a lower-numbered segment has a strictly higher score. *)
Lemma segment_rows_ordered (n_bins : Z) (y_scores y_true : list Qc)
    (df : list row) (ra rb : row) (ka kb : nat) :
  binned_frame n_bins y_scores y_true = Return df ->
  In ra df -> In rb df -> bin ra = Some ka -> bin rb = Some kb ->
  (ka < kb)%nat -> score rb < score ra.
Proof.
  intros H Ha Hb Ea Eb Hk.
  destruct (binned_frame_row _ _ _ _ _ H Ha) as [Sa Ba].
  destruct (binned_frame_row _ _ _ _ _ H Hb) as [Sb Bb].
  destruct (binned_frame_inv _ _ _ _ H) as [_ [Hn _]].
  assert (Hq : (0 <= n_bins)%Z)
    by (apply Hn; intro E; rewrite E in Sa; destruct Sa).
  set (edges := quantile_edges y_scores n_bins) in *.
  set (labels := map (bin_label edges) y_scores) in *.
  rewrite Ea in Ba. rewrite Eb in Bb. symmetry in Ba, Bb.
  apply reverse_bin_Some in Ba, Bb.
  destruct Ba as [t [la [Et [Ela ->]]]]. destruct Bb as [t' [lb [Et' [Elb ->]]]].
  assert (t' = t) by congruence. subst t'.
  assert (Hla : (la <= t)%nat).
  { destruct (series_max_bound labels la) as [u [Eu Hu]].
    - rewrite <- Ela. apply in_map. exact Sa.
    - congruence. }
  assert (Hlb : (lb <= t)%nat).
  { destruct (series_max_bound labels lb) as [u [Eu Hu]].
    - rewrite <- Elb. apply in_map. exact Sb.
    - congruence. }
  destruct (Qclt_le_dec (score rb) (score ra)) as [Hlt | Hle]; [exact Hlt |].
  exfalso.
  assert (Hm : (la <= lb)%nat).
  { apply (bin_label_mono edges (score ra) (score rb)); try assumption.
    - apply quantile_edges_nonempty. exact Hq.
    - subst edges. rewrite quantile_edges_hd by exact Hq.
      apply sort_first_le. exact Sa. }
  lia.
Qed.

(** C7, amended.  When the segmentation has at least two segments, the
    lowest score of segment 0 is at least the highest score of the last
    segment. *)
Theorem reorientation_invariant (n_bins : Z) (y_scores y_true : list Qc)
    (df : list row) :
  binned_frame n_bins y_scores y_true = Return df ->
  (2 <= length (groupby_agg df))%nat ->
  np_max (segment_scores df (length (groupby_agg df) - 1))
  <= np_min (segment_scores df 0).
Proof.
  intros H Hk. rewrite groupby_agg_length in *.
  set (k := length (group_keys df)) in *.
  assert (Hlast : (k - 1 < k)%nat) by lia.
  assert (Hfirst : (0 < k)%nat) by lia.
  destruct (np_max_spec _ (segment_nonempty df (k - 1) Hlast)) as [Hmax _].
  destruct (np_min_spec _ (segment_nonempty df 0 Hfirst)) as [Hmin _].
  apply segment_pick in Hmax, Hmin.
  destruct Hmax as [rb [Hb [Eb <-]]]. destruct Hmin as [ra [Ha [Ea <-]]].
  apply Qclt_le_weak.
  apply (segment_rows_ordered _ _ _ _ ra rb _ _ H Ha Hb Ea Eb).
  apply StronglySorted_lt_nth; [apply group_keys_sorted | fold k; lia].
Qed.

Lemma reorientation_invariant_witness :
  exists df,
    binned_frame 2 (qs [1; 2; 3; 4]%Q) (qs [0; 1; 1; 0]%Q) = Return df
    /\ (2 <= length (groupby_agg df))%nat
    /\ np_max (segment_scores df (length (groupby_agg df) - 1))
       <= np_min (segment_scores df 0).
Proof.
  eexists.
  match goal with
  | |- ?c = Return ?d /\ _ =>
      assert (H : c = Return d) by (vm_compute; reflexivity)
  end.
  match type of H with
  | _ = Return ?d =>
      assert (Hk : (2 <= length (groupby_agg d))%nat)
        by (apply Nat.leb_le; vm_compute; reflexivity)
  end.
  split; [exact H | split; [exact Hk |]].
  exact (reorientation_invariant _ _ _ _ H Hk).
Defined.

(** C7 as stated fails on a single segment: with one bin the scores 1 and 2
    share segment 0, which is also the last segment, and its lowest score
    is below its highest. *)
Lemma reorientation_single_segment :
  exists df,
    binned_frame 1 (qs [1; 2]%Q) (qs [0; 1]%Q) = Return df
    /\ length (groupby_agg df) = 1%nat
    /\ np_min (segment_scores df 0)
       < np_max (segment_scores df (length (groupby_agg df) - 1)).
Proof.
  eexists. split; [vm_compute; reflexivity |].
  split; vm_compute; reflexivity.
Qed.

(** ** A single bin *)

Lemma binned_frame_spec (n_bins : Z) (y_scores y_true : list Qc) :
  length y_scores = length y_true -> y_scores <> [] -> (0 <= n_bins)%Z ->
  binned_frame n_bins y_scores y_true
  = Return (map (binned_row (quantile_edges y_scores n_bins)
                   (series_max
                      (map (bin_label (quantile_edges y_scores n_bins))
                           y_scores)))
                (combine y_scores y_true)).
Proof.
  intros El Hx Hn. unfold binned_frame, DataFrame.
  apply Nat.eqb_eq in El. rewrite El. apply Nat.eqb_eq in El. cbn [bind].
  rewrite try_qcut_except_cut, (map_fst_combine_eq _ _ El).
  rewrite (qcut_spec y_scores n_bins Hx Hn). cbn [bind].
  rewrite frame_rows. reflexivity.
Qed.

Lemma fold_max_step_In (col : list (option nat)) (m : option nat) (t : nat) :
  fold_left max_step col m = Some t -> In (Some t) col \/ m = Some t.
Proof.
  revert m. induction col as [| c col IH]; intros m H; simpl in *.
  - right. exact H.
  - destruct (IH _ H) as [Hin | E]; [left; right; exact Hin |].
    destruct m as [m' |], c as [c' |]; simpl in E.
    + injection E as <-. destruct (Nat.max_dec m' c') as [-> | ->];
        [right; reflexivity | left; left; reflexivity].
    + right. exact E.
    + left. left. exact E.
    + discriminate.
Qed.

Lemma series_max_In (col : list (option nat)) (t : nat) :
  series_max col = Some t -> In (Some t) col.
Proof.
  intro H. destruct (fold_max_step_In col None t H) as [Hin | E];
    [exact Hin | discriminate].
Qed.

Lemma quantile_edges_one (x : list Qc) :
  x <> [] ->
  quantile_edges x 1
  = [nth 0 (QcSort.sort x) 0; nth (length x - 1) (QcSort.sort x) 0].
Proof.
  intro Hx. unfold quantile_edges.
  change (1 + 1)%Z with 2%Z. rewrite linspace_01_two.
  unfold quantile. cbn [map]. rewrite get_score_0, get_score_1, sort_length.
  - unfold kept_edges. cbn [length Nat.eqb negb].
    rewrite andb_false_r. reflexivity.
  - intro E. apply Hx. apply Permutation_nil.
    rewrite <- E. apply Permutation_sym, QcSort.Permuted_sort.
Qed.

Lemma bin_label_two_edges (mn mx v : Qc) :
  mn <= v -> v <= mx -> bin_label [mn; mx] v = Some 0%nat.
Proof.
  intros Hlo Hhi. unfold bin_label, searchsorted_left. cbn [hd length filter].
  destruct (Qceqb v mn) eqn:E; [reflexivity |].
  apply Qceqb_neq in E.
  assert (H1 : Qcltb mn v = true) by (apply Qcltb_lt; qc_lra).
  assert (H2 : Qcltb mx v = false) by (apply Qcltb_ge; exact Hhi).
  rewrite H1, H2. reflexivity.
Qed.

Lemma group_keys_all_zero (df : list row) :
  df <> [] -> (forall r, In r df -> bin r = Some 0%nat) ->
  group_keys df = [0%nat].
Proof.
  induction df as [| r df IH]; intros Hne H; [congruence |].
  simpl. rewrite (H r (or_introl eq_refl)).
  destruct df as [| r' df'].
  - reflexivity.
  - rewrite IH; [reflexivity | discriminate |].
    intros r0 Hr0. apply H. right. exact Hr0.
Qed.

Lemma single_bin_keys (y_scores y_true : list Qc) :
  length y_scores = length y_true -> y_scores <> [] ->
  exists df, binned_frame 1 y_scores y_true = Return df
             /\ group_keys df = [0%nat].
Proof.
  intros El Hx. eexists. split;
    [apply binned_frame_spec; [exact El | exact Hx | lia] |].
  rewrite (quantile_edges_one _ Hx).
  set (mn := nth 0 (QcSort.sort y_scores) 0).
  set (mx := nth (length y_scores - 1) (QcSort.sort y_scores) 0).
  assert (Hl : forall v, In v y_scores -> bin_label [mn; mx] v = Some 0%nat).
  { intros v Hv. apply bin_label_two_edges;
      [apply sort_first_le | apply sort_last_ge]; exact Hv. }
  assert (Ht : series_max (map (bin_label [mn; mx]) y_scores) = Some 0%nat).
  { destruct y_scores as [| v0 x'] eqn:Ex; [congruence |]. rewrite <- Ex in *.
    assert (Hv0 : In v0 y_scores) by (rewrite Ex; left; reflexivity).
    destruct (series_max_bound (map (bin_label [mn; mx]) y_scores) 0)
      as [t [Et _]].
    - rewrite <- (Hl v0 Hv0). apply in_map. exact Hv0.
    - rewrite Et. apply series_max_In in Et. apply in_map_iff in Et.
      destruct Et as [v [Ev Hv]]. rewrite (Hl v Hv) in Ev.
      symmetry. exact Ev. }
  rewrite Ht. apply group_keys_all_zero.
  - destruct y_scores; [congruence |]. destruct y_true; discriminate.
  - intros r Hr. apply in_map_iff in Hr. destruct Hr as [[s a] [<- Hsa]].
    apply in_combine_l in Hsa. unfold binned_row. cbn [bin fst].
    rewrite (Hl s Hsa). reflexivity.
Qed.

(** C9.  A result with one segment has no violations and both scores at
    1.0; and with [n_bins = 1] every non-empty input of matching lengths is
    analysed into exactly one segment. *)
Theorem single_segment_perfect :
  (forall (n_bins : Z) (y_scores y_true : list Qc) (r : results),
      calculate_metrics n_bins y_scores y_true = Return r ->
      length (bin_stats r) = 1%nat ->
      violations r = [] /\ rankfit_v r = 1 /\ rankfit_t r = 1%float)
  /\ (forall (y_scores y_true : list Qc),
         length y_scores = length y_true -> y_scores <> [] ->
         exists r, calculate_metrics 1 y_scores y_true = Return r
                   /\ length (bin_stats r) = 1%nat).
Proof.
  split.
  - intros n_bins y_scores y_true r H Hone. unfold calculate_metrics in H.
    destruct (binned_frame n_bins y_scores y_true) as [df | e];
      cbn [bind] in H; [| discriminate].
    injection H as <-. cbn [bin_stats violations rankfit_v rankfit_t] in *.
    assert (Hr : length (map actual_mean (groupby_agg df)) = 1%nat)
      by (rewrite length_map; exact Hone).
    destruct (map actual_mean (groupby_agg df)) as [| r0 [| r1 rs]];
      try discriminate.
    repeat split.
  - intros y_scores y_true El Hx.
    destruct (single_bin_keys _ _ El Hx) as [df [Hdf Hkeys]].
    unfold calculate_metrics. rewrite Hdf. cbn [bind].
    eexists. split; [reflexivity |].
    cbn [bin_stats]. rewrite groupby_agg_length, Hkeys. reflexivity.
Qed.

Lemma single_segment_perfect_witness :
  (exists r,
      calculate_metrics 3 (qs [5; 5; 5; 7]%Q) (qs [0; 1; 1; 0]%Q) = Return r
      /\ length (bin_stats r) = 1%nat
      /\ violations r = [] /\ rankfit_v r = 1 /\ rankfit_t r = 1%float)
  /\ (length (qs [3; 1; 2]%Q) = length (qs [0; 1; 1]%Q)
      /\ qs [3; 1; 2]%Q <> []
      /\ exists r,
           calculate_metrics 1 (qs [3; 1; 2]%Q) (qs [0; 1; 1]%Q) = Return r
           /\ length (bin_stats r) = 1%nat).
Proof.
  split.
  - eexists.
    match goal with
    | |- ?c = Return ?d /\ _ =>
        assert (H : c = Return d) by (vm_compute; reflexivity)
    end.
    match type of H with
    | _ = Return ?d =>
        assert (Hone : length (bin_stats d) = 1%nat)
          by (vm_compute; reflexivity)
    end.
    split; [exact H | split; [exact Hone |]].
    exact (proj1 single_segment_perfect _ _ _ _ H Hone).
  - assert (El : length (qs [3; 1; 2]%Q) = length (qs [0; 1; 1]%Q))
      by reflexivity.
    assert (Hx : qs [3; 1; 2]%Q <> []) by discriminate.
    split; [exact El | split; [exact Hx |]].
    exact (proj2 single_segment_perfect _ _ El Hx).
Defined.

(** ** Input checks *)

Lemma calculate_metrics_length_mismatch (n_bins : Z)
    (y_scores y_true : list Qc) :
  length y_scores <> length y_true ->
  calculate_metrics n_bins y_scores y_true = Raise ValueError.
Proof.
  intro H. unfold calculate_metrics, binned_frame, DataFrame.
  apply Nat.eqb_neq in H. rewrite H. reflexivity.
Qed.

Lemma calculate_metrics_returns (n_bins : Z) (y_scores y_true : list Qc) :
  length y_scores = length y_true -> y_scores <> [] -> (1 <= n_bins)%Z ->
  returns (calculate_metrics n_bins y_scores y_true) = true.
Proof.
  intros El Hx Hn. unfold calculate_metrics.
  rewrite (binned_frame_spec n_bins y_scores y_true El Hx) by lia.
  reflexivity.
Qed.

(** C2 as stated fails: outcomes 2, 3, 5, 7 are not binary, and the call
    returns a result. *)
Lemma non_binary_outcomes_accepted :
  valid_input 2 (qs [1; 2; 3; 4]%Q) (qs [2; 3; 5; 7]%Q) = false
  /\ exists r,
       calculate_metrics 2 (qs [1; 2; 3; 4]%Q) (qs [2; 3; 5; 7]%Q) = Return r
       /\ map actual_mean (bin_stats r) = [Q2Qc 6; Q2Qc 2.5].
Proof.
  split; [vm_compute; reflexivity |].
  eexists. split; [vm_compute; reflexivity |].
  apply (list_eqb_eq _ (fun a b => proj1 (Qceqb_eq a b))).
  vm_compute. reflexivity.
Qed.

Lemma calculate_metrics_negative_bins (n_bins : Z)
    (y_scores y_true : list Qc) :
  (n_bins < 0)%Z ->
  returns (calculate_metrics n_bins y_scores y_true) = false.
Proof.
  intro Hn. unfold calculate_metrics, binned_frame, DataFrame.
  destruct (length y_scores =? length y_true)%nat; [| reflexivity].
  cbn [bind]. rewrite try_qcut_except_cut.
  destruct (qcut_negative (map fst (combine y_scores y_true)) n_bins Hn)
    as [e ->].
  reflexivity.
Qed.

Lemma calculate_metrics_bins_below_minus_1 (n_bins : Z)
    (y_scores y_true : list Qc) :
  (n_bins <= -2)%Z ->
  calculate_metrics n_bins y_scores y_true = Raise ValueError.
Proof.
  intro Hn. unfold calculate_metrics, binned_frame, DataFrame.
  destruct (length y_scores =? length y_true)%nat; [| reflexivity].
  cbn [bind]. unfold qcut, cut, linspace.
  assert (E1 : (n_bins + 1 <? 0)%Z = true) by (apply Z.ltb_lt; lia).
  assert (E2 : (n_bins <? 1)%Z = true) by (apply Z.ltb_lt; lia).
  rewrite E1, E2. reflexivity.
Qed.

(** C2, amended.  Columns of different lengths make the call fail with the
    [ValueError] of the frame constructor, and no result is produced; the
    outcome values are never inspected: a non-empty input of matching
    lengths with [n_bins >= 1] yields a result whatever the outcomes are.
    A negative [n_bins] makes every call fail without a result, with
    [ValueError] when [n_bins <= -2]: [np.linspace] rejects the sample count
    in [qcut], and [cut] rejects the bin count in the fallback. *)
Theorem input_checks :
  (forall (n_bins : Z) (y_scores y_true : list Qc),
      length y_scores <> length y_true ->
      calculate_metrics n_bins y_scores y_true = Raise ValueError)
  /\ (forall (n_bins : Z) (y_scores y_true : list Qc),
         length y_scores = length y_true -> y_scores <> [] ->
         (1 <= n_bins)%Z ->
         returns (calculate_metrics n_bins y_scores y_true) = true)
  /\ (forall (n_bins : Z) (y_scores y_true : list Qc),
         (n_bins < 0)%Z ->
         returns (calculate_metrics n_bins y_scores y_true) = false)
  /\ (forall (n_bins : Z) (y_scores y_true : list Qc),
         (n_bins <= -2)%Z ->
         calculate_metrics n_bins y_scores y_true = Raise ValueError).
Proof.
  split; [| split; [| split]].
  - apply calculate_metrics_length_mismatch.
  - apply calculate_metrics_returns.
  - apply calculate_metrics_negative_bins.
  - apply calculate_metrics_bins_below_minus_1.
Qed.

Lemma input_checks_witness :
  (length (qs [1; 2; 3]%Q) <> length (qs [0; 1]%Q)
   /\ calculate_metrics 10 (qs [1; 2; 3]%Q) (qs [0; 1]%Q) = Raise ValueError)
  /\ (length (qs [1; 2; 3; 4]%Q) = length (qs [2; 3; 5; 7]%Q)
      /\ qs [1; 2; 3; 4]%Q <> [] /\ (1 <= 2)%Z
      /\ returns (calculate_metrics 2 (qs [1; 2; 3; 4]%Q)
                    (qs [2; 3; 5; 7]%Q)) = true)
  /\ ((-1 < 0)%Z
      /\ returns (calculate_metrics (-1) (qs [1; 2; 3]%Q) (qs [0; 1; 1]%Q))
         = false)
  /\ ((-3 <= -2)%Z
      /\ calculate_metrics (-3) (qs [1; 2; 3]%Q) (qs [0; 1; 1]%Q)
         = Raise ValueError).
Proof.
  assert (H1 : length (qs [1; 2; 3]%Q) <> length (qs [0; 1]%Q))
    by (simpl; lia).
  assert (El : length (qs [1; 2; 3; 4]%Q) = length (qs [2; 3; 5; 7]%Q))
    by reflexivity.
  assert (Hx : qs [1; 2; 3; 4]%Q <> []) by discriminate.
  assert (Hn : (1 <= 2)%Z) by lia.
  assert (Hm : (-1 < 0)%Z) by lia.
  assert (Hk : (-3 <= -2)%Z) by lia.
  split; [| split; [| split]].
  - split; [exact H1 |]. exact (proj1 input_checks 10%Z _ _ H1).
  - split; [exact El | split; [exact Hx | split; [exact Hn |]]].
    exact (proj1 (proj2 input_checks) 2%Z _ _ El Hx Hn).
  - split; [exact Hm |].
    exact (proj1 (proj2 (proj2 input_checks)) (-1)%Z (qs [1; 2; 3]%Q)
             (qs [0; 1; 1]%Q) Hm).
  - split; [exact Hk |].
    exact (proj2 (proj2 (proj2 input_checks)) (-3)%Z (qs [1; 2; 3]%Q)
             (qs [0; 1; 1]%Q) Hk).
Defined.

(** ** Score ranges *)

Lemma calculate_metrics_rankfit_v_range (n_bins : Z)
    (y_scores y_true : list Qc) (r : results) :
  calculate_metrics n_bins y_scores y_true = Return r ->
  0 <= rankfit_v r /\ rankfit_v r <= 1.
Proof.
  unfold calculate_metrics.
  destruct (binned_frame n_bins y_scores y_true) as [df | e];
    cbn [bind]; [| discriminate].
  intros [= <-]. cbn [rankfit_v].
  apply calculate_rankfit_v_bounds, find_violations_positive.
Qed.

(** C3.  [rankfit_v] of every result lies in [0, 1].  [rankfit_t] does
    not: the valid input with scores [1, 2], outcomes [0, 0] and two bins
    has two segments of rate 0, and its [rankfit_t] is NaN; so it is for
    every result of two or more segments that share one event rate. *)
Theorem rankfit_t_outside_unit_interval :
  (forall (n_bins : Z) (y_scores y_true : list Qc) (r : results),
      calculate_metrics n_bins y_scores y_true = Return r ->
      0 <= rankfit_v r /\ rankfit_v r <= 1)
  /\ (valid_input 2 (qs [1; 2]%Q) (qs [0; 0]%Q) = true
      /\ exists r,
           calculate_metrics 2 (qs [1; 2]%Q) (qs [0; 0]%Q) = Return r
           /\ rankfit_t r = nan
           /\ in_unit_interval (rankfit_t r) = false)
  /\ (forall (n_bins : Z) (y_scores y_true : list Qc) (r : results) (c : Qc),
         calculate_metrics n_bins y_scores y_true = Return r ->
         (2 <= length (bin_stats r))%nat ->
         (forall s, In s (bin_stats r) -> actual_mean s = c) ->
         in_unit_interval (rankfit_t r) = false).
Proof.
  split; [apply calculate_metrics_rankfit_v_range | split].
  - split; [vm_compute; reflexivity |].
    eexists. split; [vm_compute; reflexivity |].
    split; vm_compute; reflexivity.
  - intros n_bins y_scores y_true r c H Hlen Hc.
    unfold calculate_metrics in H.
    destruct (binned_frame n_bins y_scores y_true) as [df | e];
      cbn [bind] in H; [| discriminate].
    injection H as <-. cbn [bin_stats rankfit_t] in *.
    rewrite (calculate_rankfit_t_constant _ c).
    + reflexivity.
    + rewrite length_map. exact Hlen.
    + intros x Hx. apply in_map_iff in Hx. destruct Hx as [s [<- Hs]].
      apply Hc. exact Hs.
Qed.

Lemma rankfit_t_outside_unit_interval_witness :
  (exists r,
      calculate_metrics 2 (qs [1; 2; 3; 4]%Q) (qs [0; 1; 1; 1]%Q) = Return r
      /\ 0 <= rankfit_v r /\ rankfit_v r <= 1)
  /\ (exists r,
        calculate_metrics 3 (qs [1; 2; 3]%Q) (qs [1; 1; 1]%Q) = Return r
        /\ (2 <= length (bin_stats r))%nat
        /\ (forall s, In s (bin_stats r) -> actual_mean s = 1)
        /\ in_unit_interval (rankfit_t r) = false).
Proof.
  split.
  - eexists.
    match goal with
    | |- ?c = Return ?d /\ _ =>
        assert (H : c = Return d) by (vm_compute; reflexivity)
    end.
    split; [exact H |].
    exact (proj1 rankfit_t_outside_unit_interval _ _ _ _ H).
  - eexists.
    match goal with
    | |- ?c = Return ?d /\ _ =>
        assert (H : c = Return d) by (vm_compute; reflexivity)
    end.
    match type of H with
    | _ = Return ?d =>
        assert (Hlen : (2 <= length (bin_stats d))%nat)
          by (apply Nat.leb_le; vm_compute; reflexivity);
        assert (Hc : forall s, In s (bin_stats d) -> actual_mean s = 1)
          by (intros s [<- | [<- | [<- | []]]];
              apply Qc_is_canon; vm_compute; reflexivity)
    end.
    split; [exact H | split; [exact Hlen | split; [exact Hc |]]].
    exact (proj2 (proj2 rankfit_t_outside_unit_interval) _ _ _ _ 1 H Hlen Hc).
Defined.

(** ** Identical scores *)

Lemma Z2Qc_le (a b : Z) : (a <= b)%Z -> Z2Qc a <= Z2Qc b.
Proof.
  intro H. unfold Z2Qc, Qcle. rewrite !this_Q2Qc, <- Zle_Qle. exact H.
Qed.

Lemma Z2Qc_pos (a : Z) : (0 < a)%Z -> 0 < Z2Qc a.
Proof.
  intro H. unfold Z2Qc, Qclt. rewrite !this_Q2Qc.
  change 0%Q with (inject_Z 0). rewrite <- Zlt_Qlt. exact H.
Qed.

Lemma Qcfloor_bounds (x : Qc) (lo hi : Z) :
  Z2Qc lo <= x -> x <= Z2Qc hi -> (lo <= Qcfloor x <= hi)%Z.
Proof.
  intros Hlo Hhi. unfold Qcfloor, Z2Qc, Qcle in *.
  rewrite this_Q2Qc in Hlo, Hhi. split.
  - rewrite <- (Qfloor_Z lo). apply Qfloor_resp_le. exact Hlo.
  - rewrite <- (Qfloor_Z hi). apply Qfloor_resp_le. exact Hhi.
Qed.

Lemma Qcfloor_le (x : Qc) : Z2Qc (Qcfloor x) <= x.
Proof. unfold Qcfloor, Z2Qc, Qcle. rewrite this_Q2Qc. apply Qfloor_le. Qed.

(** The quantile fractions of [q >= 1] bins lie in [0, 1]; there are
    [q + 1] of them. *)
Lemma linspace_01_bounds (q : Z) :
  (1 <= q)%Z ->
  exists quantiles,
    linspace 0 1 (q + 1) = Return quantiles
    /\ length quantiles = Z.to_nat (q + 1)
    /\ forall p, In p quantiles -> 0 <= p /\ p <= 1.
Proof.
  intro Hq. unfold linspace.
  destruct (q + 1 <? 0)%Z eqn:E; [apply Z.ltb_lt in E; lia |].
  destruct (q + 1 - 1 <=? 0)%Z eqn:F; [apply Z.leb_le in F; lia |].
  eexists. split; [reflexivity |]. split.
  - unfold range. rewrite !length_map, length_seq. reflexivity.
  - intros p Hp. apply in_map_iff in Hp. destruct Hp as [i [<- Hi]].
    unfold range in Hi. apply in_map_iff in Hi. destruct Hi as [k [<- Hk]].
    apply in_seq in Hk.
    replace (q + 1 - 1)%Z with q by lia.
    assert (Hd : 0 < Z2Qc q) by (apply Z2Qc_pos; lia).
    assert (H0 : Z2Qc 0 <= Z2Qc (Z.of_nat k)) by (apply Z2Qc_le; lia).
    assert (H1 : Z2Qc (Z.of_nat k) <= Z2Qc q) by (apply Z2Qc_le; lia).
    rewrite Z2Qc_0 in H0.
    assert (Ep : Z2Qc (Z.of_nat k) * ((1 - 0) / Z2Qc q) + 0
                 = Z2Qc (Z.of_nat k) / Z2Qc q)
      by (field; intro Ez; rewrite Ez in Hd; discriminate).
    rewrite Ep. set (a := Z2Qc (Z.of_nat k)) in *. set (d := Z2Qc q) in *.
    split.
    + apply Qcdiv_nonneg; assumption.
    + qc_to_Q. apply Qle_shift_div_r; [exact Hd | lra].
Qed.

Lemma nth_constant (values : list Qc) (c : Qc) (i : nat) :
  (forall v, In v values -> v = c) -> (i < length values)%nat ->
  nth i values 0 = c.
Proof. intros H Hi. apply H. apply nth_In. exact Hi. Qed.

Lemma get_score_constant (values : list Qc) (c p : Qc) :
  values <> [] -> (forall v, In v values -> v = c) ->
  0 <= p -> p <= 1 -> get_score values p = c.
Proof.
  intros Hne Hc Hp0 Hp1. unfold get_score.
  assert (Hn : (1 <= length values)%nat)
    by (destruct values; [congruence | simpl; lia]).
  set (m := (Z.of_nat (length values) - 1)%Z).
  assert (Hm : Z2Qc 0 <= Z2Qc m) by (apply Z2Qc_le; subst m; lia).
  rewrite Z2Qc_0 in Hm.
  set (idx := p * Z2Qc m).
  assert (Hi0 : Z2Qc 0 <= idx).
  { rewrite Z2Qc_0. subst idx. set (M := Z2Qc m) in *. qc_to_Q. nra. }
  assert (Hi1 : idx <= Z2Qc m).
  { subst idx. set (M := Z2Qc m) in *. qc_to_Q. nra. }
  destruct (Qcfloor_bounds idx 0 m Hi0 Hi1) as [Hlo Hhi].
  pose proof (Qcfloor_le idx) as Hfl.
  set (lo := Qcfloor idx) in *.
  assert (Elo : nth (Z.to_nat lo) values 0 = c)
    by (apply nth_constant; [exact Hc | subst m; lia]).
  destruct (Qceqb (idx - Z2Qc lo) 0) eqn:Ef; [exact Elo |].
  apply Qceqb_neq in Ef.
  assert (Hlt : (lo < m)%Z).
  { destruct (Z.eq_dec lo m) as [E | E]; [| lia].
    exfalso. apply Ef. rewrite E in *.
    set (M := Z2Qc m) in *. qc_lra. }
  rewrite Elo, (nth_constant values c (Z.to_nat lo + 1) Hc)
    by (subst m; lia).
  unfold interpolate. ring.
Qed.

Lemma unique_In (l : list Qc) (v : Qc) : In v (unique l) -> In v l.
Proof.
  revert v. induction l as [| a t IH]; intros v H; [exact H |].
  simpl in H. destruct H as [<- | H]; [left; reflexivity |].
  apply filter_In in H. right. apply IH. tauto.
Qed.

Lemma unique_constant (l : list Qc) (c : Qc) :
  l <> [] -> (forall v, In v l -> v = c) -> unique l = [c].
Proof.
  intros Hne Hc. destruct l as [| a t]; [congruence |].
  simpl. rewrite (Hc a (or_introl eq_refl)). f_equal.
  assert (H : forall v, In v (unique t) -> v = c)
    by (intros v Hv; apply Hc; right; apply unique_In; exact Hv).
  induction (unique t) as [| b u IH]; [reflexivity |].
  simpl. rewrite (H b (or_introl eq_refl)), Qceqb_refl. simpl.
  apply IH. intros v Hv. apply H. right. exact Hv.
Qed.

Lemma quantile_edges_constant (x : list Qc) (q : Z) (c : Qc) :
  x <> [] -> (forall v, In v x -> v = c) -> (2 <= q)%Z ->
  quantile_edges x q = [c].
Proof.
  intros Hx Hc Hq. unfold quantile_edges.
  destruct (linspace_01_bounds q) as [quantiles [-> [Hlen Hp]]]; [lia |].
  assert (Hs : forall v, In v (QcSort.sort x) -> v = c)
    by (intros v Hv; apply Hc, sort_In; exact Hv).
  assert (Hsne : QcSort.sort x <> []).
  { intro E. apply Hx. apply Permutation_nil. rewrite <- E.
    apply Permutation_sym, QcSort.Permuted_sort. }
  assert (Hb : forall v, In v (quantile x quantiles) -> v = c).
  { intros v Hv. unfold quantile in Hv. apply in_map_iff in Hv.
    destruct Hv as [p [<- Hin]]. destruct (Hp p Hin) as [H0 H1].
    apply get_score_constant; assumption. }
  assert (Hbl : length (quantile x quantiles) = Z.to_nat (q + 1))
    by (unfold quantile; rewrite length_map; exact Hlen).
  assert (Hbne : quantile x quantiles <> [])
    by (intro E; rewrite E in Hbl; simpl in Hbl; lia).
  unfold kept_edges. rewrite (unique_constant _ c Hbne Hb). cbn [length].
  assert (E1 : (1 <? length (quantile x quantiles))%nat = true)
    by (apply Nat.ltb_lt; lia).
  assert (E2 : (length (quantile x quantiles) =? 2)%nat = false)
    by (apply Nat.eqb_neq; lia).
  rewrite E1, E2. reflexivity.
Qed.

Lemma bin_label_single_edge (c : Qc) : bin_label [c] c = None.
Proof. unfold bin_label. cbn [hd length]. rewrite Qceqb_refl. reflexivity. Qed.

Lemma series_max_all_None (col : list (option nat)) :
  (forall b, In b col -> b = None) -> series_max col = None.
Proof.
  unfold series_max. induction col as [| b col IH]; intro H; [reflexivity |].
  simpl. rewrite (H b (or_introl eq_refl)). simpl. apply IH.
  intros b' Hb'. apply H. right. exact Hb'.
Qed.

Lemma group_keys_all_None (df : list row) :
  (forall r, In r df -> bin r = None) -> group_keys df = [].
Proof.
  induction df as [| r df IH]; intro H; [reflexivity |].
  simpl. rewrite (H r (or_introl eq_refl)). apply IH.
  intros r' Hr'. apply H. right. exact Hr'.
Qed.

(** Identical scores in two or more bins: [qcut] keeps a single edge, every
    row is labelled NaN and no segment is left. *)
Lemma identical_scores_no_segments (n_bins : Z) (y_scores y_true : list Qc)
    (c : Qc) :
  length y_scores = length y_true -> y_scores <> [] ->
  (forall v, In v y_scores -> v = c) -> (2 <= n_bins)%Z ->
  calculate_metrics n_bins y_scores y_true
  = Return (mk_results [] 1 1%float []).
Proof.
  intros El Hx Hc Hn. unfold calculate_metrics.
  rewrite (binned_frame_spec n_bins y_scores y_true El Hx) by lia.
  cbn [bind]. rewrite (quantile_edges_constant y_scores n_bins c Hx Hc Hn).
  set (df := map _ (combine y_scores y_true)).
  assert (Hk : group_keys df = []).
  { apply group_keys_all_None. intros r Hr. subst df.
    apply in_map_iff in Hr. destruct Hr as [sa [<- _]].
    unfold binned_row. cbn [bin]. rewrite series_max_all_None.
    - reflexivity.
    - intros b Hb. apply in_map_iff in Hb. destruct Hb as [v [<- Hv]].
      rewrite (Hc v Hv). apply bin_label_single_edge. }
  unfold groupby_agg. rewrite Hk. reflexivity.
Qed.

(** ** Scores that are not all identical *)

Lemma linspace_01_last (q : Z) :
  (1 <= q)%Z ->
  exists quantiles, linspace 0 1 (q + 1) = Return quantiles /\ In 1 quantiles.
Proof.
  intro Hq. unfold linspace.
  destruct (q + 1 <? 0)%Z eqn:E; [apply Z.ltb_lt in E; lia |].
  destruct (q + 1 - 1 <=? 0)%Z eqn:F; [apply Z.leb_le in F; lia |].
  eexists. split; [reflexivity |].
  apply in_map_iff. exists q. split.
  - replace (q + 1 - 1)%Z with q by lia.
    assert (Hd : 0 < Z2Qc q) by (apply Z2Qc_pos; lia).
    field. intro Ez. rewrite Ez in Hd. discriminate.
  - unfold range. apply in_map_iff. exists (Z.to_nat q).
    split; [lia | apply in_seq; lia].
Qed.

Lemma In_unique (l : list Qc) (v : Qc) : In v l -> In v (unique l).
Proof.
  induction l as [| a t IH]; intro H; [exact H |].
  simpl. destruct (Qc_eq_dec v a) as [-> | Hne]; [left; reflexivity |].
  right. apply filter_In. split.
  - apply IH. destruct H as [-> | H]; [congruence | exact H].
  - apply negb_true_iff, Qceqb_neq. exact Hne.
Qed.

Lemma In_kept_edges (bins : list Qc) (v : Qc) :
  In v bins -> In v (kept_edges bins).
Proof.
  unfold kept_edges.
  destruct ((length (unique bins) <? length bins)%nat
            && negb (length bins =? 2)%nat);
    [apply In_unique | exact (fun H => H)].
Qed.

(** For [q >= 1] the highest score is an edge. *)
Lemma quantile_edges_last (x : list Qc) (q : Z) :
  x <> [] -> (1 <= q)%Z ->
  In (nth (length x - 1) (QcSort.sort x) 0) (quantile_edges x q).
Proof.
  intros Hx Hq. unfold quantile_edges.
  destruct (linspace_01_last q Hq) as [quantiles [-> Hin]].
  apply In_kept_edges. unfold quantile. apply in_map_iff. exists 1.
  split; [| exact Hin].
  rewrite get_score_1, sort_length; [reflexivity |].
  intro E. apply Hx. apply Permutation_nil. rewrite <- E.
  apply Permutation_sym, QcSort.Permuted_sort.
Qed.

Lemma two_distinct_length {A : Type} (l : list A) (a b : A) :
  In a l -> In b l -> a <> b -> (2 <= length l)%nat.
Proof.
  destruct l as [| x [| y t]]; simpl; intros Ha Hb Hne; [tauto | | lia].
  destruct Ha as [<- | []], Hb as [<- | []]. congruence.
Qed.

Lemma filter_length_lt {A : Type} (f : A -> bool) (l : list A) (b : A) :
  In b l -> f b = false -> (length (filter f l) < length l)%nat.
Proof.
  induction l as [| a t IH]; intros Hin Hf; [destruct Hin |].
  simpl.
  assert (Hle : (length (filter f t) <= length t)%nat).
  { clear. induction t as [| x t IHt]; simpl; [lia |].
    destruct (f x); simpl; lia. }
  destruct Hin as [-> | Hin].
  - rewrite Hf. lia.
  - specialize (IH Hin Hf). destruct (f a); simpl; lia.
Qed.

(** A value between two distinct edges, the lower one first, gets a bin
    number. *)
Lemma bin_label_Some (edges : list Qc) (mn mx v : Qc) :
  hd 0 edges = mn -> In mn edges -> In mx edges -> mn <> mx ->
  mn <= v -> v <= mx -> exists l, bin_label edges v = Some l.
Proof.
  intros Hhd Hmn Hmx Hne Hlo Hhi. unfold bin_label. rewrite Hhd.
  pose proof (two_distinct_length _ _ _ Hmn Hmx Hne) as Hlen.
  destruct (Qceqb v mn) eqn:E.
  - destruct ((1 =? length edges)%nat || (1 =? 0)%nat) eqn:F;
      [| eexists; reflexivity].
    apply orb_true_iff in F. destruct F as [F | F];
      apply Nat.eqb_eq in F; lia.
  - apply Qceqb_neq in E.
    assert (Hlt : mn < v) by qc_lra.
    pose proof (searchsorted_left_pos edges mn v Hmn Hlt) as Hpos.
    assert (Hup : (searchsorted_left edges v < length edges)%nat).
    { apply (filter_length_lt _ _ mx Hmx). apply Qcltb_ge. exact Hhi. }
    destruct ((searchsorted_left edges v =? length edges)%nat
              || (searchsorted_left edges v =? 0)%nat) eqn:F;
      [| eexists; reflexivity].
    apply orb_true_iff in F. destruct F as [F | F];
      apply Nat.eqb_eq in F; lia.
Qed.

Lemma quantile_edges_hd_In (x : list Qc) (q : Z) :
  (0 <= q)%Z -> In (nth 0 (QcSort.sort x) 0) (quantile_edges x q).
Proof.
  intro Hq. rewrite <- (quantile_edges_hd x q Hq).
  pose proof (quantile_edges_nonempty x q Hq) as Hne.
  destruct (quantile_edges x q); [congruence | left; reflexivity].
Qed.

(** With two different scores every row gets a bin number. *)
Lemma distinct_scores_labelled (x : list Qc) (q : Z) (u w v : Qc) :
  In u x -> In w x -> u <> w -> (1 <= q)%Z -> In v x ->
  exists l, bin_label (quantile_edges x q) v = Some l.
Proof.
  intros Hu Hw Hne Hq Hv.
  assert (Hx : x <> []) by (intro E; rewrite E in Hv; destruct Hv).
  set (mn := nth 0 (QcSort.sort x) 0).
  set (mx := nth (length x - 1) (QcSort.sort x) 0).
  apply (bin_label_Some _ mn mx).
  - apply quantile_edges_hd. lia.
  - apply quantile_edges_hd_In. lia.
  - apply quantile_edges_last; assumption.
  - intro E.
    assert (Hall : forall y, In y x -> y = mn).
    { intros y Hy. apply Qcle_antisym.
      - rewrite E. apply sort_last_ge. exact Hy.
      - apply sort_first_le. exact Hy. }
    apply Hne. rewrite (Hall u Hu), (Hall w Hw). reflexivity.
  - apply sort_first_le. exact Hv.
  - apply sort_last_ge. exact Hv.
Qed.

(** ** Counting the rows of the groups *)

Lemma StronglySorted_lt_NoDup (l : list nat) : StronglySorted lt l -> NoDup l.
Proof.
  induction 1 as [| a l _ IH Ha]; constructor; [| exact IH].
  intro Hin. rewrite Forall_forall in Ha. specialize (Ha a Hin). lia.
Qed.

Lemma sum_indicator (keys : list nat) (b : nat) :
  NoDup keys -> In b keys ->
  fold_right Nat.add 0%nat
    (map (fun k => if (b =? k)%nat then 1%nat else 0%nat) keys) = 1%nat.
Proof.
  induction 1 as [| k keys Hk _ IH]; intro Hin; [destruct Hin |].
  simpl. destruct (b =? k)%nat eqn:E.
  - apply Nat.eqb_eq in E. subst k.
    assert (Hz : fold_right Nat.add 0%nat
                   (map (fun k => if (b =? k)%nat then 1%nat else 0%nat) keys)
                 = 0%nat).
    { clear IH Hin. induction keys as [| k' keys IH']; [reflexivity |].
      simpl. destruct (b =? k')%nat eqn:E'.
      - apply Nat.eqb_eq in E'. subst k'. exfalso. apply Hk. left. reflexivity.
      - apply IH'. intro H. apply Hk. right. exact H. }
    rewrite Hz. reflexivity.
  - apply Nat.eqb_neq in E. destruct Hin as [-> | Hin]; [congruence |].
    rewrite (IH Hin). reflexivity.
Qed.

Lemma sum_zero (keys : list nat) :
  fold_right Nat.add 0%nat (map (fun _ : nat => 0%nat) keys) = 0%nat.
Proof. induction keys as [| k keys IH]; [reflexivity | exact IH]. Qed.

Lemma sum_group_lengths (keys : list nat) (df : list row) :
  NoDup keys ->
  (forall r, In r df -> exists k, bin r = Some k /\ In k keys) ->
  fold_right Nat.add 0%nat (map (fun k => length (group df k)) keys)
  = length df.
Proof.
  intros Hnd. induction df as [| r df IH]; intro H.
  - simpl. apply sum_zero.
  - destruct (H r (or_introl eq_refl)) as [b [Eb Hb]].
    assert (Hstep : forall k, length (group (r :: df) k)
                    = ((if (b =? k)%nat then 1 else 0) + length (group df k))%nat).
    { intro k. unfold group. simpl. unfold in_bin at 1. rewrite Eb.
      destruct (b =? k)%nat; reflexivity. }
    rewrite (map_ext _ _ Hstep).
    assert (Hsplit : forall (f g : nat -> nat) (l : list nat),
               fold_right Nat.add 0%nat (map (fun k => (f k + g k)%nat) l)
               = (fold_right Nat.add 0%nat (map f l)
                  + fold_right Nat.add 0%nat (map g l))%nat).
    { intros f g l. induction l as [| k l IHl]; [reflexivity |].
      simpl. rewrite IHl. lia. }
    rewrite Hsplit, (sum_indicator keys b Hnd Hb), IH; [reflexivity |].
    intros r' Hr'. apply H. right. exact Hr'.
Qed.

Lemma sum_counts_groupby (df : list row) :
  (forall r, In r df -> exists k, bin r = Some k) ->
  sum_counts (groupby_agg df) = length df.
Proof.
  intro H. unfold sum_counts, groupby_agg. rewrite map_map. cbn [actual_count].
  apply sum_group_lengths.
  - apply StronglySorted_lt_NoDup, group_keys_sorted.
  - intros r Hr. destruct (H r Hr) as [k Ek]. exists k.
    split; [exact Ek |]. apply group_keys_In. exists r. auto.
Qed.

(** Every group of [bin_stats] has at least one row. *)
Lemma groupby_agg_counts_positive (df : list row) :
  Forall (fun s => (1 <= actual_count s)%nat) (groupby_agg df).
Proof.
  unfold groupby_agg. apply Forall_map, Forall_forall. intros k Hk.
  cbn [actual_count]. apply group_keys_In in Hk. destruct Hk as [r [Hr Eb]].
  assert (Hin : In r (group df k)) by (apply group_In; auto).
  destruct (group df k); [destruct Hin | simpl; lia].
Qed.

(** The partition is exact once two scores differ. *)
Lemma distinct_scores_partition (n_bins : Z) (y_scores y_true : list Qc)
    (u w : Qc) (r : results) :
  In u y_scores -> In w y_scores -> u <> w -> (1 <= n_bins)%Z ->
  calculate_metrics n_bins y_scores y_true = Return r ->
  sum_counts (bin_stats r) = length y_scores.
Proof.
  intros Hu Hw Hne Hn H. unfold calculate_metrics in H.
  destruct (binned_frame n_bins y_scores y_true) as [df | e] eqn:Hdf;
    cbn [bind] in H; [| discriminate].
  injection H as <-. cbn [bin_stats].
  destruct (binned_frame_inv _ _ _ _ Hdf) as [El [_ Edf]].
  rewrite sum_counts_groupby.
  - rewrite Edf, length_map, length_combine, <- El. apply Nat.min_id.
  - intros r Hr. destruct (binned_frame_row _ _ _ _ _ Hdf Hr) as [Hs ->].
    destruct (distinct_scores_labelled y_scores n_bins u w (score r)
                Hu Hw Hne Hn Hs) as [l El'].
    rewrite El'.
    destruct (series_max_bound
                (map (bin_label (quantile_edges y_scores n_bins)) y_scores) l)
      as [t [-> _]].
    + rewrite <- El'. apply in_map. exact Hs.
    + eexists. reflexivity.
Qed.

(** ** Fully tied scores *)

(** C6.  The valid input with scores [1, 1], outcomes [0, 1] and two bins
    is not partitioned: the segment counts sum to 0 for an input of length
    2.  So it is for every input of identical scores in two or more bins:
    [qcut] labels every row NaN and the grouping drops them all.  Once two
    scores differ the counts sum to the input length, and a segment never
    has a count below 1. *)
Theorem tied_scores_lose_rows :
  (valid_input 2 (qs [1; 1]%Q) (qs [0; 1]%Q) = true
   /\ length (qs [1; 1]%Q) = 2%nat
   /\ exists r,
        calculate_metrics 2 (qs [1; 1]%Q) (qs [0; 1]%Q) = Return r
        /\ sum_counts (bin_stats r) = 0%nat)
  /\ (forall (n_bins : Z) (y_scores y_true : list Qc) (c : Qc),
         length y_scores = length y_true -> y_scores <> [] ->
         (forall v, In v y_scores -> v = c) -> (2 <= n_bins)%Z ->
         exists r,
           calculate_metrics n_bins y_scores y_true = Return r
           /\ bin_stats r = [] /\ sum_counts (bin_stats r) = 0%nat)
  /\ (forall (n_bins : Z) (y_scores y_true : list Qc) (u w : Qc)
             (r : results),
         In u y_scores -> In w y_scores -> u <> w -> (1 <= n_bins)%Z ->
         calculate_metrics n_bins y_scores y_true = Return r ->
         sum_counts (bin_stats r) = length y_scores)
  /\ (forall (n_bins : Z) (y_scores y_true : list Qc) (r : results),
         calculate_metrics n_bins y_scores y_true = Return r ->
         Forall (fun s => (1 <= actual_count s)%nat) (bin_stats r)).
Proof.
  split; [| split; [| split]].
  - split; [vm_compute; reflexivity |]. split; [reflexivity |].
    eexists. split; [vm_compute; reflexivity | reflexivity].
  - intros n_bins y_scores y_true c El Hx Hc Hn.
    rewrite (identical_scores_no_segments n_bins y_scores y_true c El Hx Hc Hn).
    eexists. split; [reflexivity | split; reflexivity].
  - intros n_bins y_scores y_true u w r.
    apply distinct_scores_partition.
  - intros n_bins y_scores y_true r H. unfold calculate_metrics in H.
    destruct (binned_frame n_bins y_scores y_true) as [df | e];
      cbn [bind] in H; [| discriminate].
    injection H as <-. apply groupby_agg_counts_positive.
Qed.

Lemma tied_scores_lose_rows_witness :
  ((length (qs [7; 7; 7; 7]%Q) = length (qs [1; 0; 1; 1]%Q)
    /\ qs [7; 7; 7; 7]%Q <> []
    /\ (forall v, In v (qs [7; 7; 7; 7]%Q) -> v = Q2Qc 7)
    /\ (2 <= 3)%Z)
   /\ exists r,
        calculate_metrics 3 (qs [7; 7; 7; 7]%Q) (qs [1; 0; 1; 1]%Q) = Return r
        /\ bin_stats r = [] /\ sum_counts (bin_stats r) = 0%nat)
  /\ ((In (Q2Qc 7) (qs [7; 7; 7; 9]%Q) /\ In (Q2Qc 9) (qs [7; 7; 7; 9]%Q)
       /\ Q2Qc 7 <> Q2Qc 9 /\ (1 <= 3)%Z)
      /\ exists r,
           calculate_metrics 3 (qs [7; 7; 7; 9]%Q) (qs [1; 0; 1; 1]%Q)
           = Return r
           /\ sum_counts (bin_stats r) = length (qs [7; 7; 7; 9]%Q)
           /\ Forall (fun s => (1 <= actual_count s)%nat) (bin_stats r)).
Proof.
  assert (El : length (qs [7; 7; 7; 7]%Q) = length (qs [1; 0; 1; 1]%Q))
    by reflexivity.
  assert (Hx : qs [7; 7; 7; 7]%Q <> []) by discriminate.
  assert (Hc : forall v, In v (qs [7; 7; 7; 7]%Q) -> v = Q2Qc 7)
    by (intros v [<- | [<- | [<- | [<- | []]]]]; reflexivity).
  assert (Hn : (2 <= 3)%Z) by lia.
  assert (Hu : In (Q2Qc 7) (qs [7; 7; 7; 9]%Q)) by (left; reflexivity).
  assert (Hw : In (Q2Qc 9) (qs [7; 7; 7; 9]%Q))
    by (right; right; right; left; reflexivity).
  assert (Hne : Q2Qc 7 <> Q2Qc 9)
    by (apply Qc_neq_Qeq_conv; vm_compute; discriminate).
  assert (Hm : (1 <= 3)%Z) by lia.
  split.
  - split; [exact (conj El (conj Hx (conj Hc Hn))) |].
    exact (proj1 (proj2 tied_scores_lose_rows) 3%Z
             (qs [7; 7; 7; 7]%Q) (qs [1; 0; 1; 1]%Q) (Q2Qc 7) El Hx Hc Hn).
  - split; [exact (conj Hu (conj Hw (conj Hne Hm))) |].
    eexists.
    match goal with
    | |- ?c = Return ?d /\ _ =>
        assert (H : c = Return d) by (vm_compute; reflexivity)
    end.
    split; [exact H | split].
    + exact (proj1 (proj2 (proj2 tied_scores_lose_rows)) 3%Z
               (qs [7; 7; 7; 9]%Q) (qs [1; 0; 1; 1]%Q) (Q2Qc 7) (Q2Qc 9) _
               Hu Hw Hne Hm H).
    + exact (proj2 (proj2 (proj2 tied_scores_lose_rows)) _ _ _ _ H).
Defined.

(** C8.  On identical scores the quantile binning does not raise, so the
    equal-width fallback is not taken: for scores [1, 1] in two bins [qcut]
    returns NaN labels where [cut] would have put both rows in one bin, and
    for every input of identical scores in two or more bins the result has
    no segment.  The handler never changes the outcome of the [try].  No
    error reaches the caller: a non-empty input of matching lengths with
    [n_bins >= 1] always yields a result. *)
Theorem tied_scores_no_fallback :
  (qcut (qs [1; 1]%Q) 2 = Return [None; None]
   /\ cut (qs [1; 1]%Q) 2 = Return [Some 0%nat; Some 0%nat])
  /\ (forall (n_bins : Z) (y_scores y_true : list Qc) (c : Qc),
         length y_scores = length y_true -> y_scores <> [] ->
         (forall v, In v y_scores -> v = c) -> (2 <= n_bins)%Z ->
         calculate_metrics n_bins y_scores y_true
         = Return (mk_results [] 1 1%float []))
  /\ (forall (x : list Qc) (n_bins : Z),
         try_except_ValueError (qcut x n_bins) (cut x n_bins)
         = qcut x n_bins)
  /\ (forall (n_bins : Z) (y_scores y_true : list Qc),
         length y_scores = length y_true -> y_scores <> [] ->
         (1 <= n_bins)%Z ->
         returns (calculate_metrics n_bins y_scores y_true) = true).
Proof.
  split; [| split; [| split]].
  - split; vm_compute; reflexivity.
  - apply identical_scores_no_segments.
  - apply try_qcut_except_cut.
  - apply calculate_metrics_returns.
Qed.

Lemma tied_scores_no_fallback_witness :
  (length (qs [3; 3; 3]%Q) = length (qs [0; 1; 0]%Q)
   /\ qs [3; 3; 3]%Q <> []
   /\ (forall v, In v (qs [3; 3; 3]%Q) -> v = Q2Qc 3)
   /\ (2 <= 10)%Z /\ (1 <= 10)%Z)
  /\ calculate_metrics 10 (qs [3; 3; 3]%Q) (qs [0; 1; 0]%Q)
     = Return (mk_results [] 1 1%float [])
  /\ returns (calculate_metrics 10 (qs [3; 3; 3]%Q) (qs [0; 1; 0]%Q)) = true.
Proof.
  assert (El : length (qs [3; 3; 3]%Q) = length (qs [0; 1; 0]%Q))
    by reflexivity.
  assert (Hx : qs [3; 3; 3]%Q <> []) by discriminate.
  assert (Hc : forall v, In v (qs [3; 3; 3]%Q) -> v = Q2Qc 3)
    by (intros v [<- | [<- | [<- | []]]]; reflexivity).
  assert (Hn : (2 <= 10)%Z) by lia.
  assert (Hm : (1 <= 10)%Z) by lia.
  split; [exact (conj El (conj Hx (conj Hc (conj Hn Hm)))) |].
  split.
  - exact (proj1 (proj2 tied_scores_no_fallback) 10%Z
             (qs [3; 3; 3]%Q) (qs [0; 1; 0]%Q) (Q2Qc 3) El Hx Hc Hn).
  - exact (proj2 (proj2 (proj2 tied_scores_no_fallback)) 10%Z
             (qs [3; 3; 3]%Q) (qs [0; 1; 0]%Q) El Hx Hm).
Defined.

(** * Further properties *)

(** ** An empty scan *)

Lemma filter_map_comm {A B : Type} (f : B -> bool) (g : A -> B) (l : list A) :
  filter f (map g l) = map g (filter (fun a => f (g a)) l).
Proof.
  induction l as [| a l IH]; simpl; [reflexivity |].
  destruct (f (g a)); simpl; rewrite IH; reflexivity.
Qed.

Lemma filter_nil_iff {A : Type} (f : A -> bool) (l : list A) :
  filter f l = [] <-> forall a, In a l -> f a = false.
Proof.
  induction l as [| a l IH]; simpl.
  - split; [intros _ x [] | reflexivity].
  - destruct (f a) eqn:E.
    + split; [discriminate | intro H].
      rewrite (H a (or_introl eq_refl)) in E. discriminate.
    + rewrite IH. split.
      * intros H x [<- | Hx]; [exact E | apply H; exact Hx].
      * intros H x Hx. apply H. right. exact Hx.
Qed.

Lemma find_violations_nil_iff (l : list Qc) :
  find_violations l = [] <-> non_increasing l.
Proof.
  rewrite find_violations_filter. unfold non_increasing. split.
  - intros H i Hi. apply map_eq_nil in H.
    apply Qcltb_ge. fold (rises_at l i).
    apply (proj1 (filter_nil_iff _ _) H). apply in_seq. lia.
  - intro H.
    assert (E : filter (rises_at l) (seq 0 (length l - 1)) = []).
    { apply filter_nil_iff. intros i Hi. apply in_seq in Hi.
      unfold rises_at. apply Qcltb_ge. apply H. lia. }
    rewrite E. reflexivity.
Qed.

(** ** The trend score depends on the order of the rates only *)

Lemma count_pairs_map {A B : Type} (p : B -> B -> bool) (g : A -> B)
    (l : list A) :
  count_pairs p (map g l) = count_pairs (fun a b => p (g a) (g b)) l.
Proof.
  induction l as [| a l IH]; [reflexivity |].
  cbn [map count_pairs]. rewrite IH, filter_map_comm, length_map.
  reflexivity.
Qed.

Lemma count_pairs_ext {A : Type} (p q : A -> A -> bool) (l : list A) :
  (forall a b, p a b = q a b) -> count_pairs p l = count_pairs q l.
Proof.
  intro H. induction l as [| a l IH]; [reflexivity |].
  cbn [count_pairs]. rewrite IH. f_equal. f_equal. f_equal.
  apply filter_ext. intro b. apply H.
Qed.

Lemma combine_map_r {A B C : Type} (f : B -> C) (x : list A) (y : list B) :
  combine x (map f y) = map (fun p => (fst p, f (snd p))) (combine x y).
Proof.
  revert y. induction x as [| a x IH]; intros [| b y]; simpl;
    try reflexivity.
  rewrite IH. reflexivity.
Qed.

Lemma increasing_ltb (f : Qc -> Qc) (u v : Qc) :
  (forall a b, a < b -> f a < f b) -> Qcltb (f u) (f v) = Qcltb u v.
Proof.
  intro Hf. destruct (Qcltb u v) eqn:E.
  - apply Qcltb_lt in E. apply Qcltb_lt. apply Hf. exact E.
  - apply Qcltb_ge in E. apply Qcltb_ge.
    destruct (Qcle_lt_or_eq _ _ E) as [Hlt | ->];
      [apply Qclt_le_weak, Hf; exact Hlt | apply Qcle_refl].
Qed.

Lemma increasing_eqb (f : Qc -> Qc) (u v : Qc) :
  (forall a b, a < b -> f a < f b) -> Qceqb (f u) (f v) = Qceqb u v.
Proof.
  intro Hf. destruct (Qceqb u v) eqn:E.
  - apply Qceqb_eq in E. subst v. apply Qceqb_refl.
  - apply Qceqb_neq in E. apply Qceqb_neq. intro H.
    destruct (Qclt_le_dec u v) as [L | L].
    + apply Hf in L. rewrite H in L. exact (Qclt_not_le _ _ L (Qcle_refl _)).
    + destruct (Qcle_lt_or_eq _ _ L) as [L' | L']; [| congruence].
      apply Hf in L'. rewrite H in L'.
      exact (Qclt_not_le _ _ L' (Qcle_refl _)).
Qed.

Lemma kendalltau_increasing (f : Qc -> Qc) (x : list Z) (y : list Qc) :
  (forall a b, a < b -> f a < f b) ->
  kendalltau x (map f y) = kendalltau x y.
Proof.
  intro Hf. unfold kendalltau.
  rewrite combine_map_r, length_map, !count_pairs_map.
  set (g := fun p : Z * Qc => (fst p, f (snd p))).
  assert (Ed : count_pairs (fun a b => discordant (g a) (g b)) (combine x y)
               = count_pairs discordant (combine x y)).
  { apply count_pairs_ext. intros a b. unfold discordant, g. cbn [fst snd].
    rewrite !(increasing_ltb f _ _ Hf). reflexivity. }
  assert (Exy : count_pairs (fun a b => tied_xy (g a) (g b)) (combine x y)
                = count_pairs tied_xy (combine x y)).
  { apply count_pairs_ext. intros a b. unfold tied_xy, tied_x, tied_y, g.
    cbn [fst snd]. rewrite (increasing_eqb f _ _ Hf). reflexivity. }
  assert (Ex : count_pairs (fun a b => tied_x (g a) (g b)) (combine x y)
               = count_pairs tied_x (combine x y)).
  { apply count_pairs_ext. intros a b. reflexivity. }
  assert (Ey : count_pairs (fun a b => tied_y (g a) (g b)) (combine x y)
               = count_pairs tied_y (combine x y)).
  { apply count_pairs_ext. intros a b. unfold tied_y, g. cbn [snd].
    apply increasing_eqb. exact Hf. }
  subst g. cbv beta in Ed, Exy, Ex, Ey.
  rewrite Ed, Exy, Ex, Ey. reflexivity.
Qed.

(** X4.  [calculate_rankfit_t] sees the rates only through their order: a
    strictly increasing change of every rate leaves the result bit for bit
    the same. *)
Theorem rankfit_t_order_invariant (f : Qc -> Qc) (event_rates : list Qc) :
  (forall a b, a < b -> f a < f b) ->
  calculate_rankfit_t (map f event_rates) = calculate_rankfit_t event_rates.
Proof.
  intro Hf. unfold calculate_rankfit_t. rewrite length_map.
  rewrite (kendalltau_increasing f _ _ Hf). reflexivity.
Qed.

Lemma rankfit_t_order_invariant_witness :
  (forall a b, a < b -> Q2Qc 2 * a + 1 < Q2Qc 2 * b + 1)
  /\ calculate_rankfit_t (map (fun r => Q2Qc 2 * r + 1)
                              (qs [0.2; 0.5; 0.3; 0.1]%Q))
     = calculate_rankfit_t (qs [0.2; 0.5; 0.3; 0.1]%Q).
Proof.
  assert (Hf : forall a b, a < b -> Q2Qc 2 * a + 1 < Q2Qc 2 * b + 1)
    by (intros a b H; qc_lra).
  split; [exact Hf |].
  exact (rankfit_t_order_invariant (fun r => Q2Qc 2 * r + 1)
           (qs [0.2; 0.5; 0.3; 0.1]%Q) Hf).
Defined.

(** ** Two segments *)

(** X5.  With two segments the trend score is 1.0 when the first rate is
    the higher one, 0.0 when it is the lower one, and NaN when the two are
    equal. *)
Theorem rankfit_t_two_segments (r0 r1 : Qc) :
  (r1 < r0 -> calculate_rankfit_t [r0; r1] = 1%float)
  /\ (r0 < r1 -> calculate_rankfit_t [r0; r1] = 0%float)
  /\ (r0 = r1 -> calculate_rankfit_t [r0; r1] = nan).
Proof.
  assert (E : forall lt01 eq01,
             Qcltb r0 r1 = lt01 -> Qceqb r0 r1 = eq01 ->
             calculate_rankfit_t [r0; r1]
             = (if eq01 then nan
                else if lt01 then 0%float else 1%float)).
  { intros lt01 eq01 H1 H3.
    unfold calculate_rankfit_t.
    change (map (fun i => (- i)%Z) (range (Z.of_nat (length [r0; r1]))))
      with [0%Z; (-1)%Z].
    change (length [r0; r1] <? 2)%nat with false. cbv iota.
    unfold kendalltau. cbn [combine length].
    unfold count_pairs, discordant, tied_xy, tied_x, tied_y.
    cbn [filter fst snd].
    change (0 <? -1)%Z with false. change (-1 <? 0)%Z with true.
    change (0 =? -1)%Z with false. cbn [andb orb].
    rewrite H1, H3.
    destruct eq01, lt01; vm_compute; reflexivity. }
  split; [| split].
  - intro H. rewrite (E false false); [reflexivity | |].
    + apply Qcltb_ge, Qclt_le_weak. exact H.
    + apply Qceqb_neq. intro Heq. subst r1.
      exact (Qclt_not_le _ _ H (Qcle_refl _)).
  - intro H. rewrite (E true false); [reflexivity | |].
    + apply Qcltb_lt. exact H.
    + apply Qceqb_neq. intro Heq. subst r1.
      exact (Qclt_not_le _ _ H (Qcle_refl _)).
  - intros ->. rewrite (E false true); [reflexivity | |].
    + apply Qcltb_ge, Qcle_refl.
    + apply Qceqb_refl.
Qed.

Lemma rankfit_t_two_segments_witness :
  (Q2Qc 0.3 < Q2Qc 0.7 /\ calculate_rankfit_t [Q2Qc 0.7; Q2Qc 0.3] = 1%float)
  /\ (Q2Qc 0.3 < Q2Qc 0.7
      /\ calculate_rankfit_t [Q2Qc 0.3; Q2Qc 0.7] = 0%float)
  /\ (Q2Qc 0.3 = Q2Qc 0.3 /\ calculate_rankfit_t [Q2Qc 0.3; Q2Qc 0.3] = nan).
Proof.
  assert (H : Q2Qc 0.3 < Q2Qc 0.7) by (vm_compute; reflexivity).
  split; [| split].
  - split; [exact H |].
    exact (proj1 (rankfit_t_two_segments (Q2Qc 0.7) (Q2Qc 0.3)) H).
  - split; [exact H |].
    exact (proj1 (proj2 (rankfit_t_two_segments (Q2Qc 0.3) (Q2Qc 0.7))) H).
  - split; [reflexivity |].
    exact (proj2 (proj2 (rankfit_t_two_segments (Q2Qc 0.3) (Q2Qc 0.3)))
             eq_refl).
Defined.

(** ** Fully ordered rates *)

Lemma StronglySorted_impl {A : Type} (R S : A -> A -> Prop) (l : list A) :
  (forall a b, R a b -> S a b) -> StronglySorted R l -> StronglySorted S l.
Proof.
  intros H Hs. induction Hs as [| a l _ IH Ha]; constructor; [exact IH |].
  eapply Forall_impl; [| exact Ha]. intros b Hb. apply H. exact Hb.
Qed.

Lemma StronglySorted_map {A B : Type} (R : B -> B -> Prop) (f : A -> B)
    (l : list A) :
  StronglySorted (fun a b => R (f a) (f b)) l -> StronglySorted R (map f l).
Proof.
  induction 1 as [| a l _ IH Ha]; cbn [map]; constructor; [exact IH |].
  apply Forall_map. exact Ha.
Qed.

Lemma StronglySorted_combine {A B : Type} (R : A -> A -> Prop)
    (S : B -> B -> Prop) (x : list A) (y : list B) :
  StronglySorted R x -> StronglySorted S y ->
  StronglySorted (fun a b => R (fst a) (fst b) /\ S (snd a) (snd b))
                 (combine x y).
Proof.
  intro Hx. revert y. induction Hx as [| a x _ IH Ha]; intros y Hy.
  - constructor.
  - destruct Hy as [| b y Hy Hb]; [constructor |].
    cbn [combine]. constructor; [apply IH; exact Hy |].
    apply Forall_forall. intros [a' b'] Hin. cbn [fst snd].
    rewrite Forall_forall in Ha, Hb. split.
    + apply Ha. apply in_combine_l in Hin. exact Hin.
    + apply Hb. apply in_combine_r in Hin. exact Hin.
Qed.

Lemma count_pairs_none {A : Type} (R : A -> A -> Prop) (p : A -> A -> bool)
    (l : list A) :
  StronglySorted R l -> (forall a b, R a b -> p a b = false) ->
  count_pairs p l = 0%Z.
Proof.
  intros Hs Hp. induction Hs as [| a l _ IH Ha]; [reflexivity |].
  cbn [count_pairs]. rewrite IH.
  assert (E : filter (p a) l = []).
  { apply filter_nil_iff. intros b Hb. apply Hp.
    rewrite Forall_forall in Ha. apply Ha. exact Hb. }
  rewrite E. reflexivity.
Qed.

Lemma count_pairs_every {A : Type} (R : A -> A -> Prop) (p : A -> A -> bool)
    (l : list A) :
  StronglySorted R l -> (forall a b, R a b -> p a b = true) ->
  count_pairs p l
  = (Z.of_nat (length l) * (Z.of_nat (length l) - 1) / 2)%Z.
Proof.
  intros Hs Hp. induction Hs as [| a l _ IH Ha]; [reflexivity |].
  cbn [count_pairs]. rewrite IH.
  rewrite filter_all
    by (intros b Hb; apply Hp; rewrite Forall_forall in Ha; apply Ha;
        exact Hb).
  cbn [length]. set (n := Z.of_nat (length l)).
  replace (Z.of_nat (S (length l)) * (Z.of_nat (S (length l)) - 1))%Z
    with (n * (n - 1) + n * 2)%Z by (subst n; lia).
  rewrite Z.div_add by lia. lia.
Qed.

Lemma bin_indices_sorted (n : nat) :
  StronglySorted (fun a b => (b < a)%Z)
                 (map (fun i => (- i)%Z) (range (Z.of_nat n))).
Proof.
  unfold range. rewrite Nat2Z.id.
  apply StronglySorted_map, StronglySorted_map.
  apply (StronglySorted_impl lt); [intros a b H; lia |].
  apply StronglySorted_lt_seq.
Qed.

Lemma bin_indices_length (n : nat) :
  length (map (fun i => (- i)%Z) (range (Z.of_nat n))) = n.
Proof. unfold range. rewrite !length_map, length_seq. apply Nat2Z.id. Qed.

Lemma pairs_positive (n : nat) :
  (2 <= n)%nat -> (0 < Z.of_nat n * (Z.of_nat n - 1) / 2)%Z.
Proof.
  intro H. apply Z.div_str_pos. nia.
Qed.

Lemma kendalltau_decreasing (l : list Qc) :
  (2 <= length l)%nat -> strictly_decreasing l ->
  kendalltau (map (fun i => (- i)%Z) (range (Z.of_nat (length l)))) l
  = tau_concordant (length l).
Proof.
  intros Hlen Hl. unfold kendalltau, tau_concordant.
  set (x := map (fun i => (- i)%Z) (range (Z.of_nat (length l)))).
  pose proof (StronglySorted_combine _ _ x l
                (bin_indices_sorted (length l)) Hl) as Hs.
  assert (Elen : length (combine x l) = length l).
  { rewrite length_combine. subst x. rewrite bin_indices_length.
    apply Nat.min_id. }
  rewrite Elen.
  rewrite (count_pairs_none _ discordant _ Hs),
    (count_pairs_none _ tied_xy _ Hs), (count_pairs_none _ tied_x _ Hs),
    (count_pairs_none _ tied_y _ Hs).
  - pose proof (pairs_positive _ Hlen) as Hpos.
    set (tot := (Z.of_nat (length l) * (Z.of_nat (length l) - 1) / 2)%Z) in *.
    destruct (Z.of_nat (length l) =? 0)%Z eqn:E0;
      [apply Z.eqb_eq in E0; lia |].
    destruct (0 =? tot)%Z eqn:E1; [apply Z.eqb_eq in E1; lia |].
    cbn [orb].
    replace (tot - 0 - 0 + 0 - 2 * 0)%Z with tot by lia.
    replace (tot - 0)%Z with tot by lia. reflexivity.
  - intros a b [_ H]. unfold tied_y. apply Qceqb_neq. intro E.
    rewrite E in H. exact (Qclt_not_le _ _ H (Qcle_refl _)).
  - intros a b [H _]. unfold tied_x. apply Z.eqb_neq. lia.
  - intros a b [H _]. unfold tied_xy, tied_x.
    apply andb_false_iff. left. apply Z.eqb_neq. lia.
  - intros a b [Hx Hy]. unfold discordant.
    apply orb_false_iff. split; apply andb_false_iff.
    + left. apply Z.ltb_ge. lia.
    + right. apply Qcltb_ge, Qclt_le_weak. exact Hy.
Qed.

Lemma kendalltau_increasing_rates (l : list Qc) :
  (2 <= length l)%nat -> strictly_increasing l ->
  kendalltau (map (fun i => (- i)%Z) (range (Z.of_nat (length l)))) l
  = tau_discordant (length l).
Proof.
  intros Hlen Hl. unfold kendalltau, tau_discordant.
  set (x := map (fun i => (- i)%Z) (range (Z.of_nat (length l)))).
  pose proof (StronglySorted_combine _ _ x l
                (bin_indices_sorted (length l)) Hl) as Hs.
  assert (Elen : length (combine x l) = length l).
  { rewrite length_combine. subst x. rewrite bin_indices_length.
    apply Nat.min_id. }
  rewrite (count_pairs_every _ discordant _ Hs),
    (count_pairs_none _ tied_xy _ Hs), (count_pairs_none _ tied_x _ Hs),
    (count_pairs_none _ tied_y _ Hs).
  - rewrite Elen. pose proof (pairs_positive _ Hlen) as Hpos.
    set (tot := (Z.of_nat (length l) * (Z.of_nat (length l) - 1) / 2)%Z) in *.
    destruct (Z.of_nat (length l) =? 0)%Z eqn:E0;
      [apply Z.eqb_eq in E0; lia |].
    destruct (0 =? tot)%Z eqn:E1; [apply Z.eqb_eq in E1; lia |].
    cbn [orb].
    replace (tot - 0 - 0 + 0 - 2 * tot)%Z with (- tot)%Z by lia.
    replace (tot - 0)%Z with tot by lia. reflexivity.
  - intros a b [_ H]. unfold tied_y. apply Qceqb_neq. intro E.
    rewrite E in H. exact (Qclt_not_le _ _ H (Qcle_refl _)).
  - intros a b [H _]. unfold tied_x. apply Z.eqb_neq. lia.
  - intros a b [H _]. unfold tied_xy, tied_x.
    apply andb_false_iff. left. apply Z.eqb_neq. lia.
  - intros a b [Hx Hy]. unfold discordant.
    apply orb_true_iff. right. apply andb_true_iff. split.
    + apply Z.ltb_lt. lia.
    + apply Qcltb_lt. exact Hy.
Qed.

Lemma calculate_rankfit_t_decreasing (l : list Qc) :
  (2 <= length l)%nat -> strictly_decreasing l ->
  calculate_rankfit_t l = ((tau_concordant (length l) + 1) / 2)%float.
Proof.
  intros Hlen Hl. unfold calculate_rankfit_t.
  destruct (length l <? 2)%nat eqn:E; [apply Nat.ltb_lt in E; lia |].
  rewrite (kendalltau_decreasing l Hlen Hl). reflexivity.
Qed.

Lemma calculate_rankfit_t_increasing (l : list Qc) :
  (2 <= length l)%nat -> strictly_increasing l ->
  calculate_rankfit_t l = ((tau_discordant (length l) + 1) / 2)%float.
Proof.
  intros Hlen Hl. unfold calculate_rankfit_t.
  destruct (length l <? 2)%nat eqn:E; [apply Nat.ltb_lt in E; lia |].
  rewrite (kendalltau_increasing_rates l Hlen Hl). reflexivity.
Qed.

(** The two values over 2 to 100 segments, by evaluation. *)
Lemma concordant_values (n : nat) :
  (2 <= n <= 100)%nat ->
  float_between 0x1.fffffffffffffp-1%float 1%float
                ((tau_concordant n + 1) / 2)%float = true.
Proof.
  intro Hn.
  assert (H : forallb (fun n => float_between 0x1.fffffffffffffp-1%float
                                  1%float ((tau_concordant n + 1) / 2)%float)
                      (seq 2 99) = true) by (vm_compute; reflexivity).
  rewrite forallb_forall in H. apply H. apply in_seq. lia.
Qed.

Lemma discordant_values (n : nat) :
  (2 <= n <= 100)%nat ->
  float_between 0%float 0x1p-53%float
                ((tau_discordant n + 1) / 2)%float = true.
Proof.
  intro Hn.
  assert (H : forallb (fun n => float_between 0%float 0x1p-53%float
                                  ((tau_discordant n + 1) / 2)%float)
                      (seq 2 99) = true) by (vm_compute; reflexivity).
  rewrite forallb_forall in H. apply H. apply in_seq. lia.
Qed.

Ltac solve_sorted :=
  repeat first
    [ apply SSorted_nil | apply SSorted_cons | apply Forall_nil
    | apply Forall_cons | (vm_compute; reflexivity) ].

(** X6.  For strictly decreasing rates of 2 to 100 segments the trend score
    is 1.0 or the binary64 value just below it: it is 1.0 for 5, 10, 20 and
    100 segments and [1 - 2^-53] for 8 segments. *)
Theorem decreasing_rates_rankfit_t :
  (forall l : list Qc,
      (2 <= length l <= 100)%nat -> strictly_decreasing l ->
      float_between 0x1.fffffffffffffp-1%float 1%float
                    (calculate_rankfit_t l) = true)
  /\ (forall l : list Qc,
         length l = 5%nat \/ length l = 10%nat \/ length l = 20%nat
         \/ length l = 100%nat ->
         strictly_decreasing l -> calculate_rankfit_t l = 1%float)
  /\ (forall l : list Qc,
         length l = 8%nat -> strictly_decreasing l ->
         calculate_rankfit_t l = 0x1.fffffffffffffp-1%float).
Proof.
  split; [| split].
  - intros l Hlen Hl.
    rewrite calculate_rankfit_t_decreasing by (lia || exact Hl).
    apply concordant_values. exact Hlen.
  - intros l Hlen Hl.
    rewrite calculate_rankfit_t_decreasing by (lia || exact Hl).
    destruct Hlen as [-> | [-> | [-> | ->]]]; vm_compute; reflexivity.
  - intros l Hlen Hl.
    rewrite calculate_rankfit_t_decreasing by (lia || exact Hl).
    rewrite Hlen. vm_compute. reflexivity.
Qed.

Lemma decreasing_rates_rankfit_t_witness :
  ((2 <= length (qs [0.9; 0.7; 0.5; 0.3; 0.1]%Q) <= 100)%nat
   /\ length (qs [0.9; 0.7; 0.5; 0.3; 0.1]%Q) = 5%nat
   /\ strictly_decreasing (qs [0.9; 0.7; 0.5; 0.3; 0.1]%Q)
   /\ float_between 0x1.fffffffffffffp-1%float 1%float
        (calculate_rankfit_t (qs [0.9; 0.7; 0.5; 0.3; 0.1]%Q)) = true
   /\ calculate_rankfit_t (qs [0.9; 0.7; 0.5; 0.3; 0.1]%Q) = 1%float)
  /\ (length (qs [0.8; 0.7; 0.6; 0.5; 0.4; 0.3; 0.2; 0.1]%Q) = 8%nat
      /\ strictly_decreasing (qs [0.8; 0.7; 0.6; 0.5; 0.4; 0.3; 0.2; 0.1]%Q)
      /\ calculate_rankfit_t (qs [0.8; 0.7; 0.6; 0.5; 0.4; 0.3; 0.2; 0.1]%Q)
         = 0x1.fffffffffffffp-1%float).
Proof.
  assert (H5 : strictly_decreasing (qs [0.9; 0.7; 0.5; 0.3; 0.1]%Q))
    by (unfold strictly_decreasing, qs; cbn [map]; solve_sorted).
  assert (H8 : strictly_decreasing
                 (qs [0.8; 0.7; 0.6; 0.5; 0.4; 0.3; 0.2; 0.1]%Q))
    by (unfold strictly_decreasing, qs; cbn [map]; solve_sorted).
  assert (B5 : (2 <= length (qs [0.9; 0.7; 0.5; 0.3; 0.1]%Q) <= 100)%nat)
    by (simpl; lia).
  split.
  - split; [exact B5 | split; [reflexivity | split; [exact H5 | split]]].
    + exact (proj1 decreasing_rates_rankfit_t _ B5 H5).
    + exact (proj1 (proj2 decreasing_rates_rankfit_t)
               (qs [0.9; 0.7; 0.5; 0.3; 0.1]%Q) (or_introl eq_refl) H5).
  - split; [reflexivity | split; [exact H8 |]].
    exact (proj2 (proj2 decreasing_rates_rankfit_t)
             (qs [0.8; 0.7; 0.6; 0.5; 0.4; 0.3; 0.2; 0.1]%Q) eq_refl H8).
Defined.

(** X7.  For strictly increasing rates of 2 to 100 segments the trend
    score lies between 0.0 and [2^-53]; at the default of 10 segments it
    is [2^-54], not 0.0. *)
Theorem increasing_rates_rankfit_t :
  (forall l : list Qc,
      (2 <= length l <= 100)%nat -> strictly_increasing l ->
      float_between 0%float 0x1p-53%float (calculate_rankfit_t l) = true)
  /\ (forall l : list Qc,
         length l = 10%nat -> strictly_increasing l ->
         calculate_rankfit_t l = 0x1p-54%float).
Proof.
  split.
  - intros l Hlen Hl.
    rewrite calculate_rankfit_t_increasing by (lia || exact Hl).
    apply discordant_values. exact Hlen.
  - intros l Hlen Hl.
    rewrite calculate_rankfit_t_increasing by (lia || exact Hl).
    rewrite Hlen. vm_compute. reflexivity.
Qed.

Lemma increasing_rates_rankfit_t_witness :
  let l := qs [0.05; 0.1; 0.15; 0.2; 0.25; 0.3; 0.35; 0.4; 0.45; 0.5]%Q in
  ((2 <= length l <= 100)%nat /\ length l = 10%nat /\ strictly_increasing l)
  /\ float_between 0%float 0x1p-53%float (calculate_rankfit_t l) = true
  /\ calculate_rankfit_t l = 0x1p-54%float.
Proof.
  intro l.
  assert (Hl : strictly_increasing l)
    by (unfold strictly_increasing, l, qs; cbn [map]; solve_sorted).
  assert (Hb : (2 <= length l <= 100)%nat) by (simpl; lia).
  assert (H10 : length l = 10%nat) by reflexivity.
  split; [exact (conj Hb (conj H10 Hl)) | split].
  - exact (proj1 increasing_rates_rankfit_t l Hb Hl).
  - exact (proj2 increasing_rates_rankfit_t l H10 Hl).
Defined.

(** ** How many segments *)

Lemma unique_length (l : list Qc) : (length (unique l) <= length l)%nat.
Proof.
  induction l as [| a t IH]; [simpl; lia |].
  cbn [unique length].
  pose proof (filter_length_mono (fun b => negb (Qceqb b a))
                (fun _ => true) (unique t) (fun _ _ => eq_refl)) as H.
  rewrite (filter_all (fun _ => true)) in H by reflexivity. lia.
Qed.

Lemma kept_edges_length (bins : list Qc) :
  (length (kept_edges bins) <= length bins)%nat.
Proof.
  unfold kept_edges.
  destruct ((length (unique bins) <? length bins)%nat
            && negb (length bins =? 2)%nat);
    [apply unique_length | lia].
Qed.

Lemma linspace_length (start stop : Qc) (num : Z) (l : list Qc) :
  linspace start stop num = Return l -> length l = Z.to_nat num.
Proof.
  unfold linspace. destruct (num <? 0)%Z; [discriminate |].
  destruct (num - 1 <=? 0)%Z; intros [= <-]; unfold range;
    rewrite !length_map, length_seq; reflexivity.
Qed.

Lemma quantile_edges_length (x : list Qc) (q : Z) :
  (0 <= q)%Z -> (length (quantile_edges x q) <= Z.to_nat q + 1)%nat.
Proof.
  intro Hq. unfold quantile_edges.
  destruct (linspace 0 1 (q + 1)) as [quantiles | e] eqn:E; [| simpl; lia].
  apply linspace_length in E.
  pose proof (kept_edges_length (quantile x quantiles)) as H.
  unfold quantile in H at 2. rewrite length_map, E in H. lia.
Qed.

Lemma bin_label_bound (edges : list Qc) (v : Qc) (l : nat) :
  edges <> [] -> bin_label edges v = Some l ->
  (l + 2 <= length edges)%nat.
Proof.
  intros Hne. unfold bin_label.
  assert (Hlen : (1 <= length edges)%nat)
    by (destruct edges; [congruence | simpl; lia]).
  assert (Hs : (searchsorted_left edges v <= length edges)%nat).
  { unfold searchsorted_left.
    pose proof (filter_length_mono (fun b => Qcltb b v) (fun _ => true)
                  edges (fun _ _ => eq_refl)) as H.
    rewrite (filter_all (fun _ => true)) in H by reflexivity. exact H. }
  set (id := if Qceqb v (hd 0 edges) then 1%nat
             else searchsorted_left edges v).
  assert (Hid : (id <= length edges)%nat)
    by (subst id; destruct (Qceqb v (hd 0 edges)); lia).
  destruct ((id =? length edges)%nat || (id =? 0)%nat) eqn:E;
    [discriminate |].
  apply orb_false_iff in E. destruct E as [E1 E2].
  apply Nat.eqb_neq in E1, E2. intros [= <-]. lia.
Qed.

Lemma sorted_below_length (l : list nat) (n : nat) :
  StronglySorted lt l -> (forall k, In k l -> (k < n)%nat) ->
  (length l <= n)%nat.
Proof.
  intros Hs Hb. rewrite <- (length_seq n 0).
  apply NoDup_incl_length; [apply StronglySorted_lt_NoDup; exact Hs |].
  intros k Hk. apply in_seq. specialize (Hb k Hk). lia.
Qed.

Lemma insert_key_length (k : nat) (keys : list nat) :
  (length (insert_key k keys) <= S (length keys))%nat.
Proof.
  induction keys as [| h t IH]; simpl; [lia |].
  destruct (k <? h)%nat; [simpl; lia |].
  destruct (k =? h)%nat; simpl; lia.
Qed.

Lemma group_keys_length (df : list row) :
  (length (group_keys df) <= length df)%nat.
Proof.
  induction df as [| r df IH]; simpl; [lia |].
  destruct (bin r); [| lia].
  pose proof (insert_key_length n (group_keys df)). lia.
Qed.

(** The keys of the frame are below the configured number of bins. *)
Lemma group_keys_below (n_bins : Z) (y_scores y_true : list Qc)
    (df : list row) (k : nat) :
  binned_frame n_bins y_scores y_true = Return df ->
  In k (group_keys df) -> (k < Z.to_nat n_bins)%nat.
Proof.
  intros H Hk. apply group_keys_In in Hk. destruct Hk as [r [Hr Eb]].
  destruct (binned_frame_row _ _ _ _ _ H Hr) as [Hs Hbin].
  destruct (binned_frame_inv _ _ _ _ H) as [_ [Hn _]].
  assert (Hq : (0 <= n_bins)%Z)
    by (apply Hn; intro E; rewrite E in Hs; destruct Hs).
  set (edges := quantile_edges y_scores n_bins) in *.
  rewrite Eb in Hbin. symmetry in Hbin. apply reverse_bin_Some in Hbin.
  destruct Hbin as [t [l [Et [_ ->]]]].
  apply series_max_In in Et. apply in_map_iff in Et.
  destruct Et as [v [Ev _]].
  pose proof (bin_label_bound edges v t
                (quantile_edges_nonempty _ _ Hq) Ev) as Hb.
  pose proof (quantile_edges_length y_scores n_bins Hq) as Hl.
  fold edges in Hl. lia.
Qed.

(** X8.  A result never has more segments than the configured [n_bins],
    nor more than there are examples, and every bin label of [bin_stats] is
    below [n_bins]. *)
Theorem segment_count_bounds (n_bins : Z) (y_scores y_true : list Qc)
    (r : results) :
  calculate_metrics n_bins y_scores y_true = Return r ->
  (length (bin_stats r) <= Z.to_nat n_bins)%nat
  /\ (length (bin_stats r) <= length y_scores)%nat
  /\ Forall (fun s => (bs_bin s < Z.to_nat n_bins)%nat) (bin_stats r).
Proof.
  intro H. unfold calculate_metrics in H.
  destruct (binned_frame n_bins y_scores y_true) as [df | e] eqn:Hdf;
    cbn [bind] in H; [| discriminate].
  injection H as <-. cbn [bin_stats]. rewrite groupby_agg_length.
  split; [| split].
  - apply sorted_below_length; [apply group_keys_sorted |].
    intros k Hk. exact (group_keys_below _ _ _ _ _ Hdf Hk).
  - destruct (binned_frame_inv _ _ _ _ Hdf) as [El [_ Edf]].
    pose proof (group_keys_length df) as Hl.
    assert (Ed : length df = length y_scores)
      by (rewrite Edf, length_map, length_combine, <- El, Nat.min_id;
          reflexivity).
    lia.
  - unfold groupby_agg. apply Forall_map, Forall_forall. intros k Hk.
    cbn [bs_bin]. exact (group_keys_below _ _ _ _ _ Hdf Hk).
Qed.

Lemma segment_count_bounds_witness :
  exists r,
    calculate_metrics 10 (qs [1; 2; 2; 3; 3; 3]%Q) (qs [0; 1; 0; 1; 1; 0]%Q)
    = Return r
    /\ (length (bin_stats r) <= Z.to_nat 10)%nat
    /\ (length (bin_stats r) <= length (qs [1; 2; 2; 3; 3; 3]%Q))%nat
    /\ Forall (fun s => (bs_bin s < Z.to_nat 10)%nat) (bin_stats r).
Proof.
  eexists.
  match goal with
  | |- ?c = Return ?d /\ _ =>
      assert (H : c = Return d) by (vm_compute; reflexivity)
  end.
  split; [exact H |].
  exact (segment_count_bounds _ _ _ _ H).
Defined.

(** ** Bin labels and positions *)

Lemma sorted_nat_hd_zero (l : list nat) :
  StronglySorted lt l -> In 0%nat l -> hd 0%nat l = 0%nat.
Proof.
  intros Hs Hin. destruct Hs as [| a l _ Ha]; [destruct Hin |].
  cbn [hd]. destruct Hin as [-> | Hin]; [reflexivity |].
  rewrite Forall_forall in Ha. specialize (Ha 0%nat Hin). lia.
Qed.

Lemma sorted_nat_position (l : list nat) (i : nat) :
  StronglySorted lt l -> (i < length l)%nat -> (i <= nth i l 0)%nat.
Proof.
  intro Hs. induction i as [| i IH]; intro Hi; [lia |].
  pose proof (StronglySorted_lt_nth l i (S i) Hs) as H.
  specialize (IH ltac:(lia)). specialize (H ltac:(lia)). lia.
Qed.

Lemma group_keys_zero (n_bins : Z) (y_scores y_true : list Qc)
    (df : list row) :
  binned_frame n_bins y_scores y_true = Return df ->
  group_keys df <> [] -> In 0%nat (group_keys df).
Proof.
  intros H Hne.
  destruct (group_keys df) as [| k ks] eqn:Ek; [congruence |].
  assert (Hk : In k (group_keys df)) by (rewrite Ek; left; reflexivity).
  rewrite <- Ek. apply group_keys_In in Hk. destruct Hk as [r [Hr Eb]].
  destruct (binned_frame_row _ _ _ _ _ H Hr) as [_ Hbin].
  rewrite Eb in Hbin. symmetry in Hbin. apply reverse_bin_Some in Hbin.
  destruct Hbin as [t [l [Et _]]].
  pose proof (series_max_In _ _ Et) as Hin. apply in_map_iff in Hin.
  destruct Hin as [v [Ev Hv]].
  destruct (binned_frame_inv _ _ _ _ H) as [El [_ Edf]].
  destruct (In_nth _ _ 0 Hv) as [i [Hi Ei]].
  apply group_keys_In.
  exists (binned_row (quantile_edges y_scores n_bins)
            (series_max (map (bin_label (quantile_edges y_scores n_bins))
                             y_scores))
            (v, nth i y_true 0)).
  split.
  - rewrite Edf. apply in_map. rewrite <- Ei.
    rewrite <- (combine_nth y_scores y_true i 0 0 El).
    apply nth_In. rewrite length_combine, <- El, Nat.min_id. exact Hi.
  - unfold binned_row. cbn [bin fst]. rewrite Et, Ev. cbn [reverse_bin].
    rewrite Nat.sub_diag. reflexivity.
Qed.

(** X9.  The bin labels of [bin_stats] are strictly ascending and start at
    0, so the label of a row is at least its position; they need not be
    consecutive: the scores 0 and 10 in four bins get the labels 0 and 3. *)
Theorem bin_labels_ascending :
  (forall (n_bins : Z) (y_scores y_true : list Qc) (r : results),
      calculate_metrics n_bins y_scores y_true = Return r ->
      StronglySorted lt (map bs_bin (bin_stats r))
      /\ hd 0%nat (map bs_bin (bin_stats r)) = 0%nat
      /\ forall i, (i < length (bin_stats r))%nat ->
                   (i <= nth i (map bs_bin (bin_stats r)) 0)%nat)
  /\ exists r,
       calculate_metrics 4 (qs [0; 10]%Q) (qs [1; 0]%Q) = Return r
       /\ map bs_bin (bin_stats r) = [0%nat; 3%nat].
Proof.
  split.
  - intros n_bins y_scores y_true r H. unfold calculate_metrics in H.
    destruct (binned_frame n_bins y_scores y_true) as [df | e] eqn:Hdf;
      cbn [bind] in H; [| discriminate].
    injection H as <-. cbn [bin_stats].
    assert (E : map bs_bin (groupby_agg df) = group_keys df).
    { unfold groupby_agg. rewrite map_map. cbn [bs_bin]. apply map_id. }
    rewrite E, groupby_agg_length.
    split; [apply group_keys_sorted | split].
    + destruct (group_keys df) as [| k ks] eqn:Ek; [reflexivity |].
      rewrite <- Ek. apply sorted_nat_hd_zero; [apply group_keys_sorted |].
      apply (group_keys_zero _ _ _ _ Hdf). rewrite Ek. discriminate.
    + intros i Hi. apply sorted_nat_position;
        [apply group_keys_sorted | exact Hi].
  - eexists. split; vm_compute; reflexivity.
Qed.

Lemma bin_labels_ascending_witness :
  exists r,
    calculate_metrics 3 (qs [1; 2; 3; 4; 5; 6]%Q) (qs [0; 1; 0; 1; 1; 0]%Q)
    = Return r
    /\ StronglySorted lt (map bs_bin (bin_stats r))
    /\ hd 0%nat (map bs_bin (bin_stats r)) = 0%nat
    /\ forall i, (i < length (bin_stats r))%nat ->
                 (i <= nth i (map bs_bin (bin_stats r)) 0)%nat.
Proof.
  eexists.
  match goal with
  | |- ?c = Return ?d /\ _ =>
      assert (H : c = Return d) by (vm_compute; reflexivity)
  end.
  split; [exact H |].
  exact (proj1 bin_labels_ascending _ _ _ _ H).
Defined.

(** ** Scores and event rates of the segments *)

Lemma nat2Qc_S (n : nat) : nat2Qc (S n) = nat2Qc n + 1.
Proof.
  unfold nat2Qc, Z2Qc. apply Qc_is_canon. autorewrite with qc_this.
  rewrite Nat2Z.inj_succ. unfold Z.succ. rewrite inject_Z_plus.
  reflexivity.
Qed.

Lemma nat2Qc_pos (n : nat) : (0 < n)%nat -> 0 < nat2Qc n.
Proof. intro H. unfold nat2Qc. apply Z2Qc_pos. lia. Qed.

Lemma np_sum_bounds (lo hi : Qc) (l : list Qc) :
  (forall x, In x l -> lo <= x /\ x <= hi) ->
  nat2Qc (length l) * lo <= np_sum l /\ np_sum l <= nat2Qc (length l) * hi.
Proof.
  induction l as [| a l IH]; intro H.
  - change (nat2Qc (length [])) with (Z2Qc 0). rewrite Z2Qc_0.
    change (np_sum []) with 0. split; qc_lra.
  - cbn [length]. rewrite nat2Qc_S, np_sum_cons.
    destruct (H a (or_introl eq_refl)) as [Ha1 Ha2].
    destruct (IH (fun x Hx => H x (or_intror Hx))) as [I1 I2].
    split; qc_to_Q; nra.
Qed.

(** A mean lies between any bounds of the values. *)
Lemma mean_bounds (lo hi : Qc) (l : list Qc) :
  l <> [] -> (forall x, In x l -> lo <= x /\ x <= hi) ->
  lo <= mean l /\ mean l <= hi.
Proof.
  intros Hne H. unfold mean.
  assert (Hn : 0 < nat2Qc (length l))
    by (apply nat2Qc_pos; destruct l; [congruence | simpl; lia]).
  destruct (np_sum_bounds lo hi l H) as [B1 B2].
  unfold Qcle, Qclt in *. rewrite this_div. rewrite this_mult in B1, B2.
  change (this 0) with 0%Q in Hn. split.
  - apply Qle_shift_div_l; [exact Hn |]. lra.
  - apply Qle_shift_div_r; [exact Hn |]. lra.
Qed.

Lemma group_nonempty (df : list row) (k : nat) :
  In k (group_keys df) -> group df k <> [].
Proof.
  intro Hk. apply group_keys_In in Hk. destruct Hk as [r [Hr Eb]].
  assert (Hin : In r (group df k)) by (apply group_In; auto).
  intro E. rewrite E in Hin. destruct Hin.
Qed.

(** X10.  The segments are ordered by score: every score of a segment is
    strictly above every score of each later segment. *)
Theorem segments_ordered_by_score (n_bins : Z) (y_scores y_true : list Qc)
    (df : list row) :
  binned_frame n_bins y_scores y_true = Return df ->
  forall i j u w,
    (i < j < length (groupby_agg df))%nat ->
    In u (segment_scores df i) -> In w (segment_scores df j) -> w < u.
Proof.
  intros H i j u w Hij Hu Hw. rewrite groupby_agg_length in Hij.
  apply segment_pick in Hu, Hw.
  destruct Hu as [ra [Ha [Ea <-]]]. destruct Hw as [rb [Hb [Eb <-]]].
  apply (segment_rows_ordered _ _ _ _ ra rb _ _ H Ha Hb Ea Eb).
  apply StronglySorted_lt_nth; [apply group_keys_sorted | exact Hij].
Qed.

Lemma segments_ordered_by_score_witness :
  exists df,
    binned_frame 3 (qs [5; 1; 4; 2; 6; 3]%Q) (qs [1; 0; 1; 0; 1; 1]%Q)
    = Return df
    /\ forall i j u w,
         (i < j < length (groupby_agg df))%nat ->
         In u (segment_scores df i) -> In w (segment_scores df j) -> w < u.
Proof.
  eexists.
  match goal with
  | |- ?c = Return ?d /\ _ =>
      assert (H : c = Return d) by (vm_compute; reflexivity)
  end.
  split; [exact H |].
  exact (segments_ordered_by_score _ _ _ _ H).
Defined.

Lemma binary_bounds (l : list Qc) :
  forallb binary l = true -> forall a, In a l -> 0 <= a /\ a <= 1.
Proof.
  intros H a Ha. rewrite forallb_forall in H. specialize (H a Ha).
  unfold binary in H. apply orb_true_iff in H.
  destruct H as [H | H]; apply Qceqb_eq in H; subst a; split;
    unfold Qcle; cbn; lra.
Qed.

(** X11.  For outcomes in {0, 1} every event rate of [bin_stats] lies
    within [0, 1]. *)
Theorem binary_outcomes_rates_in_unit_interval (n_bins : Z)
    (y_scores y_true : list Qc) (r : results) :
  calculate_metrics n_bins y_scores y_true = Return r ->
  forallb binary y_true = true ->
  Forall (fun s => 0 <= actual_mean s /\ actual_mean s <= 1) (bin_stats r).
Proof.
  intros H Hb. unfold calculate_metrics in H.
  destruct (binned_frame n_bins y_scores y_true) as [df | e] eqn:Hdf;
    cbn [bind] in H; [| discriminate].
  injection H as <-. cbn [bin_stats].
  destruct (binned_frame_inv _ _ _ _ Hdf) as [El [_ Edf]].
  unfold groupby_agg. apply Forall_map, Forall_forall. intros k Hk.
  cbn [actual_mean].
  pose proof (group_nonempty df k Hk) as Ne.
  apply mean_bounds; [destruct (group df k); [congruence | discriminate] |].
  intros a Hin. apply in_map_iff in Hin. destruct Hin as [x [<- Hx]].
  apply group_In in Hx. destruct Hx as [Hx _].
  apply (binary_bounds y_true Hb).
  rewrite Edf in Hx. apply in_map_iff in Hx.
  destruct Hx as [[s a] [<- Hsa]]. unfold binned_row. cbn [actual snd].
  exact (in_combine_r _ _ _ _ Hsa).
Qed.

Lemma binary_outcomes_rates_in_unit_interval_witness :
  exists r,
    calculate_metrics 3 (qs [5; 1; 4; 2; 6; 3]%Q) (qs [1; 0; 1; 0; 1; 1]%Q)
    = Return r
    /\ forallb binary (qs [1; 0; 1; 0; 1; 1]%Q) = true
    /\ Forall (fun s => 0 <= actual_mean s /\ actual_mean s <= 1)
              (bin_stats r).
Proof.
  eexists.
  match goal with
  | |- ?c = Return ?d /\ _ =>
      assert (H : c = Return d) by (vm_compute; reflexivity)
  end.
  assert (Hb : forallb binary (qs [1; 0; 1; 0; 1; 1]%Q) = true)
    by (vm_compute; reflexivity).
  split; [exact H | split; [exact Hb |]].
  exact (binary_outcomes_rates_in_unit_interval _ _ _ _ H Hb).
Defined.

(** ** Violations of a result *)



(** ** The trend description *)

Lemma StronglySorted_rel_nth {A : Type} (R : A -> A -> Prop) (l : list A)
    (d : A) (i j : nat) :
  StronglySorted R l -> (i < j < length l)%nat -> R (nth i l d) (nth j l d).
Proof.
  intro H. revert i j. induction H as [| a l _ IH Ha]; intros i j Hij.
  - simpl in Hij. lia.
  - destruct i as [| i], j as [| j]; simpl in *; try lia.
    + rewrite Forall_forall in Ha. apply Ha, nth_In. lia.
    + apply IH. lia.
Qed.

Lemma strictly_decreasing_non_increasing (l : list Qc) :
  strictly_decreasing l -> non_increasing l.
Proof.
  intros H i Hi. apply Qclt_le_weak.
  apply (StronglySorted_rel_nth _ l 0 i (i + 1) H). lia.
Qed.

Lemma strictly_increasing_violation (l : list Qc) :
  (2 <= length l)%nat -> strictly_increasing l -> find_violations l <> [].
Proof.
  intros Hlen H E. apply find_violations_nil_iff in E.
  specialize (E 0%nat ltac:(lia)).
  pose proof (StronglySorted_rel_nth _ l 0 0 1 H ltac:(lia)) as Hlt.
  cbn [Nat.add] in E. qc_lra.
Qed.

Lemma trend_desc_suffix (t : float) (vs : list violation) :
  vs <> [] ->
  trend_desc t vs = String.append (trend_desc t []) " (non-monotonic)"%string.
Proof. intro H. destruct vs as [| v vs]; [congruence | reflexivity]. Qed.

Lemma results_rates_trend_desc (n_bins : Z) (y_scores y_true : list Qc)
    (r : results) :
  calculate_metrics n_bins y_scores y_true = Return r ->
  results_trend_desc r = rates_trend_desc (map actual_mean (bin_stats r)).
Proof.
  intro H. unfold calculate_metrics in H.
  destruct (binned_frame n_bins y_scores y_true) as [df | e];
    cbn [bind] in H; [| discriminate].
  injection H as <-. reflexivity.
Qed.

(** The descriptions of the two extreme trend scores over 2 to 100
    segments, by evaluation. *)
Lemma concordant_desc (n : nat) :
  (2 <= n <= 100)%nat ->
  trend_desc ((tau_concordant n + 1) / 2)%float [] = "Perfectly Decreasing"%string.
Proof.
  intro Hn.
  assert (H : forallb (fun n => String.eqb
                         (trend_desc ((tau_concordant n + 1) / 2)%float [])
                         "Perfectly Decreasing"%string)
                      (seq 2 99) = true) by (vm_compute; reflexivity).
  rewrite forallb_forall in H. apply String.eqb_eq, H, in_seq. lia.
Qed.

Lemma discordant_desc (n : nat) :
  (2 <= n <= 100)%nat ->
  trend_desc ((tau_discordant n + 1) / 2)%float [] = "Non-Decreasing"%string.
Proof.
  intro Hn.
  assert (H : forallb (fun n => String.eqb
                         (trend_desc ((tau_discordant n + 1) / 2)%float [])
                         "Non-Decreasing"%string)
                      (seq 2 99) = true) by (vm_compute; reflexivity).
  rewrite forallb_forall in H. apply String.eqb_eq, H, in_seq. lia.
Qed.

(** X15.  The description of a degenerate result.  Fewer than two segments
    read "Perfectly Decreasing"; so does every input of identical scores in
    two or more bins, which has no segment at all.  Two or more segments
    that share one event rate read "Non-Decreasing", without the
    non-monotonic suffix: the NaN trend score fails every threshold. *)
Theorem degenerate_trend_description :
  (forall l : list Qc,
      (length l < 2)%nat -> rates_trend_desc l = "Perfectly Decreasing"%string)
  /\ (forall (l : list Qc) (c : Qc),
         (2 <= length l)%nat -> (forall x, In x l -> x = c) ->
         rates_trend_desc l = "Non-Decreasing"%string)
  /\ (forall (n_bins : Z) (y_scores y_true : list Qc) (c : Qc),
         length y_scores = length y_true -> y_scores <> [] ->
         (forall v, In v y_scores -> v = c) -> (2 <= n_bins)%Z ->
         exists r, calculate_metrics n_bins y_scores y_true = Return r
                   /\ results_trend_desc r = "Perfectly Decreasing"%string).
Proof.
  split; [| split].
  - intros l Hlen. unfold rates_trend_desc, calculate_rankfit_t.
    assert (E : (length l <? 2)%nat = true) by (apply Nat.ltb_lt; exact Hlen).
    rewrite E.
    assert (Hv : find_violations l = []).
    { apply find_violations_nil_iff. intros i Hi. lia. }
    rewrite Hv. reflexivity.
  - intros l c Hlen Hc. unfold rates_trend_desc.
    rewrite (calculate_rankfit_t_constant l c Hlen Hc).
    assert (Hv : find_violations l = []).
    { apply find_violations_nil_iff. intros i Hi.
      rewrite (Hc (nth i l 0)) by (apply nth_In; lia).
      rewrite (Hc (nth (i + 1) l 0)) by (apply nth_In; lia).
      apply Qcle_refl. }
    rewrite Hv. reflexivity.
  - intros n_bins y_scores y_true c El Hx Hc Hn. eexists. split.
    + exact (identical_scores_no_segments _ _ _ c El Hx Hc Hn).
    + reflexivity.
Qed.

Lemma degenerate_trend_description_witness :
  ((length (qs [0.4]%Q) < 2)%nat
   /\ rates_trend_desc (qs [0.4]%Q) = "Perfectly Decreasing"%string)
  /\ ((2 <= length (qs [0.4; 0.4; 0.4]%Q))%nat
      /\ (forall x, In x (qs [0.4; 0.4; 0.4]%Q) -> x = Q2Qc 0.4)
      /\ rates_trend_desc (qs [0.4; 0.4; 0.4]%Q) = "Non-Decreasing"%string)
  /\ (length (qs [1; 1; 1]%Q) = length (qs [0; 1; 1]%Q)
      /\ qs [1; 1; 1]%Q <> []
      /\ (forall v, In v (qs [1; 1; 1]%Q) -> v = Q2Qc 1)
      /\ (2 <= 10)%Z
      /\ exists r,
           calculate_metrics 10 (qs [1; 1; 1]%Q) (qs [0; 1; 1]%Q) = Return r
           /\ results_trend_desc r = "Perfectly Decreasing"%string).
Proof.
  assert (H1 : (length (qs [0.4]%Q) < 2)%nat) by (simpl; lia).
  assert (H2 : (2 <= length (qs [0.4; 0.4; 0.4]%Q))%nat) by (simpl; lia).
  assert (H3 : forall x, In x (qs [0.4; 0.4; 0.4]%Q) -> x = Q2Qc 0.4).
  { intros x Hx. cbn in Hx.
    repeat (destruct Hx as [<- | Hx]; [reflexivity |]). destruct Hx. }
  assert (H4 : length (qs [1; 1; 1]%Q) = length (qs [0; 1; 1]%Q))
    by reflexivity.
  assert (H5 : qs [1; 1; 1]%Q <> []) by discriminate.
  assert (H6 : forall v, In v (qs [1; 1; 1]%Q) -> v = Q2Qc 1).
  { intros x Hx. cbn in Hx.
    repeat (destruct Hx as [<- | Hx]; [reflexivity |]). destruct Hx. }
  assert (H7 : (2 <= 10)%Z) by lia.
  split; [| split].
  - split; [exact H1 |].
    exact (proj1 degenerate_trend_description (qs [0.4]%Q) H1).
  - split; [exact H2 | split; [exact H3 |]].
    exact (proj1 (proj2 degenerate_trend_description)
             (qs [0.4; 0.4; 0.4]%Q) (Q2Qc 0.4) H2 H3).
  - split; [exact H4 | split; [exact H5 | split; [exact H6 | split;
      [exact H7 |]]]].
    exact (proj2 (proj2 degenerate_trend_description) 10%Z
             (qs [1; 1; 1]%Q) (qs [0; 1; 1]%Q) (Q2Qc 1) H4 H5 H6 H7).
Defined.

(** X16.  The description of monotone event rates over 2 to 100 segments:
    strictly decreasing rates read "Perfectly Decreasing", strictly
    increasing rates "Non-Decreasing (non-monotonic)".  The two parts of a
    description are independent: ten segments with one adjacent inversion
    read "Perfectly Decreasing (non-monotonic)".  A result of
    [calculate_metrics] is described by its event rates alone. *)
Theorem monotone_trend_description :
  (forall l : list Qc,
      (2 <= length l <= 100)%nat -> strictly_decreasing l ->
      rates_trend_desc l = "Perfectly Decreasing"%string)
  /\ (forall l : list Qc,
         (2 <= length l <= 100)%nat -> strictly_increasing l ->
         rates_trend_desc l = "Non-Decreasing (non-monotonic)"%string)
  /\ rates_trend_desc
       (qs [1; 0.9; 0.8; 0.7; 0.6; 0.5; 0.4; 0.3; 0.1; 0.2]%Q)
     = "Perfectly Decreasing (non-monotonic)"%string
  /\ (forall (n_bins : Z) (y_scores y_true : list Qc) (r : results),
         calculate_metrics n_bins y_scores y_true = Return r ->
         results_trend_desc r
         = rates_trend_desc (map actual_mean (bin_stats r))).
Proof.
  split; [| split; [| split]].
  - intros l Hlen Hl. unfold rates_trend_desc.
    rewrite calculate_rankfit_t_decreasing by (lia || exact Hl).
    assert (Hv : find_violations l = [])
      by (apply find_violations_nil_iff,
            strictly_decreasing_non_increasing, Hl).
    rewrite Hv. apply concordant_desc. exact Hlen.
  - intros l Hlen Hl. unfold rates_trend_desc.
    rewrite calculate_rankfit_t_increasing by (lia || exact Hl).
    rewrite trend_desc_suffix
      by (apply strictly_increasing_violation; [lia | exact Hl]).
    rewrite discordant_desc by exact Hlen. reflexivity.
  - apply String.eqb_eq. vm_compute. reflexivity.
  - exact results_rates_trend_desc.
Qed.

Lemma monotone_trend_description_witness :
  ((2 <= length (qs [0.9; 0.7; 0.5; 0.3; 0.1]%Q) <= 100)%nat
   /\ strictly_decreasing (qs [0.9; 0.7; 0.5; 0.3; 0.1]%Q)
   /\ rates_trend_desc (qs [0.9; 0.7; 0.5; 0.3; 0.1]%Q)
      = "Perfectly Decreasing"%string)
  /\ ((2 <= length (qs [0.1; 0.3; 0.5; 0.7; 0.9]%Q) <= 100)%nat
      /\ strictly_increasing (qs [0.1; 0.3; 0.5; 0.7; 0.9]%Q)
      /\ rates_trend_desc (qs [0.1; 0.3; 0.5; 0.7; 0.9]%Q)
         = "Non-Decreasing (non-monotonic)"%string)
  /\ exists r,
       calculate_metrics 3 (qs [1; 2; 3; 4; 5; 6]%Q)
         (qs [0; 0; 0; 1; 1; 1]%Q) = Return r
       /\ results_trend_desc r
          = rates_trend_desc (map actual_mean (bin_stats r)).
Proof.
  assert (Hd : strictly_decreasing (qs [0.9; 0.7; 0.5; 0.3; 0.1]%Q))
    by (unfold strictly_decreasing, qs; cbn [map]; solve_sorted).
  assert (Hi : strictly_increasing (qs [0.1; 0.3; 0.5; 0.7; 0.9]%Q))
    by (unfold strictly_increasing, qs; cbn [map]; solve_sorted).
  assert (Bd : (2 <= length (qs [0.9; 0.7; 0.5; 0.3; 0.1]%Q) <= 100)%nat)
    by (simpl; lia).
  assert (Bi : (2 <= length (qs [0.1; 0.3; 0.5; 0.7; 0.9]%Q) <= 100)%nat)
    by (simpl; lia).
  split; [| split].
  - split; [exact Bd | split; [exact Hd |]].
    exact (proj1 monotone_trend_description
             (qs [0.9; 0.7; 0.5; 0.3; 0.1]%Q) Bd Hd).
  - split; [exact Bi | split; [exact Hi |]].
    exact (proj1 (proj2 monotone_trend_description)
             (qs [0.1; 0.3; 0.5; 0.7; 0.9]%Q) Bi Hi).
  - eexists.
    match goal with
    | |- ?c = Return ?d /\ _ =>
        assert (H : c = Return d) by (vm_compute; reflexivity)
    end.
    split; [exact H |].
    exact (proj2 (proj2 (proj2 monotone_trend_description)) _ _ _ _ H).
Defined.

(** ** The range of the trend score *)

Lemma pairs_succ (n : nat) :
  (Z.of_nat (S n) * (Z.of_nat (S n) - 1) / 2
   = Z.of_nat n * (Z.of_nat n - 1) / 2 + Z.of_nat n)%Z.
Proof.
  replace (Z.of_nat (S n) * (Z.of_nat (S n) - 1))%Z
    with (Z.of_nat n * (Z.of_nat n - 1) + Z.of_nat n * 2)%Z by lia.
  rewrite Z.div_add by lia. reflexivity.
Qed.

Lemma count_pairs_nonneg {A : Type} (p : A -> A -> bool) (l : list A) :
  (0 <= count_pairs p l)%Z.
Proof. induction l as [| a t IH]; cbn [count_pairs]; lia. Qed.

Lemma filter_disjoint_length {A : Type} (f g : A -> bool) (l : list A) :
  (forall a, f a = true -> g a = false) ->
  (length (filter f l) + length (filter g l) <= length l)%nat.
Proof.
  intro H. induction l as [| a t IH]; cbn [filter length]; [lia |].
  destruct (f a) eqn:Ef.
  - rewrite (H a Ef). cbn [length]. lia.
  - destruct (g a); cbn [length]; lia.
Qed.

(** Two kinds of pairs that exclude each other are together at most all
    the pairs. *)
Lemma count_pairs_disjoint {A : Type} (p q : A -> A -> bool) (l : list A) :
  (forall a b, p a b = true -> q a b = false) ->
  (count_pairs p l + count_pairs q l
   <= Z.of_nat (length l) * (Z.of_nat (length l) - 1) / 2)%Z.
Proof.
  intro H. induction l as [| a t IH]; [cbn; lia |].
  cbn [count_pairs length]. rewrite pairs_succ.
  pose proof (filter_disjoint_length (p a) (q a) t (H a)). lia.
Qed.

Lemma count_pairs_le {A : Type} (p : A -> A -> bool) (l : list A) :
  (count_pairs p l <= Z.of_nat (length l) * (Z.of_nat (length l) - 1) / 2)%Z.
Proof.
  pose proof (count_pairs_disjoint p (fun _ _ => false) l
                (fun _ _ _ => eq_refl)) as H.
  pose proof (count_pairs_nonneg (fun _ _ : A => false) l). lia.
Qed.

Lemma filter_full {A : Type} (f : A -> bool) (l : list A) :
  length (filter f l) = length l -> forall a, In a l -> f a = true.
Proof.
  induction l as [| b t IH]; intros H a Ha; [destruct Ha |].
  cbn [filter] in H. destruct (f b) eqn:Ef.
  - destruct Ha as [<- | Ha]; [exact Ef |].
    apply IH; [cbn [length] in H; lia | exact Ha].
  - pose proof (filter_length_mono f (fun _ => true) t
                  (fun _ _ => eq_refl)) as Hl.
    rewrite (filter_all (fun _ => true)) in Hl by reflexivity.
    cbn [length] in H. lia.
Qed.

(** When every pair counts, the head is paired with every later element. *)
Lemma count_pairs_full_head {A : Type} (p : A -> A -> bool) (a : A)
    (t : list A) :
  count_pairs p (a :: t)
  = (Z.of_nat (length (a :: t)) * (Z.of_nat (length (a :: t)) - 1) / 2)%Z ->
  forall b, In b t -> p a b = true.
Proof.
  cbn [count_pairs length]. rewrite pairs_succ. intro H.
  apply filter_full.
  pose proof (count_pairs_le p t) as H1.
  pose proof (filter_length_mono (p a) (fun _ => true) t
                (fun _ _ => eq_refl)) as H2.
  rewrite (filter_all (fun _ => true)) in H2 by reflexivity. lia.
Qed.

Lemma StronglySorted_True {A : Type} (l : list A) :
  StronglySorted (fun _ _ => True) l.
Proof.
  induction l as [| a t IH]; constructor; [exact IH |].
  apply Forall_forall. intros. exact I.
Qed.

Lemma combine_In_r {A B : Type} (x : list A) (y : list B) (b : B) :
  length x = length y -> In b y -> exists a, In (a, b) (combine x y).
Proof.
  revert y. induction x as [| a x IH]; intros [| b' y] El Hb;
    try discriminate; [destruct Hb |].
  destruct Hb as [<- | Hb].
  - exists a. left. reflexivity.
  - destruct (IH y ltac:(simpl in El; lia) Hb) as [a' Ha'].
    exists a'. right. exact Ha'.
Qed.

(** When every pair is tied in [y], [y] is constant. *)
Lemma tied_y_full_constant (x : list Z) (l : list Qc) :
  length x = length l ->
  count_pairs tied_y (combine x l)
  = (Z.of_nat (length l) * (Z.of_nat (length l) - 1) / 2)%Z ->
  forall v, In v l -> v = hd 0 l.
Proof.
  intros Ex Ey v Hv. destruct l as [| a t]; [destruct Hv |].
  destruct x as [| x0 xt]; [discriminate |].
  cbn [hd]. destruct Hv as [<- | Hv]; [reflexivity |].
  assert (Ext : length xt = length t) by (simpl in Ex; lia).
  destruct (combine_In_r xt t v Ext Hv) as [z Hz].
  assert (Hfull : forall b, In b (combine xt t) -> tied_y (x0, a) b = true).
  { apply count_pairs_full_head. cbn [combine] in Ey. rewrite Ey.
    cbn [length]. rewrite length_combine, Ext, Nat.min_id. reflexivity. }
  specialize (Hfull (z, v) Hz). unfold tied_y in Hfull.
  apply Qceqb_eq in Hfull. symmetry. exact Hfull.
Qed.

(** [kendalltau] as [calculate_rankfit_t] calls it: the positions are
    untied, so the result is NaN exactly when every pair is tied in the
    rates, and tau-b of the counts otherwise. *)
Lemma bin_indices_pairs_sorted (l : list Qc) :
  StronglySorted (fun a b : Z * Qc => (fst b < fst a)%Z)
    (combine (map (fun i => (- i)%Z) (range (Z.of_nat (length l)))) l).
Proof.
  apply (StronglySorted_impl (fun a b => (fst b < fst a)%Z /\ True));
    [intros a b [H _]; exact H |].
  apply (StronglySorted_combine (fun a b => (b < a)%Z) (fun _ _ => True));
    [apply bin_indices_sorted | apply StronglySorted_True].
Qed.

Lemma bin_indices_pairs_length (l : list Qc) :
  length (combine (map (fun i => (- i)%Z) (range (Z.of_nat (length l)))) l)
  = length l.
Proof. rewrite length_combine, bin_indices_length. apply Nat.min_id. Qed.

Lemma kendalltau_counts (l : list Qc) :
  (2 <= length l)%nat ->
  kendalltau (map (fun i => (- i)%Z) (range (Z.of_nat (length l)))) l
  = let xy :=
      combine (map (fun i => (- i)%Z) (range (Z.of_nat (length l)))) l in
    let tot := (Z.of_nat (length l) * (Z.of_nat (length l) - 1) / 2)%Z in
    let ytie := count_pairs tied_y xy in
    let dis := count_pairs discordant xy in
    if (ytie =? tot)%Z then nan else tau_b tot ytie (tot - ytie - 2 * dis).
Proof.
  intro Hlen. unfold kendalltau. cbv zeta.
  pose proof (bin_indices_pairs_sorted l) as Hs.
  rewrite (bin_indices_pairs_length l).
  set (xy := combine _ l) in *.
  rewrite (count_pairs_none _ tied_xy _ Hs), (count_pairs_none _ tied_x _ Hs).
  2: { intros a b H. unfold tied_x. apply Z.eqb_neq. lia. }
  2: { intros a b H. unfold tied_xy, tied_x. apply andb_false_iff. left.
       apply Z.eqb_neq. lia. }
  pose proof (pairs_positive _ Hlen) as Hpos.
  set (tot := (Z.of_nat (length l) * (Z.of_nat (length l) - 1) / 2)%Z) in *.
  destruct (Z.of_nat (length l) =? 0)%Z eqn:E0;
    [apply Z.eqb_eq in E0; lia |].
  destruct (0 =? tot)%Z eqn:E1; [apply Z.eqb_eq in E1; lia |].
  cbn [orb]. destruct (count_pairs tied_y xy =? tot)%Z; [reflexivity |].
  unfold tau_b.
  replace (tot - 0 - count_pairs tied_y xy + 0
           - 2 * count_pairs discordant xy)%Z
    with (tot - count_pairs tied_y xy - 2 * count_pairs discordant xy)%Z
    by lia.
  replace (tot - 0)%Z with tot by lia. reflexivity.
Qed.

Lemma tied_not_discordant (a b : Z * Qc) :
  tied_y a b = true -> discordant a b = false.
Proof.
  intro H. unfold tied_y in H. apply Qceqb_eq in H.
  unfold discordant. rewrite H.
  assert (E : Qcltb (snd b) (snd b) = false) by (apply Qcltb_ge, Qcle_refl).
  rewrite E, !andb_false_r. reflexivity.
Qed.

Lemma kendalltau_bin_indices (l : list Qc) :
  (2 <= length l)%nat ->
  exists ytie cmd : Z,
    let tot := (Z.of_nat (length l) * (Z.of_nat (length l) - 1) / 2)%Z in
    (0 <= ytie <= tot)%Z /\ (- (tot - ytie) <= cmd <= tot - ytie)%Z
    /\ (ytie = tot -> forall v, In v l -> v = hd 0 l)
    /\ kendalltau (map (fun i => (- i)%Z) (range (Z.of_nat (length l)))) l
       = if (ytie =? tot)%Z then nan else tau_b tot ytie cmd.
Proof.
  intro Hlen. rewrite (kendalltau_counts l Hlen). cbv zeta.
  set (x := map (fun i => (- i)%Z) (range (Z.of_nat (length l)))).
  pose proof (count_pairs_nonneg tied_y (combine x l)) as Hy0.
  pose proof (count_pairs_nonneg discordant (combine x l)) as Hd0.
  pose proof (count_pairs_disjoint tied_y discordant (combine x l)
                tied_not_discordant) as Hyd.
  pose proof (count_pairs_le tied_y (combine x l)) as Hy1.
  subst x. rewrite (bin_indices_pairs_length l) in Hyd, Hy1.
  eexists. eexists. split; [| split; [| split; [| reflexivity]]].
  - lia.
  - lia.
  - apply tied_y_full_constant. apply bin_indices_length.
Qed.

Lemma zrange_from_In (lo z : Z) (n : nat) :
  (lo <= z < lo + Z.of_nat n)%Z -> In z (zrange_from lo n).
Proof.
  revert lo. induction n as [| n IH]; intros lo H; [lia |].
  cbn [zrange_from]. destruct (Z.eq_dec lo z) as [E | E];
    [left; exact E | right; apply IH; lia].
Qed.

Lemma zrange_In (lo n z : Z) :
  (lo <= z < lo + n)%Z -> In z (zrange lo n).
Proof. intro H. unfold zrange. apply zrange_from_In. lia. Qed.

(** The trend scores of 2 to 20 segments, by evaluation. *)
Lemma tau_b_in_unit_interval (n : nat) (ytie cmd : Z) :
  (2 <= n <= 20)%nat ->
  (0 <= ytie < Z.of_nat n * (Z.of_nat n - 1) / 2)%Z ->
  (- (Z.of_nat n * (Z.of_nat n - 1) / 2 - ytie) <= cmd
   <= Z.of_nat n * (Z.of_nat n - 1) / 2 - ytie)%Z ->
  in_unit_interval
    ((tau_b (Z.of_nat n * (Z.of_nat n - 1) / 2) ytie cmd + 1) / 2)%float
  = true.
Proof.
  intros Hn Hy Hc.
  assert (H : forallb trend_scores_in_range (seq 2 19) = true)
    by (vm_compute; reflexivity).
  rewrite forallb_forall in H. specialize (H n ltac:(apply in_seq; lia)).
  unfold trend_scores_in_range in H. cbv zeta in H.
  rewrite forallb_forall in H.
  specialize (H ytie ltac:(apply zrange_In; lia)). cbv beta in H.
  rewrite forallb_forall in H. apply H. apply zrange_In. lia.
Qed.

Lemma varied_or_constant (l : list Qc) :
  varied l \/ forall v, In v l -> v = hd 0 l.
Proof.
  destruct (Forall_Exists_dec (fun v => v = hd 0 l)
              (fun v => Qc_eq_dec v (hd 0 l)) l) as [H | H].
  - right. rewrite Forall_forall in H. exact H.
  - left. apply Exists_exists in H. destruct H as [v [Hv Hne]].
    exists v, (hd 0 l). split; [exact Hv | split; [| exact Hne]].
    destruct l as [| a t]; [destruct Hv | left; reflexivity].
Qed.

Lemma rankfit_t_range (l : list Qc) :
  (length l <= 20)%nat ->
  in_unit_interval (calculate_rankfit_t l) = true
  <-> ((length l < 2)%nat \/ varied l).
Proof.
  intro Hlen. destruct (Nat.ltb_spec (length l) 2) as [Hs | Hs].
  - unfold calculate_rankfit_t.
    assert (E : (length l <? 2)%nat = true) by (apply Nat.ltb_lt; exact Hs).
    rewrite E. split; [intros _; left; exact Hs | intros _; reflexivity].
  - split.
    + intro H. right. destruct (varied_or_constant l) as [Hv | Hc];
        [exact Hv |].
      rewrite (calculate_rankfit_t_constant l (hd 0 l) Hs Hc) in H.
      discriminate.
    + intros [Hlt | [u [w [Hu [Hw Hne]]]]]; [lia |].
      unfold calculate_rankfit_t.
      assert (E : (length l <? 2)%nat = false)
        by (apply Nat.ltb_ge; exact Hs).
      rewrite E. cbv zeta. unfold is_not_None.
      destruct (kendalltau_bin_indices l Hs)
        as [ytie [cmd [Hy [Hc [Hfull ->]]]]].
      cbv zeta in Hy, Hc, Hfull.
      destruct (ytie =? _)%Z eqn:Ey.
      * apply Z.eqb_eq in Ey. exfalso. apply Hne.
        rewrite (Hfull Ey u Hu), (Hfull Ey w Hw). reflexivity.
      * apply Z.eqb_neq in Ey. apply tau_b_in_unit_interval; lia.
Qed.

(** X17.  For up to 20 segments the trend score is within [0, 1] exactly
    when there are fewer than two segments or two event rates differ; so it
    is for every result of an analyzer with [n_bins <= 20].  The only values
    outside are the NaN of segments sharing one rate. *)
Theorem rankfit_t_in_unit_interval_iff :
  (forall l : list Qc,
      (length l <= 20)%nat ->
      (in_unit_interval (calculate_rankfit_t l) = true
       <-> ((length l < 2)%nat \/ varied l)))
  /\ (forall (n_bins : Z) (y_scores y_true : list Qc) (r : results),
         (n_bins <= 20)%Z ->
         calculate_metrics n_bins y_scores y_true = Return r ->
         (in_unit_interval (rankfit_t r) = true
          <-> ((length (bin_stats r) < 2)%nat
               \/ varied (map actual_mean (bin_stats r))))).
Proof.
  split; [exact rankfit_t_range |].
  intros n_bins y_scores y_true r Hn H. unfold calculate_metrics in H.
  destruct (binned_frame n_bins y_scores y_true) as [df | e] eqn:Hdf;
    cbn [bind] in H; [| discriminate].
  injection H as <-. cbn [bin_stats rankfit_t].
  rewrite <- (length_map actual_mean (groupby_agg df)) at 1.
  apply rankfit_t_range.
  rewrite length_map, groupby_agg_length.
  assert (Hk : (length (group_keys df) <= Z.to_nat n_bins)%nat).
  { apply sorted_below_length; [apply group_keys_sorted |].
    intros k Hk. exact (group_keys_below _ _ _ _ _ Hdf Hk). }
  lia.
Qed.

Lemma rankfit_t_in_unit_interval_iff_witness :
  ((length (qs [0.2; 0.5; 0.3; 0.1]%Q) <= 20)%nat
   /\ varied (qs [0.2; 0.5; 0.3; 0.1]%Q)
   /\ in_unit_interval (calculate_rankfit_t (qs [0.2; 0.5; 0.3; 0.1]%Q))
      = true)
  /\ exists r,
       (10 <= 20)%Z
       /\ calculate_metrics 10 (qs [1; 2; 3; 4; 5; 6]%Q)
            (qs [0; 1; 0; 1; 1; 0]%Q) = Return r
       /\ (in_unit_interval (rankfit_t r) = true
           <-> ((length (bin_stats r) < 2)%nat
                \/ varied (map actual_mean (bin_stats r)))).
Proof.
  assert (Hl : (length (qs [0.2; 0.5; 0.3; 0.1]%Q) <= 20)%nat)
    by (simpl; lia).
  assert (Hv : varied (qs [0.2; 0.5; 0.3; 0.1]%Q)).
  { exists (Q2Qc 0.2), (Q2Qc 0.5).
    split; [left; reflexivity | split; [right; left; reflexivity |]].
    discriminate. }
  assert (Hn : (10 <= 20)%Z) by lia.
  split.
  - split; [exact Hl | split; [exact Hv |]].
    exact (proj2 (proj1 rankfit_t_in_unit_interval_iff
                    (qs [0.2; 0.5; 0.3; 0.1]%Q) Hl) (or_intror Hv)).
  - eexists. split; [exact Hn |].
    match goal with
    | |- ?c = Return ?d /\ _ =>
        assert (H : c = Return d) by (vm_compute; reflexivity)
    end.
    split; [exact H |].
    exact (proj2 rankfit_t_in_unit_interval_iff 10%Z _ _ _ Hn H).
Defined.

(** ** The order of the examples *)

Lemma sorted_perm_eq (l1 l2 : list Qc) :
  StronglySorted Qcle l1 -> StronglySorted Qcle l2 -> Permutation l1 l2 ->
  l1 = l2.
Proof.
  intro H1. revert l2. induction H1 as [| a t1 H1 IH Ha]; intros l2 H2 P.
  - apply Permutation_nil in P. subst l2. reflexivity.
  - destruct H2 as [| b t2 H2 Hb].
    + apply Permutation_sym, Permutation_nil in P. discriminate.
    + assert (E : a = b).
      { rewrite Forall_forall in Ha, Hb.
        assert (Hab : In b (a :: t1))
          by (apply (Permutation_in _ (Permutation_sym P)); left; reflexivity).
        assert (Hba : In a (b :: t2))
          by (apply (Permutation_in _ P); left; reflexivity).
        destruct Hab as [E | Hab]; [exact E |].
        destruct Hba as [E | Hba]; [symmetry; exact E |].
        apply Qcle_antisym; [apply Ha; exact Hab | apply Hb; exact Hba]. }
      subst b. f_equal. apply IH; [exact H2 |].
      exact (Permutation_cons_inv P).
Qed.

Lemma sort_perm (x x' : list Qc) :
  Permutation x x' -> QcSort.sort x = QcSort.sort x'.
Proof.
  intro P. apply sorted_perm_eq; try apply sort_StronglySorted.
  apply (Permutation_trans (Permutation_sym (QcSort.Permuted_sort x))).
  apply (Permutation_trans P). apply QcSort.Permuted_sort.
Qed.

Lemma quantile_edges_perm (x x' : list Qc) (q : Z) :
  Permutation x x' -> quantile_edges x q = quantile_edges x' q.
Proof.
  intro P. unfold quantile_edges, quantile. rewrite (sort_perm x x' P).
  reflexivity.
Qed.

Lemma series_max_perm (c c' : list (option nat)) :
  Permutation c c' -> series_max c = series_max c'.
Proof.
  assert (Hle : forall c c' t, Permutation c c' -> series_max c = Some t ->
                  exists t', series_max c' = Some t' /\ (t <= t')%nat).
  { intros d d' t P E. apply series_max_bound.
    apply (Permutation_in _ P), series_max_In, E. }
  intro P. destruct (series_max c) as [t |] eqn:E.
  - destruct (Hle c c' t P E) as [t' [E' L]]. rewrite E'.
    destruct (Hle c' c t' (Permutation_sym P) E') as [t'' [E'' L']].
    rewrite E in E''. injection E'' as <-. f_equal. lia.
  - destruct (series_max c') as [t' |] eqn:E'; [| reflexivity].
    destruct (Hle c' c t' (Permutation_sym P) E') as [t'' [E'' _]].
    congruence.
Qed.

Lemma filter_perm {A : Type} (f : A -> bool) (l l' : list A) :
  Permutation l l' -> Permutation (filter f l) (filter f l').
Proof.
  induction 1 as [| a l l' _ IH | a b l | l l' l'' _ IH1 _ IH2];
    cbn [filter].
  - constructor.
  - destruct (f a); [constructor |]; exact IH.
  - destruct (f a), (f b); try apply Permutation_refl. apply perm_swap.
  - exact (Permutation_trans IH1 IH2).
Qed.

Lemma np_sum_perm (l l' : list Qc) :
  Permutation l l' -> np_sum l = np_sum l'.
Proof.
  induction 1 as [| a l l' _ IH | a b l | l l' l'' _ IH1 _ IH2].
  - reflexivity.
  - rewrite !np_sum_cons, IH. reflexivity.
  - rewrite !np_sum_cons. qc_lra.
  - congruence.
Qed.

Lemma mean_perm (l l' : list Qc) : Permutation l l' -> mean l = mean l'.
Proof.
  intro P. unfold mean.
  rewrite (np_sum_perm l l' P), (Permutation_length P). reflexivity.
Qed.

Lemma sorted_keys_ext (l1 l2 : list nat) :
  StronglySorted lt l1 -> StronglySorted lt l2 ->
  (forall k, In k l1 <-> In k l2) -> l1 = l2.
Proof.
  intro H1. revert l2. induction H1 as [| a t1 H1 IH Ha]; intros l2 H2 E.
  - destruct l2 as [| b t2]; [reflexivity |].
    destruct (proj2 (E b) (or_introl eq_refl)).
  - destruct H2 as [| b t2 H2 Hb].
    + destruct (proj1 (E a) (or_introl eq_refl)).
    + rewrite Forall_forall in Ha, Hb.
      assert (Eab : a = b).
      { destruct (proj1 (E a) (or_introl eq_refl)) as [Hx | Hx];
          [symmetry; exact Hx |].
        destruct (proj2 (E b) (or_introl eq_refl)) as [Hy | Hy];
          [exact Hy |].
        specialize (Ha b Hy). specialize (Hb a Hx). lia. }
      subst b. f_equal. apply IH; [exact H2 |].
      intro k. split; intro Hk.
      * destruct (proj1 (E k) (or_intror Hk)) as [Hx | Hx]; [| exact Hx].
        specialize (Ha k Hk). lia.
      * destruct (proj2 (E k) (or_intror Hk)) as [Hx | Hx]; [| exact Hx].
        specialize (Hb k Hk). lia.
Qed.

(** The aggregation does not depend on the order of the rows. *)
Lemma groupby_agg_perm (df df' : list row) :
  Permutation df df' -> groupby_agg df = groupby_agg df'.
Proof.
  intro P. unfold groupby_agg.
  assert (Ek : group_keys df = group_keys df').
  { apply sorted_keys_ext; try apply group_keys_sorted.
    intro k. rewrite !group_keys_In.
    split; intros [r [Hr Eb]]; exists r; split; try exact Eb.
    - exact (Permutation_in _ P Hr).
    - exact (Permutation_in _ (Permutation_sym P) Hr). }
  rewrite Ek. apply map_ext. intro k.
  pose proof (filter_perm (in_bin k) df df' P) as Pg. fold (group df k) in Pg.
  fold (group df' k) in Pg.
  rewrite (mean_perm _ _ (Permutation_map actual Pg)),
    (mean_perm _ _ (Permutation_map score Pg)), (Permutation_length Pg).
  reflexivity.
Qed.

(** X18.  For outcomes in {0, 1}, whose sums are exact in binary64, and
    [n_bins >= 1], the order of the examples does not matter: reordering
    the (score, outcome) pairs gives the same bin labels, counts, event
    rates, violations and scores. *)
Theorem example_order_irrelevant (n_bins : Z)
    (y_scores y_true y_scores' y_true' : list Qc) :
  (1 <= n_bins)%Z -> y_scores <> [] ->
  length y_scores = length y_true -> length y_scores' = length y_true' ->
  forallb binary y_true = true ->
  Permutation (combine y_scores y_true) (combine y_scores' y_true') ->
  exists r r',
    calculate_metrics n_bins y_scores y_true = Return r
    /\ calculate_metrics n_bins y_scores' y_true' = Return r'
    /\ map bs_bin (bin_stats r) = map bs_bin (bin_stats r')
    /\ map actual_count (bin_stats r) = map actual_count (bin_stats r')
    /\ map actual_mean (bin_stats r) = map actual_mean (bin_stats r')
    /\ violations r = violations r'
    /\ rankfit_v r = rankfit_v r' /\ rankfit_t r = rankfit_t r'.
Proof.
  intros Hn Hx El El' _ P.
  assert (Ps : Permutation y_scores y_scores').
  { rewrite <- (map_fst_combine_eq y_scores y_true El),
      <- (map_fst_combine_eq y_scores' y_true' El').
    apply Permutation_map. exact P. }
  assert (Hx' : y_scores' <> []).
  { intro E. subst y_scores'. apply Permutation_sym, Permutation_nil in Ps.
    contradiction. }
  unfold calculate_metrics.
  rewrite (binned_frame_spec n_bins _ y_true El Hx) by lia.
  rewrite (binned_frame_spec n_bins _ y_true' El' Hx') by lia.
  cbn [bind].
  rewrite <- (quantile_edges_perm _ _ n_bins Ps).
  set (edges := quantile_edges y_scores n_bins).
  rewrite <- (series_max_perm _ _ (Permutation_map (bin_label edges) Ps)).
  set (top := series_max (map (bin_label edges) y_scores)).
  rewrite (groupby_agg_perm _ _
             (Permutation_map (binned_row edges top) P)).
  eexists. eexists. split; [reflexivity | split; [reflexivity |]].
  cbn [bin_stats violations rankfit_v rankfit_t]. repeat split.
Qed.

Lemma example_order_irrelevant_witness :
  (1 <= 3)%Z /\ qs [5; 1; 4; 2; 6; 3]%Q <> []
  /\ length (qs [5; 1; 4; 2; 6; 3]%Q) = length (qs [1; 0; 1; 0; 1; 1]%Q)
  /\ length (qs [1; 5; 2; 4; 3; 6]%Q) = length (qs [0; 1; 0; 1; 1; 1]%Q)
  /\ forallb binary (qs [1; 0; 1; 0; 1; 1]%Q) = true
  /\ Permutation
       (combine (qs [5; 1; 4; 2; 6; 3]%Q) (qs [1; 0; 1; 0; 1; 1]%Q))
       (combine (qs [1; 5; 2; 4; 3; 6]%Q) (qs [0; 1; 0; 1; 1; 1]%Q))
  /\ exists r r',
       calculate_metrics 3 (qs [5; 1; 4; 2; 6; 3]%Q)
         (qs [1; 0; 1; 0; 1; 1]%Q) = Return r
       /\ calculate_metrics 3 (qs [1; 5; 2; 4; 3; 6]%Q)
            (qs [0; 1; 0; 1; 1; 1]%Q) = Return r'
       /\ map bs_bin (bin_stats r) = map bs_bin (bin_stats r')
       /\ map actual_count (bin_stats r) = map actual_count (bin_stats r')
       /\ map actual_mean (bin_stats r) = map actual_mean (bin_stats r')
       /\ violations r = violations r'
       /\ rankfit_v r = rankfit_v r' /\ rankfit_t r = rankfit_t r'.
Proof.
  assert (Hn : (1 <= 3)%Z) by lia.
  assert (Hx : qs [5; 1; 4; 2; 6; 3]%Q <> []) by discriminate.
  assert (El : length (qs [5; 1; 4; 2; 6; 3]%Q)
               = length (qs [1; 0; 1; 0; 1; 1]%Q)) by reflexivity.
  assert (El' : length (qs [1; 5; 2; 4; 3; 6]%Q)
                = length (qs [0; 1; 0; 1; 1; 1]%Q)) by reflexivity.
  assert (Hb : forallb binary (qs [1; 0; 1; 0; 1; 1]%Q) = true)
    by (vm_compute; reflexivity).
  assert (P : Permutation
                (combine (qs [5; 1; 4; 2; 6; 3]%Q)
                         (qs [1; 0; 1; 0; 1; 1]%Q))
                (combine (qs [1; 5; 2; 4; 3; 6]%Q)
                         (qs [0; 1; 0; 1; 1; 1]%Q))).
  { unfold qs. cbn [map combine].
    eapply perm_trans; [apply perm_swap |]. apply perm_skip, perm_skip.
    eapply perm_trans; [apply perm_swap |]. apply perm_skip, perm_skip.
    apply perm_swap. }
  split; [exact Hn | split; [exact Hx | split; [exact El | split;
    [exact El' | split; [exact Hb | split; [exact P |]]]]]].
  exact (example_order_irrelevant 3 _ _ _ _ Hn Hx El El' Hb P).
Defined.

(** ** Monotone rates and the trend score *)

Lemma adjacent_StronglySorted (R : Qc -> Qc -> Prop) (l : list Qc) :
  (forall a b c, R a b -> R b c -> R a c) ->
  (forall i, (i + 1 < length l)%nat -> R (nth i l 0) (nth (i + 1) l 0)) ->
  StronglySorted R l.
Proof.
  intros Ht. induction l as [| a t IH]; intro H; [constructor |].
  assert (Hs : StronglySorted R t).
  { apply IH. intros i Hi. apply (H (S i)). simpl. lia. }
  constructor; [exact Hs |].
  destruct Hs as [| b t' Hs Hb]; [constructor |].
  assert (Hab : R a b) by (apply (H 0%nat); simpl; lia).
  constructor; [exact Hab |].
  rewrite Forall_forall in *. intros x Hx.
  exact (Ht _ _ _ Hab (Hb x Hx)).
Qed.

Lemma non_increasing_sorted (l : list Qc) :
  non_increasing l -> StronglySorted (fun a b => b <= a) l.
Proof.
  intro H. apply adjacent_StronglySorted; [| exact H].
  intros a b c Hab Hbc. exact (Qcle_trans _ _ _ Hbc Hab).
Qed.

Lemma non_decreasing_sorted (l : list Qc) :
  non_decreasing l -> StronglySorted Qcle l.
Proof.
  intro H. apply adjacent_StronglySorted; [| exact H].
  intros a b c. apply Qcle_trans.
Qed.

(** Under an order in which a pair is of the second kind exactly when it
    is not of the first, the two kinds are together all the pairs. *)
Lemma count_pairs_complement {A : Type} (R : A -> A -> Prop)
    (p q : A -> A -> bool) (l : list A) :
  StronglySorted R l -> (forall a b, R a b -> q a b = negb (p a b)) ->
  (count_pairs p l + count_pairs q l
   = Z.of_nat (length l) * (Z.of_nat (length l) - 1) / 2)%Z.
Proof.
  intros Hs H. induction Hs as [| a t _ IH Ha]; [reflexivity |].
  cbn [count_pairs length]. rewrite pairs_succ.
  assert (E : filter (q a) t = filter (fun b => negb (p a b)) t).
  { apply filter_ext_in. intros b Hb. apply H.
    rewrite Forall_forall in Ha. exact (Ha b Hb). }
  rewrite E. pose proof (filter_length (p a) t). lia.
Qed.

Lemma varied_not_all_tied (l : list Qc) :
  varied l ->
  count_pairs tied_y
    (combine (map (fun i => (- i)%Z) (range (Z.of_nat (length l)))) l)
  <> (Z.of_nat (length l) * (Z.of_nat (length l) - 1) / 2)%Z.
Proof.
  intros [u [w [Hu [Hw Hne]]]] E. apply Hne.
  pose proof (tied_y_full_constant _ l (bin_indices_length (length l)) E)
    as Hc.
  rewrite (Hc u Hu), (Hc w Hw). reflexivity.
Qed.

(** The trend scores of monotone rates over 2 to 50 segments, by
    evaluation. *)
Lemma monotone_tau_values (n : nat) (ytie : Z) :
  (2 <= n <= 50)%nat ->
  (0 <= ytie < Z.of_nat n * (Z.of_nat n - 1) / 2)%Z ->
  let tot := (Z.of_nat n * (Z.of_nat n - 1) / 2)%Z in
  let up := ((tau_b tot ytie (tot - ytie) + 1) / 2)%float in
  let down := ((tau_b tot ytie (- (tot - ytie)) + 1) / 2)%float in
  (PrimFloat.ltb 0.5 up = true /\ PrimFloat.leb up 1 = true)
  /\ (PrimFloat.leb 0 down = true /\ PrimFloat.ltb down 0.5 = true).
Proof.
  intros Hn Hy.
  assert (H : forallb monotone_scores_apart (seq 2 49) = true)
    by (vm_compute; reflexivity).
  rewrite forallb_forall in H. specialize (H n ltac:(apply in_seq; lia)).
  unfold monotone_scores_apart in H. cbv zeta in H.
  rewrite forallb_forall in H.
  specialize (H ytie ltac:(apply zrange_In; lia)). cbv beta in H.
  cbv zeta. apply andb_true_iff in H. destruct H as [H H4].
  apply andb_true_iff in H. destruct H as [H H3].
  apply andb_true_iff in H. destruct H as [H1 H2]. tauto.
Qed.

Lemma rankfit_t_non_increasing (l : list Qc) :
  (2 <= length l <= 50)%nat -> varied l -> non_increasing l ->
  PrimFloat.ltb 0.5 (calculate_rankfit_t l) = true
  /\ PrimFloat.leb (calculate_rankfit_t l) 1 = true.
Proof.
  intros Hlen Hv Hm. unfold calculate_rankfit_t.
  assert (E : (length l <? 2)%nat = false) by (apply Nat.ltb_ge; lia).
  rewrite E. cbv zeta. unfold is_not_None.
  rewrite (kendalltau_counts l) by lia. cbv zeta.
  pose proof (varied_not_all_tied l Hv) as Hy.
  set (xy := combine _ l) in *.
  assert (Hd : count_pairs discordant xy = 0%Z).
  { apply (count_pairs_none
             (fun a b => (fst b < fst a)%Z /\ snd b <= snd a)).
    - subst xy.
      apply (StronglySorted_combine (fun a b => (b < a)%Z)
               (fun a b => b <= a));
        [apply bin_indices_sorted | apply non_increasing_sorted, Hm].
    - intros a b [Hx Hle]. unfold discordant.
      apply orb_false_iff. split; apply andb_false_iff.
      + left. apply Z.ltb_ge. lia.
      + right. apply Qcltb_ge. exact Hle. }
  rewrite Hd.
  pose proof (count_pairs_nonneg tied_y xy) as Hy0.
  pose proof (count_pairs_le tied_y xy) as Hy1.
  subst xy. rewrite (bin_indices_pairs_length l) in Hy1.
  set (ytie := count_pairs tied_y _) in *.
  set (tot := (Z.of_nat (length l) * (Z.of_nat (length l) - 1) / 2)%Z) in *.
  destruct (ytie =? tot)%Z eqn:Ey; [apply Z.eqb_eq in Ey; contradiction |].
  replace (tot - ytie - 2 * 0)%Z with (tot - ytie)%Z by lia.
  apply (monotone_tau_values (length l) ytie); [exact Hlen |].
  fold tot. lia.
Qed.

Lemma rankfit_t_non_decreasing (l : list Qc) :
  (2 <= length l <= 50)%nat -> varied l -> non_decreasing l ->
  PrimFloat.leb 0 (calculate_rankfit_t l) = true
  /\ PrimFloat.ltb (calculate_rankfit_t l) 0.5 = true.
Proof.
  intros Hlen Hv Hm. unfold calculate_rankfit_t.
  assert (E : (length l <? 2)%nat = false) by (apply Nat.ltb_ge; lia).
  rewrite E. cbv zeta. unfold is_not_None.
  rewrite (kendalltau_counts l) by lia. cbv zeta.
  pose proof (varied_not_all_tied l Hv) as Hy.
  set (xy := combine _ l) in *.
  assert (Hd : (count_pairs tied_y xy + count_pairs discordant xy
                = Z.of_nat (length xy) * (Z.of_nat (length xy) - 1) / 2)%Z).
  { apply (count_pairs_complement
             (fun a b => (fst b < fst a)%Z /\ snd a <= snd b)).
    - subst xy.
      apply (StronglySorted_combine (fun a b => (b < a)%Z) Qcle);
        [apply bin_indices_sorted | apply non_decreasing_sorted, Hm].
    - intros a b [Hx Hle]. unfold discordant, tied_y.
      assert (E1 : (fst a <? fst b)%Z = false) by (apply Z.ltb_ge; lia).
      assert (E2 : (fst b <? fst a)%Z = true) by (apply Z.ltb_lt; exact Hx).
      rewrite E1, E2. cbn [andb orb].
      destruct (Qceqb (snd a) (snd b)) eqn:Eq; cbn [negb].
      + apply Qceqb_eq in Eq. rewrite Eq. apply Qcltb_ge, Qcle_refl.
      + apply Qceqb_neq in Eq. apply Qcltb_lt.
        apply Qcle_lt_or_eq in Hle. destruct Hle as [L | L];
          [exact L | contradiction]. }
  pose proof (count_pairs_nonneg tied_y xy) as Hy0.
  subst xy. rewrite (bin_indices_pairs_length l) in Hd.
  set (ytie := count_pairs tied_y _) in *.
  set (dis := count_pairs discordant _) in *.
  set (tot := (Z.of_nat (length l) * (Z.of_nat (length l) - 1) / 2)%Z) in *.
  destruct (ytie =? tot)%Z eqn:Ey; [apply Z.eqb_eq in Ey; contradiction |].
  pose proof (count_pairs_nonneg discordant
                (combine (map (fun i => (- i)%Z)
                              (range (Z.of_nat (length l)))) l)) as Hd0.
  fold dis in Hd0.
  replace (tot - ytie - 2 * dis)%Z with (- (tot - ytie))%Z by lia.
  apply (monotone_tau_values (length l) ytie); [exact Hlen |].
  fold tot. lia.
Qed.

(** X19.  The two scores agree on monotone rates over 2 to 50 segments
    that are not all equal: without a violation the trend score is above
    one half (and at most 1.0); when no rate falls below the one before it,
    the trend score is below one half.  So a result of an analyzer with
    [n_bins <= 50] that has no violation and two different event rates is
    described as "Perfectly", "Strongly" or "Weakly Decreasing". *)
Theorem monotone_rates_trend_side :
  (forall l : list Qc,
      (2 <= length l <= 50)%nat -> varied l -> non_increasing l ->
      PrimFloat.ltb 0.5 (calculate_rankfit_t l) = true
      /\ PrimFloat.leb (calculate_rankfit_t l) 1 = true)
  /\ (forall l : list Qc,
         (2 <= length l <= 50)%nat -> varied l -> non_decreasing l ->
         PrimFloat.leb 0 (calculate_rankfit_t l) = true
         /\ PrimFloat.ltb (calculate_rankfit_t l) 0.5 = true)
  /\ (forall (n_bins : Z) (y_scores y_true : list Qc) (r : results),
         (n_bins <= 50)%Z ->
         calculate_metrics n_bins y_scores y_true = Return r ->
         violations r = [] -> varied (map actual_mean (bin_stats r)) ->
         PrimFloat.ltb 0.5 (rankfit_t r) = true
         /\ In (results_trend_desc r)
              ["Perfectly Decreasing"%string; "Strongly Decreasing"%string;
               "Weakly Decreasing"%string]).
Proof.
  split; [exact rankfit_t_non_increasing |].
  split; [exact rankfit_t_non_decreasing |].
  intros n_bins y_scores y_true r Hn H Hv Hvar.
  unfold results_trend_desc. rewrite Hv.
  unfold calculate_metrics in H.
  destruct (binned_frame n_bins y_scores y_true) as [df | e] eqn:Hdf;
    cbn [bind] in H; [| discriminate].
  injection H as <-. cbn [bin_stats rankfit_t violations] in *.
  assert (Hk : (length (group_keys df) <= Z.to_nat n_bins)%nat).
  { apply sorted_below_length; [apply group_keys_sorted |].
    intros k Hk. exact (group_keys_below _ _ _ _ _ Hdf Hk). }
  set (rates := map actual_mean (groupby_agg df)) in *.
  assert (Hlen : (2 <= length rates <= 50)%nat).
  { split.
    - destruct Hvar as [u [w [Hu [Hw Hne]]]].
      destruct rates as [| a [| b t]]; [destruct Hu | | simpl; lia].
      destruct Hu as [<- | []]. destruct Hw as [<- | []]. congruence.
    - subst rates. rewrite length_map, groupby_agg_length. lia. }
  apply find_violations_nil_iff in Hv.
  destruct (rankfit_t_non_increasing rates Hlen Hvar Hv) as [Hlt _].
  split; [exact Hlt |].
  unfold trend_desc. cbn [length Nat.ltb Nat.leb]. rewrite Hlt.
  destruct (PrimFloat.ltb float_0_95 _); [left; reflexivity |].
  destruct (PrimFloat.ltb float_0_7 _);
    [right; left; reflexivity | right; right; left; reflexivity].
Qed.

Lemma monotone_rates_trend_side_witness :
  ((2 <= length (qs [0.6; 0.6; 0.3; 0.3; 0.1]%Q) <= 50)%nat
   /\ varied (qs [0.6; 0.6; 0.3; 0.3; 0.1]%Q)
   /\ non_increasing (qs [0.6; 0.6; 0.3; 0.3; 0.1]%Q)
   /\ PrimFloat.ltb 0.5 (calculate_rankfit_t (qs [0.6; 0.6; 0.3; 0.3; 0.1]%Q))
      = true)
  /\ ((2 <= length (qs [0.1; 0.1; 0.3; 0.6; 0.6]%Q) <= 50)%nat
      /\ varied (qs [0.1; 0.1; 0.3; 0.6; 0.6]%Q)
      /\ non_decreasing (qs [0.1; 0.1; 0.3; 0.6; 0.6]%Q)
      /\ PrimFloat.ltb (calculate_rankfit_t (qs [0.1; 0.1; 0.3; 0.6; 0.6]%Q))
           0.5 = true)
  /\ exists r,
       (3 <= 50)%Z
       /\ calculate_metrics 3 (qs [1; 2; 3; 4; 5; 6]%Q)
            (qs [0; 0; 0; 1; 1; 1]%Q) = Return r
       /\ violations r = []
       /\ varied (map actual_mean (bin_stats r))
       /\ PrimFloat.ltb 0.5 (rankfit_t r) = true
       /\ In (results_trend_desc r)
            ["Perfectly Decreasing"%string; "Strongly Decreasing"%string;
             "Weakly Decreasing"%string].
Proof.
  assert (B1 : (2 <= length (qs [0.6; 0.6; 0.3; 0.3; 0.1]%Q) <= 50)%nat)
    by (simpl; lia).
  assert (V1 : varied (qs [0.6; 0.6; 0.3; 0.3; 0.1]%Q)).
  { exists (Q2Qc 0.6), (Q2Qc 0.3).
    split; [left; reflexivity |
            split; [right; right; left; reflexivity | discriminate]]. }
  assert (M1 : non_increasing (qs [0.6; 0.6; 0.3; 0.3; 0.1]%Q)).
  { intros i Hi. cbn [qs map length] in Hi.
    do 4 (destruct i as [| i]; [apply Qcleb_le; vm_compute; reflexivity |]).
    lia. }
  assert (B2 : (2 <= length (qs [0.1; 0.1; 0.3; 0.6; 0.6]%Q) <= 50)%nat)
    by (simpl; lia).
  assert (V2 : varied (qs [0.1; 0.1; 0.3; 0.6; 0.6]%Q)).
  { exists (Q2Qc 0.1), (Q2Qc 0.3).
    split; [left; reflexivity |
            split; [right; right; left; reflexivity | discriminate]]. }
  assert (M2 : non_decreasing (qs [0.1; 0.1; 0.3; 0.6; 0.6]%Q)).
  { intros i Hi. cbn [qs map length] in Hi.
    do 4 (destruct i as [| i]; [apply Qcleb_le; vm_compute; reflexivity |]).
    lia. }
  assert (Hn : (3 <= 50)%Z) by lia.
  split; [| split].
  - split; [exact B1 | split; [exact V1 | split; [exact M1 |]]].
    exact (proj1 (proj1 monotone_rates_trend_side _ B1 V1 M1)).
  - split; [exact B2 | split; [exact V2 | split; [exact M2 |]]].
    exact (proj2 (proj1 (proj2 monotone_rates_trend_side) _ B2 V2 M2)).
  - eexists. split; [exact Hn |].
    match goal with
    | |- ?c = Return ?d /\ _ =>
        assert (H : c = Return d) by (vm_compute; reflexivity)
    end.
    split; [exact H |].
    match type of H with
    | _ = Return ?d =>
        assert (Hv : violations d = []) by (vm_compute; reflexivity);
        assert (Hvar : varied (map actual_mean (bin_stats d)))
    end.
    { exists (Q2Qc 1), (Q2Qc 0).
      split; [left; apply Qc_is_canon; vm_compute; reflexivity |].
      split; [right; right; left; apply Qc_is_canon; vm_compute; reflexivity
             | discriminate]. }
    split; [exact Hv | split; [exact Hvar |]].
    exact (proj2 (proj2 monotone_rates_trend_side) 3%Z _ _ _ Hn H Hv Hvar).
Defined.

(** * The violation score in binary64 *)

(** ** The order of binary64 *)

Ltac split_compare :=
  repeat match goal with
         | |- context [(?a ?= ?b)%Z] => destruct (Z.compare_spec a b)
         | |- context [PosDef.Pos.compare_cont Eq ?p ?q] =>
             let C := fresh "C" in
             pose proof (Pos.compare_spec p q) as C;
             change (Pos.compare p q)
               with (PosDef.Pos.compare_cont Eq p q) in C;
             destruct C
         end.

Lemma SFleb_trans (x y z : spec_float) :
  SFleb x y = true -> SFleb y z = true -> SFleb x z = true.
Proof.
  unfold SFleb, SFcompare.
  destruct x as [sx | sx | | sx mx ex], y as [sy | sy | | sy my ey],
    z as [sz | sz | | sz mz ez];
    try discriminate; try reflexivity;
    repeat match goal with s : bool |- _ => destruct s end;
    try discriminate; try reflexivity;
    split_compare; cbn; intros; try discriminate; try reflexivity; lia.
Qed.

Lemma SFleb_total (x y : spec_float) :
  x <> S754_nan -> y <> S754_nan -> SFleb x y = false -> SFleb y x = true.
Proof.
  unfold SFleb, SFcompare.
  destruct x as [sx | sx | | sx mx ex], y as [sy | sy | | sy my ey];
    try congruence; intros _ _;
    repeat match goal with s : bool |- _ => destruct s end;
    try discriminate; try reflexivity;
    split_compare; cbn; intros; try discriminate; try reflexivity; lia.
Qed.

Lemma is_nan_spec (x : float) :
  PrimFloat.is_nan x = false -> Prim2SF x <> S754_nan.
Proof.
  unfold PrimFloat.is_nan. rewrite FloatAxioms.eqb_spec. intros H E.
  rewrite E in H. discriminate.
Qed.

Lemma float_leb_trans (x y z : float) :
  PrimFloat.leb x y = true -> PrimFloat.leb y z = true ->
  PrimFloat.leb x z = true.
Proof. rewrite !FloatAxioms.leb_spec. apply SFleb_trans. Qed.

Lemma float_leb_total (x y : float) :
  PrimFloat.is_nan x = false -> PrimFloat.is_nan y = false ->
  PrimFloat.leb x y = false -> PrimFloat.leb y x = true.
Proof.
  rewrite !FloatAxioms.leb_spec. intros Hx Hy.
  apply SFleb_total; apply is_nan_spec; assumption.
Qed.

Lemma float_leb_refl (x : float) :
  PrimFloat.is_nan x = false -> PrimFloat.leb x x = true.
Proof.
  intro H. destruct (PrimFloat.leb x x) eqn:E; [reflexivity |].
  pose proof (float_leb_total x x H H E) as E'. congruence.
Qed.

(** [0.0 / r] is a zero unless [r] is a zero or NaN. *)
Lemma zero_div (r : float) :
  PrimFloat.is_nan r = false -> PrimFloat.eqb r 0 = false ->
  (0 / r = 0 \/ 0 / r = -0)%float.
Proof.
  intros Hn Hz. pose proof (FloatAxioms.div_spec 0 r) as H.
  pose proof (is_nan_spec r Hn) as Hn'.
  rewrite FloatAxioms.eqb_spec in Hz.
  change (Prim2SF 0) with (S754_zero false) in *.
  assert (E : exists b, Prim2SF (0 / r) = S754_zero b).
  { rewrite H. unfold SF64div, SFdiv.
    destruct (Prim2SF r) as [s | s | | s m e];
      [discriminate | eexists; reflexivity | congruence
      | eexists; reflexivity]. }
  destruct E as [b E]. rewrite <- (SF2Prim_Prim2SF (0 / r)), E.
  destruct b; [right | left]; reflexivity.
Qed.

(** ** Maximum and minimum *)

Lemma fold_max_greatest (t : list float) (m0 : float) :
  PrimFloat.is_nan m0 = false -> no_nan t ->
  let m := fold_left (fun m v => if PrimFloat.leb v m || PrimFloat.is_nan m
                                 then m else v) t m0 in
  (m = m0 \/ In m t) /\ PrimFloat.is_nan m = false
  /\ PrimFloat.leb m0 m = true
  /\ forall x, In x t -> PrimFloat.leb x m = true.
Proof.
  revert m0. induction t as [| v t IH]; intros m0 H0 Ht; cbn [fold_left].
  - cbv zeta. repeat split; [left; reflexivity | exact H0
                            | apply float_leb_refl; exact H0 | intros x []].
  - assert (Hv : PrimFloat.is_nan v = false)
      by (apply Ht; left; reflexivity).
    assert (Ht' : no_nan t) by (intros x Hx; apply Ht; right; exact Hx).
    rewrite H0, orb_false_r. destruct (PrimFloat.leb v m0) eqn:E.
    + destruct (IH m0 H0 Ht') as [Hin [Hn [Hle Hall]]]. cbv zeta in *.
      repeat split.
      * destruct Hin as [-> | Hin]; [left; reflexivity | right; right; exact Hin].
      * exact Hn.
      * exact Hle.
      * intros x [<- | Hx]; [exact (float_leb_trans _ _ _ E Hle) | apply Hall, Hx].
    + pose proof (float_leb_total v m0 Hv H0 E) as E'.
      destruct (IH v Hv Ht') as [Hin [Hn [Hle Hall]]]. cbv zeta in *.
      repeat split.
      * right. destruct Hin as [-> | Hin]; [left; reflexivity | right; exact Hin].
      * exact Hn.
      * exact (float_leb_trans _ _ _ E' Hle).
      * intros x [<- | Hx]; [exact Hle | apply Hall, Hx].
Qed.

Lemma fold_min_least (t : list float) (m0 : float) :
  PrimFloat.is_nan m0 = false -> no_nan t ->
  let m := fold_left (fun m v => if PrimFloat.leb m v || PrimFloat.is_nan m
                                 then m else v) t m0 in
  (m = m0 \/ In m t) /\ PrimFloat.is_nan m = false
  /\ PrimFloat.leb m m0 = true
  /\ forall x, In x t -> PrimFloat.leb m x = true.
Proof.
  revert m0. induction t as [| v t IH]; intros m0 H0 Ht; cbn [fold_left].
  - cbv zeta. repeat split; [left; reflexivity | exact H0
                            | apply float_leb_refl; exact H0 | intros x []].
  - assert (Hv : PrimFloat.is_nan v = false)
      by (apply Ht; left; reflexivity).
    assert (Ht' : no_nan t) by (intros x Hx; apply Ht; right; exact Hx).
    rewrite H0, orb_false_r. destruct (PrimFloat.leb m0 v) eqn:E.
    + destruct (IH m0 H0 Ht') as [Hin [Hn [Hle Hall]]]. cbv zeta in *.
      repeat split.
      * destruct Hin as [-> | Hin]; [left; reflexivity | right; right; exact Hin].
      * exact Hn.
      * exact Hle.
      * intros x [<- | Hx]; [exact (float_leb_trans _ _ _ Hle E) | apply Hall, Hx].
    + pose proof (float_leb_total m0 v H0 Hv E) as E'.
      destruct (IH v Hv Ht') as [Hin [Hn [Hle Hall]]]. cbv zeta in *.
      repeat split.
      * right. destruct Hin as [-> | Hin]; [left; reflexivity | right; exact Hin].
      * exact Hn.
      * exact (float_leb_trans _ _ _ Hle E').
      * intros x [<- | Hx]; [exact Hle | apply Hall, Hx].
Qed.

Lemma np_max_greatest (l : list float) :
  l <> [] -> no_nan l -> greatest (Binary64.np_max l) l.
Proof.
  intros Hne Hl. destruct l as [| h t]; [congruence |].
  assert (Hh : PrimFloat.is_nan h = false) by (apply Hl; left; reflexivity).
  assert (Ht : no_nan t) by (intros x Hx; apply Hl; right; exact Hx).
  destruct (fold_max_greatest t h Hh Ht) as [Hin [_ [Hle Hall]]].
  cbv zeta in *. unfold greatest, Binary64.np_max. split.
  - destruct Hin as [-> | Hin]; [left; reflexivity | right; exact Hin].
  - intros x [<- | Hx]; [exact Hle | apply Hall, Hx].
Qed.

Lemma np_min_least (l : list float) :
  l <> [] -> no_nan l -> least (Binary64.np_min l) l.
Proof.
  intros Hne Hl. destruct l as [| h t]; [congruence |].
  assert (Hh : PrimFloat.is_nan h = false) by (apply Hl; left; reflexivity).
  assert (Ht : no_nan t) by (intros x Hx; apply Hl; right; exact Hx).
  destruct (fold_min_least t h Hh Ht) as [Hin [_ [Hle Hall]]].
  cbv zeta in *. unfold least, Binary64.np_min. split.
  - destruct Hin as [-> | Hin]; [left; reflexivity | right; exact Hin].
  - intros x [<- | Hx]; [exact Hle | apply Hall, Hx].
Qed.

(** ** The score *)

Lemma binary64_rankfit_v_unfold (event_rates : list float)
    (violations : list Binary64.violation) :
  (2 <= length event_rates)%nat ->
  PrimFloat.eqb (Binary64.np_max event_rates - Binary64.np_min event_rates) 0
  = false ->
  Binary64.calculate_rankfit_v event_rates violations
  = Binary64.py_max0
      (1 - Binary64.np_sum (map Binary64.v4 violations)
           / (Binary64.np_max event_rates - Binary64.np_min event_rates)).
Proof.
  intros Hlen Hr. unfold Binary64.calculate_rankfit_v.
  assert (E : (length event_rates <? 2)%nat = false)
    by (apply Nat.ltb_ge; exact Hlen).
  rewrite E. cbv zeta. rewrite Hr. reflexivity.
Qed.

(** C4, amended.  With at least two segments and a non-zero range, the
    score is [max(0, 1 - sum / (max - min))] evaluated in binary64: [sum] is
    [np.sum] of the severities, [max] and [min] are [np.max] and [np.min]
    of the rates, a greatest and a least rate when no rate is NaN.  On the
    rates [0.2, 0.5, 0.3, 0.1] the violations are [(0, 1, 0.2, 0.5, 0.3)],
    and the score is 0.2500000000000001, two units in the last place above
    0.25. *)
Theorem calculate_rankfit_v_formula :
  (forall (event_rates : list float) (violations : list Binary64.violation),
      (2 <= length event_rates)%nat ->
      PrimFloat.eqb
        (Binary64.np_max event_rates - Binary64.np_min event_rates) 0
      = false ->
      Binary64.calculate_rankfit_v event_rates violations
      = Binary64.py_max0
          (1 - Binary64.np_sum (map Binary64.v4 violations)
               / (Binary64.np_max event_rates
                  - Binary64.np_min event_rates)))
  /\ (forall event_rates : list float,
         event_rates <> [] -> no_nan event_rates ->
         greatest (Binary64.np_max event_rates) event_rates
         /\ least (Binary64.np_min event_rates) event_rates)
  /\ Binary64.find_violations [float_0_2; 0.5; float_0_3; float_0_1]%float
     = [(0%nat, 1%nat, float_0_2, 0.5%float, float_0_3)]
  /\ Binary64.calculate_rankfit_v
       [float_0_2; 0.5; float_0_3; float_0_1]%float
       [(0%nat, 1%nat, float_0_2, 0.5%float, float_0_3)]
     = 0x1.0000000000002p-2%float.
Proof.
  split; [| split; [| split]].
  - exact binary64_rankfit_v_unfold.
  - intros event_rates Hne Hl.
    split; [exact (np_max_greatest _ Hne Hl) | exact (np_min_least _ Hne Hl)].
  - vm_compute. reflexivity.
  - vm_compute. reflexivity.
Qed.

Lemma calculate_rankfit_v_formula_witness :
  ((2 <= length [float_0_2; 0.5; float_0_3; float_0_1]%float)%nat
   /\ PrimFloat.eqb
        (Binary64.np_max [float_0_2; 0.5; float_0_3; float_0_1]%float
         - Binary64.np_min [float_0_2; 0.5; float_0_3; float_0_1]%float) 0
      = false
   /\ Binary64.calculate_rankfit_v
        [float_0_2; 0.5; float_0_3; float_0_1]%float
        [(0%nat, 1%nat, float_0_2, 0.5%float, float_0_3)]
      = Binary64.py_max0
          (1 - Binary64.np_sum
                 (map Binary64.v4
                    [(0%nat, 1%nat, float_0_2, 0.5%float, float_0_3)])
               / (Binary64.np_max
                    [float_0_2; 0.5; float_0_3; float_0_1]%float
                  - Binary64.np_min
                      [float_0_2; 0.5; float_0_3; float_0_1]%float)))
  /\ ([float_0_2; 0.5; float_0_3; float_0_1]%float <> []
      /\ no_nan [float_0_2; 0.5; float_0_3; float_0_1]%float
      /\ greatest 0.5%float [float_0_2; 0.5; float_0_3; float_0_1]%float
      /\ least float_0_1 [float_0_2; 0.5; float_0_3; float_0_1]%float).
Proof.
  assert (Hlen : (2 <= length [float_0_2; 0.5; float_0_3; float_0_1]%float)%nat)
    by (simpl; lia).
  assert (Hne : [float_0_2; 0.5; float_0_3; float_0_1]%float <> [])
    by discriminate.
  assert (Hl : no_nan [float_0_2; 0.5; float_0_3; float_0_1]%float).
  { intros x Hx. cbn in Hx.
    repeat (destruct Hx as [<- | Hx]; [vm_compute; reflexivity |]).
    destruct Hx. }
  assert (Hr : PrimFloat.eqb
                 (Binary64.np_max [float_0_2; 0.5; float_0_3; float_0_1]%float
                  - Binary64.np_min
                      [float_0_2; 0.5; float_0_3; float_0_1]%float) 0
               = false) by (vm_compute; reflexivity).
  split.
  - split; [exact Hlen | split; [exact Hr |]].
    exact (proj1 calculate_rankfit_v_formula
             [float_0_2; 0.5; float_0_3; float_0_1]%float
             [(0%nat, 1%nat, float_0_2, 0.5%float, float_0_3)] Hlen Hr).
  - split; [exact Hne | split; [exact Hl |]].
    exact (proj1 (proj2 calculate_rankfit_v_formula)
             [float_0_2; 0.5; float_0_3; float_0_1]%float Hne Hl).
Defined.

(** C4 as stated fails: on the rates [0.2, 0.5, 0.3, 0.1] the score is not
    0.25. *)
Lemma rankfit_v_example_not_a_quarter :
  PrimFloat.eqb
    (Binary64.calculate_rankfit_v
       [float_0_2; 0.5; float_0_3; float_0_1]%float
       (Binary64.find_violations
          [float_0_2; 0.5; float_0_3; float_0_1]%float))
    0.25%float
  = false.
Proof. vm_compute. reflexivity. Qed.

(** ** One more violation *)











(** X1.  The scan of a rate sequence is empty exactly when no rate exceeds
    the one before it.  With no violation the score is exactly 1.0, whatever
    the rates are, unless their range is NaN.  The converse fails: the rates
    1, 0 and [2^-60] have a violation, and their score is 1.0 as well. *)
Theorem no_violation_perfect_score :
  (forall event_rates : list Qc,
      find_violations event_rates = [] <-> non_increasing event_rates)
  /\ (forall event_rates : list float,
         PrimFloat.is_nan
           (Binary64.np_max event_rates - Binary64.np_min event_rates)
         = false ->
         Binary64.calculate_rankfit_v event_rates [] = 1%float)
  /\ (Binary64.find_violations [1; 0; 0x1p-60]%float
      = [(1%nat, 2%nat, 0%float, 0x1p-60%float, 0x1p-60%float)]
      /\ Binary64.calculate_rankfit_v [1; 0; 0x1p-60]%float
           [(1%nat, 2%nat, 0%float, 0x1p-60%float, 0x1p-60%float)]
         = 1%float).
Proof.
  split; [exact find_violations_nil_iff | split].
  - intros event_rates Hn. unfold Binary64.calculate_rankfit_v.
    destruct (length event_rates <? 2)%nat; [reflexivity |]. cbv zeta.
    destruct (PrimFloat.eqb _ 0) eqn:Ez; [reflexivity |].
    change (Binary64.np_sum (map Binary64.v4 [])) with 0%float.
    destruct (zero_div _ Hn Ez) as [-> | ->]; reflexivity.
  - split; vm_compute; reflexivity.
Qed.

Lemma no_violation_perfect_score_witness :
  PrimFloat.is_nan
    (Binary64.np_max [0.5; float_0_3; float_0_1]%float
     - Binary64.np_min [0.5; float_0_3; float_0_1]%float) = false
  /\ Binary64.find_violations [0.5; float_0_3; float_0_1]%float = []
  /\ Binary64.calculate_rankfit_v [0.5; float_0_3; float_0_1]%float [] = 1%float.
Proof.
  assert (Hn : PrimFloat.is_nan
                 (Binary64.np_max [0.5; float_0_3; float_0_1]%float
                  - Binary64.np_min [0.5; float_0_3; float_0_1]%float)
               = false) by (vm_compute; reflexivity).
  split; [exact Hn | split; [vm_compute; reflexivity |]].
  exact (proj1 (proj2 no_violation_perfect_score)
           [0.5; float_0_3; float_0_1]%float Hn).
Defined.
